(** * keybr text input: the keystroke state machine, the histogram and the
    result storage

    A shallow embedding of [packages/keybr-textinput/lib/textinput.ts]
    (class [TextInput]), of the histogram built from its steps
    (class [Histogram]) and of the result storage ([openResultStorage] and
    its classes), followed by the properties proved about them.

    Conventions of the embedding.
    - JavaScript numbers that hold code points, time stamps and counters are
      integers here ([Z]); array lengths and indices are [nat].
    - A method of [TextInput] is a computation in the monad [M TextInput]:
      it threads the object, may [throw], and is [Stuck] where the source
      would read past the end of an array (JavaScript yields [undefined]
      there, a value outside the declared types) or where a loop of the
      model has used up its fuel.  Theorem [step_not_stuck] shows that
      neither happens in [step] while the cursor is not past the text.
    - The listener [#onStep] is an external sink; the steps delivered to it
      are recorded, in order, in the field [heard].
    - An [async] method of the result storage is a tree of awaited calls
      ([Async]); [exec] runs it against an environment that answers each
      call with a value or a rejection, and records the calls. *)

From Stdlib Require Import ZArith Lia Bool.
From stdpp Require Import base option list strings gmap.

(** ** Results and the state monad *)

Inductive Result (A : Type) : Type :=
| Ok (a : A)
| Thrown
| Stuck.
Arguments Ok {A} a.
Arguments Thrown {A}.
Arguments Stuck {A}.

Definition M (St A : Type) : Type := St -> Result (A * St).

Definition ret {St A} (a : A) : M St A := fun s => Ok (a, s).

Definition bind {St A B} (m : M St A) (k : A -> M St B) : M St B :=
  fun s =>
    match m s with
    | Ok (a, s') => k a s'
    | Thrown => Thrown
    | Stuck => Stuck
    end.

Definition get {St} : M St St := fun s => Ok (s, s).
Definition modify {St} (f : St -> St) : M St unit := fun s => Ok (tt, f s).
Definition throw {St A} : M St A := fun _ => Thrown.
Definition stuck {St A} : M St A := fun _ => Stuck.

Declare Scope js_scope.
Delimit Scope js_scope with js.
Notation "'let*' x ':=' c 'in' k" := (bind c (fun x => k))
  (at level 10, x name, c at level 100, k at level 200) : js_scope.
Notation "c1 ';;' c2" := (bind c1 (fun _ => c2))
  (at level 100, c2 at level 200, right associativity) : js_scope.
Local Open Scope js_scope.

(** [a[i]]: the element at index [i]; [Stuck] where JavaScript yields
    [undefined]. *)
Definition index {St A} (a : list A) (i : nat) : M St A :=
  match a !! i with
  | Some x => ret x
  | None => stuck
  end.

(** [for (let i = lo; i < hi; i++) body(i)], where the body may return a
    value from the enclosing function ([Some r]) or fall through to the next
    iteration ([None]).  [forIn] walks the indices. *)
Fixpoint forIn {St R} (ixs : list nat) (body : nat -> M St (option R))
  : M St (option R) :=
  match ixs with
  | [] => ret None
  | i :: ixs' =>
      let* r := body i in
      match r with
      | Some v => ret (Some v)
      | None => forIn ixs' body
      end
  end.

Definition forRange {St R} (lo hi : nat) (body : nat -> M St (option R))
  : M St (option R) :=
  forIn (seq lo (hi - lo)) body.

(** A statement that may return from the enclosing function ([Some r]) or
    fall through ([None]), followed by the rest of the function. *)
Definition orElse {St R} (stmt : M St (option R)) (rest : M St R) : M St R :=
  let* r := stmt in
  match r with
  | Some v => ret v
  | None => rest
  end.

(** A loop that updates a local variable of the enclosing function. *)
Fixpoint foldM {St A B} (body : B -> A -> M St B) (b : B) (xs : list A)
  : M St B :=
  match xs with
  | [] => ret b
  | x :: xs' => let* b' := body b x in foldM body b' xs'
  end.

(** The same loop with a body that never returns early. *)
Fixpoint forEach {St A} (xs : list A) (body : A -> M St unit) : M St unit :=
  match xs with
  | [] => ret tt
  | x :: xs' => body x ;; forEach xs' body
  end.

(** [while (cond) body], with fuel. *)
Fixpoint while {St} (fuel : nat) (cond : M St bool) (body : M St unit)
  : M St unit :=
  match fuel with
  | O => stuck
  | S fuel' =>
      let* b := cond in
      if b then body ;; while fuel' cond body else ret tt
  end.

(** ** Data of [types.ts] and the classifier of [@keybr/unicode] *)

Record Step : Type := mkStep {
  codePoint : Z;
  timeStamp : Z;
  typo : bool;
}.

Inductive Feedback : Type := Succeeded | Recovered | Failed.

Record Char : Type := mkChar {
  char_codePoint : Z;
  char_attrs : Z;
}.

(** The functions imported from [@keybr/unicode] and [./normalize.ts]; their
    sources are not part of the embedding, so the machine is parametric in
    them. *)
Class Unicode : Type := {
  isWhitespace : Z -> bool;
  normalize : Z -> Z;
  normalizeWhitespace : Z -> Z;
}.

(** The attribute constants imported from [./types.ts]. *)
Class Attrs : Type := {
  attrNormal : Z;
  attrHit : Z;
  attrMiss : Z;
  attrGarbage : Z;
  attrCursor : Z;
}.

Definition recoverBufferLength : nat := 3.
Definition garbageBufferLength : nat := 10.

(** ** The class [TextInput] *)

(** The object: the target and the settings, which never change; the private
    fields [#steps], [#garbage] and [#typo]; and [heard], the steps that
    [#onStep] has received so far. *)
Record TextInput : Type := mkTextInput {
  codePoints : list Z;
  stopOnError : bool;
  forgiveErrors : bool;
  spaceSkipsWords : bool;
  _steps : list Step;
  _garbage : list Step;
  _typo : bool;
  heard : list Step;
}.

Definition set_steps (v : list Step) (t : TextInput) : TextInput :=
  mkTextInput (codePoints t) (stopOnError t) (forgiveErrors t)
    (spaceSkipsWords t) v (_garbage t) (_typo t) (heard t).

Definition set_garbage (v : list Step) (t : TextInput) : TextInput :=
  mkTextInput (codePoints t) (stopOnError t) (forgiveErrors t)
    (spaceSkipsWords t) (_steps t) v (_typo t) (heard t).

Definition set_typo (v : bool) (t : TextInput) : TextInput :=
  mkTextInput (codePoints t) (stopOnError t) (forgiveErrors t)
    (spaceSkipsWords t) (_steps t) (_garbage t) v (heard t).

Definition set_heard (v : list Step) (t : TextInput) : TextInput :=
  mkTextInput (codePoints t) (stopOnError t) (forgiveErrors t)
    (spaceSkipsWords t) (_steps t) (_garbage t) (_typo t) v.

(** [reset()] *)
Definition reset (t : TextInput) : TextInput :=
  set_typo false (set_garbage [] (set_steps [] t)).

(** The constructor; [codePoints] stands for [[...toCodePoints(text)]]. *)
Definition new (codePoints : list Z) (stopOnError forgiveErrors spaceSkipsWords : bool)
  : TextInput :=
  reset (mkTextInput codePoints stopOnError forgiveErrors spaceSkipsWords
           [] [] false []).

(** [get completed()] *)
Definition completed (t : TextInput) : bool :=
  length (_steps t) =? length (codePoints t).

(** [getSteps()] *)
Definition getSteps (t : TextInput) : list Step := _steps t.

(** [#addStep(step)] *)
Definition addStep (step : Step) : M TextInput unit :=
  modify (fun t => set_steps (_steps t ++ [step]) t) ;;
  modify (fun t => set_heard (heard t ++ [step]) t).

Section Machine.
Context {U : Unicode}.

(** [#handleSpace(timeStamp)] *)
Definition handleSpace (timeStamp : Z) : M TextInput unit :=
  let* t := get in
  let* c := index (codePoints t) (length (_steps t)) in
  addStep (mkStep c timeStamp true) ;;
  let* t := get in
  while (S (length (codePoints t)))
    (let* t := get in
     if length (_steps t) <? length (codePoints t) then
       let* c := index (codePoints t) (length (_steps t)) in
       ret (negb (isWhitespace c))
     else ret false)
    (let* t := get in
     let* c := index (codePoints t) (length (_steps t)) in
     addStep (mkStep c timeStamp true)) ;;
  let* t := get in
  let* b :=
    (if length (_steps t) <? length (codePoints t) then
       let* c := index (codePoints t) (length (_steps t)) in
       ret (isWhitespace c)
     else ret false) in
  (if b then
     let* t := get in
     let* c := index (codePoints t) (length (_steps t)) in
     addStep (mkStep c timeStamp false)
   else ret tt) ;;
  modify (set_garbage []) ;;
  modify (set_typo false).

(** [#handleReplacedCharacter()] *)
Definition handleReplacedCharacter : M TextInput bool :=
  let* t := get in
  if (length (_garbage t) <? recoverBufferLength + 1)
     || (length (codePoints t) <? length (_steps t) + recoverBufferLength + 1)
  then ret false
  else
  orElse
    (forRange 0 recoverBufferLength (fun i =>
       let* t := get in
       let* c := index (codePoints t) (length (_steps t) + i + 1) in
       let* g := index (_garbage t) (i + 1) in
       if negb (c =? codePoint g)%Z then ret (Some false) else ret None))
    (let* t := get in
     let* c := index (codePoints t) (length (_steps t)) in
     let* g0 := index (_garbage t) 0 in
     addStep (mkStep c (timeStamp g0) true) ;;
     let* t := get in
     forEach (seq 1 (length (_garbage t) - 1)) (fun i =>
       let* t := get in
       let* g := index (_garbage t) i in
       addStep (mkStep (codePoint g) (timeStamp g) false)) ;;
     modify (set_garbage []) ;;
     modify (set_typo false) ;;
     ret true).

(** [#handleSkippedCharacter()] *)
Definition handleSkippedCharacter : M TextInput bool :=
  let* t := get in
  if (length (_garbage t) <? recoverBufferLength)
     || (length (codePoints t) <? length (_steps t) + recoverBufferLength + 1)
  then ret false
  else
  orElse
    (forRange 0 recoverBufferLength (fun i =>
       let* t := get in
       let* c := index (codePoints t) (length (_steps t) + i + 1) in
       let* g := index (_garbage t) i in
       if negb (c =? codePoint g)%Z then ret (Some false) else ret None))
    (let* t := get in
     let* c := index (codePoints t) (length (_steps t)) in
     let* g0 := index (_garbage t) 0 in
     addStep (mkStep c (timeStamp g0) true) ;;
     let* t := get in
     forEach (seq 0 (length (_garbage t) - 0)) (fun i =>
       let* t := get in
       let* g := index (_garbage t) i in
       addStep (mkStep (codePoint g) (timeStamp g) false)) ;;
     modify (set_garbage []) ;;
     modify (set_typo false) ;;
     ret true).

(** [step(codePoint, timeStamp)] *)
Definition step (codePoint timeStamp : Z) : M TextInput Feedback :=
  let* t := get in
  if completed t then throw
  else
  let codePoint := normalizeWhitespace codePoint in
  (* Handle whitespace at the beginning of text. *)
  if (length (_steps t) =? 0) && (length (_garbage t) =? 0)
     && negb (_typo t) && (codePoint =? 0x0020)%Z
  then ret Succeeded
  else
  (* Handle the delete key. *)
  if (codePoint =? 0x0008)%Z then
    if 0 <? length (_garbage t) then
      modify (fun t => set_garbage (removelast (_garbage t)) t) ;;
      ret Succeeded
    else ret Failed
  else
  (* Handle the space key. *)
  orElse
    (let* space :=
       (if (codePoint =? 0x0020)%Z then
          let* c := index (codePoints t) (length (_steps t)) in
          ret (negb (isWhitespace c))
        else ret false) in
     if space then
       let* wordStart :=
         (if length (_garbage t) =? 0 then
            if length (_steps t) =? 0 then ret true
            else
              let* c := index (codePoints t) (length (_steps t) - 1) in
              ret (isWhitespace c)
          else ret false) in
       if wordStart then ret (Some Succeeded)
       else if spaceSkipsWords t then
         handleSpace timeStamp ;;
         ret (Some Recovered)
       else ret None
     else ret None)
  (orElse
    (* Handle correct input. *)
    (let* t := get in
     let* c := index (codePoints t) (length (_steps t)) in
     if (normalize c =? codePoint)%Z
        && (forgiveErrors t || (length (_garbage t) =? 0))
     then
       let typo := _typo t in
       addStep (mkStep codePoint timeStamp typo) ;;
       modify (set_garbage []) ;;
       modify (set_typo false) ;;
       if typo then ret (Some Recovered) else ret (Some Succeeded)
     else ret None)
    (* Handle incorrect input. *)
    (modify (set_typo true) ;;
     let* t := get in
     (if negb (stopOnError t) || forgiveErrors t then
        if length (_garbage t) <? garbageBufferLength then
          modify (fun t =>
            set_garbage (_garbage t ++ [mkStep codePoint timeStamp false]) t)
        else ret tt
      else ret tt) ;;
     let* t := get in
     let* recovered :=
       (if forgiveErrors t then
          let* replaced := handleReplacedCharacter in
          if replaced then ret true else handleSkippedCharacter
        else ret false) in
     if recovered then ret Recovered else ret Failed)).

End Machine.

(** ** Rendering: [toChar] and [getChars] *)

(** [charCache] is a variable of the module, shared by every [TextInput];
    [getChars] runs on the object together with the cache. *)
Record World : Type := mkWorld {
  this : TextInput;
  charCache : gmap Z Char;
}.

Definition set_charCache (v : gmap Z Char) (w : World) : World :=
  mkWorld (this w) v.

(** [ToInt32] of an integer: the value wrapped into [-2^31, 2^31). *)
Definition toInt32 (z : Z) : Z := ((z + 2 ^ 31) mod 2 ^ 32 - 2 ^ 31)%Z.

(** [(codePoint & 0x00ff_ffff) | ((attrs & 0x0000_00ff) << 24)] *)
Definition charKey (codePoint attrs : Z) : Z :=
  toInt32
    (Z.lor
       (toInt32 (Z.land (toInt32 codePoint) 0x00ffffff))
       (toInt32 (Z.shiftl (toInt32 (Z.land (toInt32 attrs) 0x000000ff)) 24))).

(** [toChar(codePoint, attrs)] *)
Definition toChar (codePoint attrs : Z) : M World Char :=
  let key := charKey codePoint attrs in
  let* w := get in
  match charCache w !! key with
  | Some char => ret char
  | None =>
      let char := mkChar codePoint attrs in
      modify (fun w => set_charCache (<[key := char]> (charCache w)) w) ;;
      ret char
  end.

(** [getChars()] *)
Definition getChars {A : Attrs} : M World (list Char) :=
  let* w := get in
  foldM (fun chars i =>
      let* w := get in
      let* codePoint := index (codePoints (this w)) i in
      if i <? length (_steps (this w)) then
        (* Append characters before cursor. *)
        let* step := index (_steps (this w)) i in
        let* ch := toChar codePoint (if typo step then attrMiss else attrHit) in
        ret (chars ++ [ch])
      else if i =? length (_steps (this w)) then
        let* chars :=
          (if negb (stopOnError (this w)) then
             (* Append buffered garbage. *)
             foldM (fun chars '(mkStep codePoint _ _) =>
                 let* ch := toChar codePoint attrGarbage in
                 ret (chars ++ [ch]))
               chars (_garbage (this w))
           else ret chars) in
        (* Append character at cursor. *)
        let* ch := toChar codePoint attrCursor in
        ret (chars ++ [ch])
      else
        (* Append characters after cursor. *)
        let* ch := toChar codePoint attrNormal in
        ret (chars ++ [ch]))
    [] (seq 0 (length (codePoints (this w)))).

(** ** The class [Histogram] *)

Record Sample : Type := mkSample {
  sample_codePoint : Z;
  hitCount : Z;
  missCount : Z;
  timeToType : Z;
}.

(** The object [{ hitCount, missCount, timeToType }] that [Histogram.from]
    keeps per code point while it walks the steps. *)
Record Tally : Type := mkTally {
  tally_hitCount : Z;
  tally_missCount : Z;
  tally_timeToType : Z;
}.

(** [Math.round(n / d)] for integers [n] and [d > 0]: the quotient rounded to
    the nearest integer, halves towards positive infinity.  The embedding
    computes it exactly; the source computes [n / d] in double precision,
    which gives the same integer as long as [n] stays far below [2^52]. *)
Definition mathRoundDiv (n d : Z) : Z := ((2 * n + d) / (2 * d))%Z.

(** A histogram is its private map [_data]. *)
Record Histogram : Type := mkHistogram {
  _data : gmap Z Sample;
}.

(** The order of [(a, b) => a.codePoint - b.codePoint]. *)
Definition byCodePoint (a b : Sample) : Prop :=
  (sample_codePoint a <= sample_codePoint b)%Z.

#[global] Instance byCodePoint_dec : RelDecision byCodePoint :=
  fun a b => decide (sample_codePoint a <= sample_codePoint b)%Z.

(** [Array.from(samples).sort(...)]: the sort of JavaScript is stable, so
    samples with the same code point stay in the order given.  [insertSample]
    puts a sample in front of the first one that is not below it, hence in
    front of the samples with its own code point, which come after it in
    the array. *)
Fixpoint insertSample (a : Sample) (sorted : list Sample) : list Sample :=
  match sorted with
  | [] => [a]
  | b :: rest =>
      if decide (byCodePoint a b) then a :: sorted
      else b :: insertSample a rest
  end.

Definition sortSamples (samples : list Sample) : list Sample :=
  foldr insertSample [] samples.

(** [constructor(samples)]: the samples sorted by code point, then entered
    in the map one after the other (a later sample replaces an earlier one
    with the same code point). *)
Definition Histogram_new (samples : list Sample) : Histogram :=
  mkHistogram
    (foldl (fun m sample => <[sample_codePoint sample := sample]> m) ∅
       (sortSamples samples)).

(** [get(codePoint)]; [None] is [null]. *)
Definition Histogram_get (h : Histogram) (codePoint : Z) : option Sample :=
  _data h !! codePoint.

(** [has(codePoint)] *)
Definition Histogram_has (h : Histogram) (codePoint : Z) : bool :=
  bool_decide (is_Some (_data h !! codePoint)).

(** [get complexity()] *)
Definition Histogram_complexity (h : Histogram) : nat := size (_data h).

(** One turn of the loop of [Histogram.from]: the map of tallies and the
    variable [last]. *)
Definition from_body (acc : gmap Z Tally * option Step) (step : Step)
  : gmap Z Tally * option Step :=
  let '(samples, last) := acc in
  let sample :=
    match samples !! codePoint step with
    | Some sample => sample
    | None => mkTally 0 0 0
    end in
  let sample :=
    mkTally (tally_hitCount sample + 1) (tally_missCount sample)
      (tally_timeToType sample) in
  let sample :=
    if typo step then
      mkTally (tally_hitCount sample) (tally_missCount sample + 1)
        (tally_timeToType sample)
    else
      match last with
      | Some last =>
          mkTally (tally_hitCount sample) (tally_missCount sample)
            (tally_timeToType sample + (timeStamp step - timeStamp last))
      | None => sample
      end in
  (<[codePoint step := sample]> samples, Some step).

(** [Histogram.from(steps, { startedAt })]; [startedAt = None] is [null].
    The entries of the map of tallies are listed in the order of [gmap], not
    in the order of insertion; their code points are distinct and the
    constructor sorts them, so the histogram does not depend on it. *)
Definition Histogram_from (steps : list Step) (startedAt : option Z)
  : Histogram :=
  let last :=
    match startedAt with
    | Some startedAt => Some (mkStep 0 startedAt false)
    | None => None
    end in
  let samples := fst (foldl from_body (∅, last) steps) in
  Histogram_new
    ((fun '(codePoint, tally) =>
        mkSample codePoint (tally_hitCount tally) (tally_missCount tally)
          (mathRoundDiv (tally_timeToType tally) (tally_hitCount tally)))
     <$> map_to_list samples).

(** ** The result storage

    [openResultStorage] and the classes it builds.  Their methods are
    [async]: here a method is a tree of the calls it awaits on the local
    database and on the remote service, each call answered by the
    environment with a value or with a rejection.  The classes
    [PersistentResultStorage], [ResultSyncNamedUser] and
    [ResultSyncPublicUser] are outside this part of the code; their methods
    are the calls themselves. *)

(** The types that the storage only hands on: the typing result of
    [@keybr/result] (named [TypingResult] here, [Result] being the result
    of a method of the machine), the progress listener with the default
    [(total, current) => {}], and the values that the local database and the
    remote service may throw. *)
Class StorageTypes : Type := {
  TypingResult : Type;
  ProgressListener : Type;
  noProgress : ProgressListener;
  Foreign : Type;
}.

(** What can be thrown: [new Error(message)], [new DatabaseError(message,
    { cause })], or a value of the environment. *)
Inductive Exn {T : StorageTypes} : Type :=
| Error (message : string)
| DatabaseError (message : string) (cause : Exn)
| Raised (v : Foreign).

(** The remote objects that [openResultStorage] makes. *)
Inductive Remote : Type :=
| ResultSyncNamedUser
| ResultSyncPublicUser (userId : string).

(** The awaited calls that answer with results, and those that answer with
    nothing. *)
Inductive Query {T : StorageTypes} : Type :=
| LocalLoad
| RemoteReceive (remote : Remote) (progressListener : ProgressListener).

Inductive Command {T : StorageTypes} : Type :=
| LocalAppend (results : list TypingResult)
| LocalClear
| RemoteSend (remote : Remote) (results : list TypingResult)
    (progressListener : ProgressListener)
| RemoteClear (remote : Remote).

(** An [async] method: it resolves, rejects, or awaits a call and goes on
    with what the call gave. *)
Inductive Async {T : StorageTypes} (X : Type) : Type :=
| Resolve (x : X)
| Reject (err : Exn)
| Ask (q : Query) (k : Exn + list TypingResult -> Async X)
| Tell (c : Command) (k : Exn + unit -> Async X).
Arguments Resolve {T X} x.
Arguments Reject {T X} err.
Arguments Ask {T X} q k.
Arguments Tell {T X} c k.

Fixpoint Async_bind {T : StorageTypes} {X Y} (m : Async X) (k : X -> Async Y) : Async Y :=
  match m with
  | Resolve x => k x
  | Reject err => Reject err
  | Ask q h => Ask q (fun r => Async_bind (h r) k)
  | Tell c h => Tell c (fun r => Async_bind (h r) k)
  end.

(** [try { m } catch (err) { handler(err) }] *)
Fixpoint tryCatch {T : StorageTypes} {X} (m : Async X) (handler : Exn -> Async X) : Async X :=
  match m with
  | Resolve x => Resolve x
  | Reject err => handler err
  | Ask q h => Ask q (fun r => tryCatch (h r) handler)
  | Tell c h => Tell c (fun r => tryCatch (h r) handler)
  end.

(** [await] of a call: its value, or its rejection thrown. *)
Definition awaitQuery {T : StorageTypes} (q : Query) : Async (list TypingResult) :=
  Ask q (fun r =>
    match r with
    | inl err => Reject err
    | inr results => Resolve results
    end).

Definition awaitCommand {T : StorageTypes} (c : Command) : Async unit :=
  Tell c (fun r =>
    match r with
    | inl err => Reject err
    | inr _ => Resolve tt
    end).

Declare Scope async_scope.
Delimit Scope async_scope with async.
Notation "'let*' x ':=' c 'in' k" := (Async_bind c (fun x => k))
  (at level 10, x name, c at level 100, k at level 200) : async_scope.
Notation "c1 ';;' c2" := (Async_bind c1 (fun _ => c2))
  (at level 100, c2 at level 200, right associativity) : async_scope.

(** The interfaces of [types.ts], as this code uses them. *)
Record LocalResultStorage {T : StorageTypes} : Type := {
  local_load : Async (list TypingResult);
  local_append : list TypingResult -> Async unit;
  local_clear : Async unit;
}.

Record RemoteResultSync {T : StorageTypes} : Type := {
  remote_receive : ProgressListener -> Async (list TypingResult);
  remote_send : list TypingResult -> ProgressListener -> Async unit;
  remote_clear : Async unit;
}.

(** [ResultStorage]; the progress listener is optional ([None] is
    [undefined]). *)
Record ResultStorage {T : StorageTypes} : Type := {
  storage_load : option ProgressListener -> Async (list TypingResult);
  storage_append : list TypingResult -> option ProgressListener -> Async unit;
  storage_clear : Async unit;
}.

(** [new PersistentResultStorage()] *)
Definition PersistentResultStorage {T : StorageTypes} : LocalResultStorage := ({|
  local_load := awaitQuery LocalLoad;
  local_append := fun results => awaitCommand (LocalAppend results);
  local_clear := awaitCommand LocalClear;
|})%async.

(** [new ResultSyncNamedUser()] and [new ResultSyncPublicUser(userId)] *)
Definition remoteResultSync {T : StorageTypes} (remote : Remote)
  : RemoteResultSync := ({|
  remote_receive := fun progressListener =>
    awaitQuery (RemoteReceive remote progressListener);
  remote_send := fun results progressListener =>
    awaitCommand (RemoteSend remote results progressListener);
  remote_clear := awaitCommand (RemoteClear remote);
|})%async.

(** [class ResultStorageOfAnonymousUser] *)
Definition ResultStorageOfAnonymousUser {T : StorageTypes}
    (_local : LocalResultStorage) : ResultStorage := ({|
  storage_load := fun progressListener =>
    let* results := local_load _local in
    Resolve results;
  storage_append := fun results progressListener =>
    local_append _local results;;
    Resolve tt;
  storage_clear :=
    local_clear _local;;
    Resolve tt;
|})%async.

(** [class ResultStorageOfNamedUser] *)
Definition ResultStorageOfNamedUser {T : StorageTypes}
    (_local : LocalResultStorage) (_remote : RemoteResultSync) : ResultStorage := ({|
  storage_load := fun progressListener =>
    let progressListener := default noProgress progressListener in
    let* results := remote_receive _remote progressListener in
    if 0 <? length results then
      Resolve results
    else
      let* results := local_load _local in
      if 0 <? length results then
        remote_send _remote results progressListener;;
        local_clear _local;;
        Resolve results
      else
        Resolve [];
  storage_append := fun results progressListener =>
    let progressListener := default noProgress progressListener in
    remote_send _remote results progressListener;;
    Resolve tt;
  storage_clear :=
    remote_clear _remote;;
    Resolve tt;
|})%async.

(** [class ResultStorageOfPublicUser] *)
Definition ResultStorageOfPublicUser {T : StorageTypes}
    (_remote : RemoteResultSync) : ResultStorage := ({|
  storage_load := fun progressListener =>
    let progressListener := default noProgress progressListener in
    let* results := remote_receive _remote progressListener in
    Resolve results;
  storage_append := fun results progressListener =>
    Reject (Error "Disabled");
  storage_clear :=
    Reject (Error "Disabled");
|})%async.

(** [translateErrors(storage)] *)
Definition translateErrors {T : StorageTypes} (storage : ResultStorage)
  : ResultStorage := ({|
  storage_load := fun progressListener =>
    tryCatch (storage_load storage progressListener)
      (fun err => Reject (DatabaseError "Cannot read records from database" err));
  storage_append := fun results progressListener =>
    tryCatch (storage_append storage results progressListener)
      (fun err => Reject (DatabaseError "Cannot add records to database" err));
  storage_clear :=
    tryCatch (storage_clear storage)
      (fun err => Reject (DatabaseError "Cannot clear database" err));
|})%async.

(** [type OpenRequest]; [userId = None] is [null]. *)
Inductive OpenRequest : Type :=
| private (userId : option string)
| public (userId : string).

(** [openResultStorage(request)] *)
Definition openResultStorage {T : StorageTypes} (request : OpenRequest)
  : ResultStorage :=
  match request with
  | private None =>
      let local := PersistentResultStorage in
      translateErrors (ResultStorageOfAnonymousUser local)
  | private (Some _) =>
      let local := PersistentResultStorage in
      let remote := remoteResultSync ResultSyncNamedUser in
      translateErrors (ResultStorageOfNamedUser local remote)
  | public userId =>
      let remote := remoteResultSync (ResultSyncPublicUser userId) in
      translateErrors (ResultStorageOfPublicUser remote)
  end.

(** *** Running a method against an environment *)

(** A call together with what the environment answered. *)
Inductive Event {T : StorageTypes} : Type :=
| Asked (q : Query) (r : Exn + list TypingResult)
| Told (c : Command) (r : Exn + unit).

(** The environment: the local database and the remote service, with a
    state [W] of their own. *)
Record Env {T : StorageTypes} (W : Type) : Type := {
  answer : Query -> W -> (Exn + list TypingResult) * W;
  perform : Command -> W -> (Exn + unit) * W;
}.
Arguments answer {T W} _ _ _.
Arguments perform {T W} _ _ _.

(** The outcome of a method, the environment it leaves, and the calls it
    made, in order. *)
Fixpoint exec {T : StorageTypes} {W X} (env : Env W) (m : Async X) (w : W)
  : (Exn + X) * W * list Event :=
  match m with
  | Resolve x => (inr x, w, [])
  | Reject err => (inl err, w, [])
  | Ask q k =>
      let '(r, w1) := answer env q w in
      let '(out, w2, calls) := exec env (k r) w1 in
      (out, w2, Asked q r :: calls)
  | Tell c k =>
      let '(r, w1) := perform env c w in
      let '(out, w2, calls) := exec env (k r) w1 in
      (out, w2, Told c r :: calls)
  end.

(** The outcome as [translateErrors] hands it on: a value as it is, an
    error wrapped in a [DatabaseError] with the given message. *)
Definition translated {T : StorageTypes} {W X} (message : string)
    (r : (Exn + X) * W * list Event) : (Exn + X) * W * list Event :=
  let '(out, w, calls) := r in
  (match out with
   | inl err => inl (DatabaseError message err)
   | inr x => inr x
   end, w, calls).

(** ** Examples of the parameters, used to run the machine on concrete input *)

(** A classifier for plain ASCII text: the space is the only whitespace and
    nothing is normalized. *)
Definition asciiUnicode : Unicode := {|
  isWhitespace := fun c => (c =? 0x0020)%Z;
  normalize := fun c => c;
  normalizeWhitespace := fun c => c;
|}.

(** Attribute constants for the examples: distinct bits of a byte. *)
Definition exampleAttrs : Attrs := {|
  attrNormal := 0;
  attrHit := 1;
  attrMiss := 2;
  attrGarbage := 4;
  attrCursor := 8;
|}.

(** [run inputs] feeds the machine one keystroke after the other and records
    what each call gave: a feedback value, or the error it threw (the object
    is then as it was before the call). *)
Definition run1 {U : Unicode} (t : TextInput) (input : Z * Z)
  : Result Feedback * TextInput :=
  match step (fst input) (snd input) t with
  | Ok (fb, t') => (Ok fb, t')
  | Thrown => (Thrown, t)
  | Stuck => (Stuck, t)
  end.

Fixpoint run {U : Unicode} (t : TextInput) (inputs : list (Z * Z))
  : list (Result Feedback) * TextInput :=
  match inputs with
  | [] => ([], t)
  | input :: inputs' =>
      let '(r, t') := run1 t input in
      let '(rs, t'') := run t' inputs' in
      (r :: rs, t'')
  end.

(** Machines of the examples.  [ex_abcd_replaced]: the target "abcd" with
    "xbcd" buffered; [ex_abcd_skipped]: the same target with "bcd" buffered;
    [ex_foo_bar]: the target "foo bar" after a mistyped "x"; [ex_ab]: a new
    machine for "ab"; [ex_ab_full]: that machine after ten mistyped
    keystrokes. *)
Definition ex_abcd_replaced : TextInput :=
  mkTextInput [97; 98; 99; 100]%Z false true false []
    [mkStep 120 1 false; mkStep 98 2 false; mkStep 99 3 false; mkStep 100 4 false]
    true [].

Definition ex_abcd_skipped : TextInput :=
  mkTextInput [97; 98; 99; 100]%Z false true false []
    [mkStep 98 1 false; mkStep 99 2 false; mkStep 100 3 false]
    true [].

Definition ex_foo_bar : TextInput :=
  mkTextInput [102; 111; 111; 32; 98; 97; 114]%Z false false true []
    [mkStep 120 1 false] true [].

Definition ex_ab : TextInput := new [97; 98]%Z false false false.

Definition ex_eleven : list (Z * Z) :=
  [(101, 1); (102, 2); (103, 3); (104, 4); (105, 5); (106, 6);
   (107, 7); (108, 8); (109, 9); (110, 10); (111, 11)]%Z.

Definition ex_ab_full : TextInput :=
  snd (run (U := asciiUnicode) ex_ab (take 10 ex_eleven)).

(** The steps of the histogram example of the specification. *)
Definition ex_steps : list Step :=
  [mkStep 97 0 false; mkStep 97 10 false; mkStep 97 5 true].

(** ** Vocabulary of the statements *)

(** The cursor: the number of committed steps. *)
Definition cursor (t : TextInput) : nat := length (_steps t).

(** A buffered keystroke committed as a correct step. *)
Definition asHit (g : Step) : Step := mkStep (codePoint g) (timeStamp g) false.

(** The machine after the steps [new] were added ([#addStep]): appended to
    the committed history and delivered to the listener. *)
Definition deliver (t : TextInput) (new : list Step) : TextInput :=
  set_heard (heard t ++ new) (set_steps (_steps t ++ new) t).

(** The machine after it has committed the steps [new] and cleared the
    garbage buffer and the typo flag. *)
Definition commit (t : TextInput) (new : list Step) : TextInput :=
  set_typo false (set_garbage [] (deliver t new)).

(** The characters of a word that are left: the longest prefix without
    whitespace. *)
Fixpoint wordPrefix {U : Unicode} (rest : list Z) : list Z :=
  match rest with
  | [] => []
  | c :: rest' => if isWhitespace c then [] else c :: wordPrefix rest'
  end.

(** The steps of a word-skip, given the target from the cursor on: the
    character at the cursor and the rest of the word as typos, then the
    character that follows the word, if there is one, as a correct step. *)
Definition wordSkipSteps {U : Unicode} (timeStamp : Z) (fromCursor : list Z)
  : list Step :=
  match fromCursor with
  | [] => []
  | c :: rest =>
      let word := wordPrefix rest in
      mkStep c timeStamp true
      :: map (fun c => mkStep c timeStamp true) word
      ++ match drop (length word) rest with
         | [] => []
         | w :: _ => [mkStep w timeStamp false]
         end
  end.

(** The condition of replaced-character recovery: four buffered keystrokes,
    four characters left from the cursor, and the buffered keystrokes 1..3
    equal to the three characters after the cursor. *)
Definition replacedCond (t : TextInput) : Prop :=
  4 <= length (_garbage t) /\
  cursor t + 4 <= length (codePoints t) /\
  forall i, i < 3 ->
    codePoint <$> (_garbage t !! (i + 1)) = codePoints t !! (cursor t + i + 1).

(** The condition of skipped-character recovery. *)
Definition skippedCond (t : TextInput) : Prop :=
  3 <= length (_garbage t) /\
  cursor t + 4 <= length (codePoints t) /\
  forall i, i < 3 ->
    codePoint <$> (_garbage t !! i) = codePoints t !! (cursor t + i + 1).

(** The two conditions as a test: [off] is 1 for replaced-character recovery
    and 0 for skipped-character recovery. *)
Definition recoverable (off : nat) (t : TextInput) : bool :=
  (3 + off <=? length (_garbage t))
  && (cursor t + 4 <=? length (codePoints t))
  && forallb (fun i =>
       bool_decide (codePoint <$> (_garbage t !! (i + off))
                    = codePoints t !! (cursor t + i + 1)))
       (seq 0 3).

(** The steps committed by a recovery that keeps the buffered keystrokes
    from index [off] on. *)
Definition recoveredSteps (off : nat) (t : TextInput) : list Step :=
  match codePoints t !! cursor t, _garbage t with
  | Some c, g0 :: _ =>
      mkStep c (timeStamp g0) true :: map asHit (drop off (_garbage t))
  | _, _ => []
  end.

(** The test of leading-space absorption, on the normalized input [c]. *)
Definition leadingSpace (t : TextInput) (c : Z) : bool :=
  (length (_steps t) =? 0) && (length (_garbage t) =? 0)
  && negb (_typo t) && (c =? 0x0020)%Z.

(** The cursor is at the beginning of a word and nothing is buffered. *)
Definition wordStart {U : Unicode} (t : TextInput) : bool :=
  (length (_garbage t) =? 0)
  && ((length (_steps t) =? 0)
      || match codePoints t !! (cursor t - 1) with
         | Some p => isWhitespace p
         | None => false
         end).

(** The input is the expected character and may be accepted. *)
Definition matches {U : Unicode} (e c : Z) (t : TextInput) : bool :=
  (normalize e =? c)%Z && (forgiveErrors t || (length (_garbage t) =? 0)).

(** The machine after a mismatch was noted: the typo flag is set and, where
    buffering is active and the buffer has room, the keystroke is buffered. *)
Definition mistyped (t : TextInput) (c timeStamp : Z) : TextInput :=
  let t := set_typo true t in
  if (negb (stopOnError t) || forgiveErrors t)
     && (length (_garbage t) <? garbageBufferLength)
  then set_garbage (_garbage t ++ [mkStep c timeStamp false]) t
  else t.

(** The call reaches "Handle incorrect input": no earlier case of [step]
    takes the input. *)
Definition reachesMismatch {U : Unicode} (e c : Z) (t : TextInput) : bool :=
  negb (leadingSpace t c)
  && negb (c =? 0x0008)%Z
  && negb ((c =? 0x0020)%Z && negb (isWhitespace e)
           && (wordStart t || spaceSkipsWords t))
  && negb (matches e c t).

(** What a call of [step] does on a machine whose cursor is inside the text:
    [e] is the expected character and [c] the normalized input.  Lemma
    [step_eq] proves that [step] computes this. *)
Definition stepOutcome {U : Unicode} (e c timeStamp : Z) (t : TextInput)
  : Feedback * TextInput :=
  if leadingSpace t c then (Succeeded, t)
  else if (c =? 0x0008)%Z then
    if 0 <? length (_garbage t)
    then (Succeeded, set_garbage (removelast (_garbage t)) t)
    else (Failed, t)
  else if (c =? 0x0020)%Z && negb (isWhitespace e) && wordStart t
  then (Succeeded, t)
  else if (c =? 0x0020)%Z && negb (isWhitespace e) && spaceSkipsWords t
  then (Recovered,
        commit t (wordSkipSteps timeStamp (drop (cursor t) (codePoints t))))
  else if matches e c t
  then (if _typo t then Recovered else Succeeded,
        commit t [mkStep c timeStamp (_typo t)])
  else
    let t1 := mistyped t c timeStamp in
    if forgiveErrors t && recoverable 1 t1
    then (Recovered, commit t1 (recoveredSteps 1 t1))
    else if forgiveErrors t && recoverable 0 t1
    then (Recovered, commit t1 (recoveredSteps 0 t1))
    else (Failed, t1).

(** The cases of [step] as a relation between the machine before and after
    a call that returns: [e] is the expected character, or anything when the
    cursor is outside the text, and [c] the normalized input.  Every case
    carries the facts about it that the proofs use; lemma [step_transition]
    derives the relation from the code. *)
Inductive Transition {U : Unicode} (e c timeStamp : Z) (t : TextInput)
  : Feedback -> TextInput -> Prop :=
| T_ignored :
    (* a leading space, or a space at the beginning of a word *)
    c = 0x0020%Z ->
    _garbage t = [] ->
    leadingSpace t c = true \/
    (codePoints t !! cursor t = Some e /\ isWhitespace e = false /\
     wordStart t = true) ->
    Transition e c timeStamp t Succeeded t
| T_backspace :
    c = 0x0008%Z ->
    _garbage t <> [] ->
    Transition e c timeStamp t Succeeded
      (set_garbage (removelast (_garbage t)) t)
| T_backspace_failed :
    c = 0x0008%Z ->
    _garbage t = [] ->
    Transition e c timeStamp t Failed t
| T_word_skip :
    c = 0x0020%Z ->
    codePoints t !! cursor t = Some e ->
    isWhitespace e = false ->
    leadingSpace t c = false ->
    wordStart t = false ->
    spaceSkipsWords t = true ->
    Transition e c timeStamp t Recovered
      (commit t (wordSkipSteps timeStamp (drop (cursor t) (codePoints t))))
| T_match :
    c <> 0x0008%Z ->
    codePoints t !! cursor t = Some e ->
    matches e c t = true ->
    Transition e c timeStamp t (if _typo t then Recovered else Succeeded)
      (commit t [mkStep c timeStamp (_typo t)])
| T_recovered (off : nat) :
    codePoints t !! cursor t = Some e ->
    reachesMismatch e c t = true ->
    forgiveErrors t = true ->
    off <= 1 ->
    recoverable off (mistyped t c timeStamp) = true ->
    (off = 0 -> recoverable 1 (mistyped t c timeStamp) = false) ->
    Transition e c timeStamp t Recovered
      (commit (mistyped t c timeStamp)
         (recoveredSteps off (mistyped t c timeStamp)))
| T_failed :
    codePoints t !! cursor t = Some e ->
    reachesMismatch e c t = true ->
    (forgiveErrors t = true ->
     recoverable 1 (mistyped t c timeStamp) = false /\
     recoverable 0 (mistyped t c timeStamp) = false) ->
    Transition e c timeStamp t Failed (mistyped t c timeStamp).

(** The call [step(cp, _)] on [t] reaches "Handle incorrect input". *)
Definition mismatchAt {U : Unicode} (t : TextInput) (cp : Z) : Prop :=
  exists e, codePoints t !! cursor t = Some e /\
            reachesMismatch e (normalizeWhitespace cp) t = true.

(** The machines that a program can hold: built by the constructor, then
    driven by [reset()] and by calls of [step] that return. *)
Inductive reachable {U : Unicode} : TextInput -> Prop :=
| reach_new (cps : list Z) (soe fe ssw : bool) :
    reachable (new cps soe fe ssw)
| reach_reset (t : TextInput) :
    reachable t -> reachable (reset t)
| reach_step (t t' : TextInput) (cp timeStamp : Z) (fb : Feedback) :
    reachable t -> step cp timeStamp t = Ok (fb, t') -> reachable t'.

(** The invariant of the reachable machines: the cursor is inside the text
    or at its end, the garbage buffer is within its capacity, a buffered
    keystroke means that the typo flag is set, and with [forgiveErrors] no
    recovery is pending on the buffer. *)
Definition stable (t : TextInput) : Prop :=
  length (_steps t) <= length (codePoints t) /\
  length (_garbage t) <= garbageBufferLength /\
  (_garbage t <> [] -> _typo t = true) /\
  (forgiveErrors t = true ->
   recoverable 1 t = false /\ recoverable 0 t = false).

(** The machine without the listener's log: what [step], [getSteps] and
    [getChars] can observe. *)
Definition forget (t : TextInput) : TextInput := set_heard [] t.

(** The outcome of a call without the state: a feedback value or an error. *)
Definition outcome (r : Result (Feedback * TextInput)) : Result Feedback :=
  match r with
  | Ok (fb, _) => Ok fb
  | Thrown => Thrown
  | Stuck => Stuck
  end.

(** A Unicode code point. *)
Definition isCodePoint (c : Z) : Prop := (0 <= c <= 0x10FFFF)%Z.

(** An attribute that fits the eight bits [toChar] keeps of it. *)
Definition isAttr (a : Z) : Prop := (0 <= a < 256)%Z.

Definition attrsInRange {A : Attrs} : Prop :=
  isAttr attrNormal /\ isAttr attrHit /\ isAttr attrMiss /\
  isAttr attrGarbage /\ isAttr attrCursor.

(** The attribute byte as [<< 24] leaves it in a 32-bit integer: read as a
    signed number. *)
Definition signedByte (a : Z) : Z := (if a <? 128 then a else a - 256)%Z.

(** The cache holds what [toChar] has put there for code points and
    attributes in range: every entry sits under its own key. *)
Definition cacheOk (cache : gmap Z Char) : Prop :=
  forall k ch, cache !! k = Some ch ->
    isCodePoint (char_codePoint ch) /\ isAttr (char_attrs ch) /\
    k = charKey (char_codePoint ch) (char_attrs ch).

(** The target and the buffered keystrokes are code points. *)
Definition drawable (t : TextInput) : Prop :=
  Forall isCodePoint (codePoints t) /\
  Forall (fun g => isCodePoint (codePoint g)) (_garbage t).

(** The characters drawn for position [i] of the target, where the target
    has the code point [c]: before the cursor the character as a miss if its
    step was a typo and as a hit otherwise; at the cursor the buffered
    keystrokes as garbage, unless [stopOnError], then the character as the
    cursor; after the cursor the character as normal. *)
Definition charsAt {A : Attrs} (t : TextInput) (i : nat) (c : Z) : list Char :=
  match Nat.compare i (cursor t) with
  | Lt =>
      match _steps t !! i with
      | Some step => [mkChar c (if typo step then attrMiss else attrHit)]
      | None => []
      end
  | Eq =>
      (if stopOnError t then []
       else map (fun g => mkChar (codePoint g) attrGarbage) (_garbage t))
      ++ [mkChar c attrCursor]
  | Gt => [mkChar c attrNormal]
  end.

Definition charsOf {A : Attrs} (t : TextInput) : list Char :=
  concat (imap (charsAt t) (codePoints t)).

(** The number of steps with the code point [c], and of those that are
    typos. *)
Definition hitsOf (c : Z) (steps : list Step) : Z :=
  Z.of_nat (length (filter (fun s => codePoint s = c) steps)).

Definition missesOf (c : Z) (steps : list Step) : Z :=
  Z.of_nat (length (filter (fun s => codePoint s = c /\ typo s = true) steps)).

(** The latencies measured for the code point [c]: one for every step with
    that code point that is not a typo and has a predecessor, from the time
    stamp [last] of the predecessor (the session start for the first step,
    when it is given). *)
Fixpoint latencies (c : Z) (last : option Z) (steps : list Step) : list Z :=
  match steps with
  | [] => []
  | s :: steps' =>
      (if bool_decide (codePoint s = c) && negb (typo s) then
         match last with
         | Some t0 => [(timeStamp s - t0)%Z]
         | None => []
         end
       else [])
      ++ latencies c (Some (timeStamp s)) steps'
  end.

Definition sumZ (l : list Z) : Z := foldr Z.add 0%Z l.

(** The mean latency in the words of the specification: the mean, rounded,
    of the latencies measured for [c]; [None] when there is none. *)
Definition meanLatency_spec (c : Z) (startedAt : option Z) (steps : list Step)
  : option Z :=
  match latencies c startedAt steps with
  | [] => None
  | ls => Some (mathRoundDiv (sumZ ls) (Z.of_nat (length ls)))
  end.

(** What the loop of [Histogram.from] adds to the tally [o] of the code
    point [c]. *)
Definition tallyAdd (o : option Tally) (c : Z) (last : option Z)
    (steps : list Step) : option Tally :=
  if decide (hitsOf c steps = 0%Z) then o
  else
    let t := default (mkTally 0 0 0) o in
    Some (mkTally (tally_hitCount t + hitsOf c steps)
            (tally_missCount t + missesOf c steps)
            (tally_timeToType t + sumZ (latencies c last steps))).

(** [[codePoint, tally] => sample] of [Histogram.from]. *)
Definition toSample (entry : Z * Tally) : Sample :=
  mkSample (fst entry) (tally_hitCount (snd entry)) (tally_missCount (snd entry))
    (mathRoundDiv (tally_timeToType (snd entry)) (tally_hitCount (snd entry))).

(** The committed step [s] stands for the target character [e]: it carries
    that character, or the typed character that [e] normalizes to. *)
Definition standsFor {U : Unicode} (e : Z) (s : Step) : Prop :=
  codePoint s = e \/ normalize e = codePoint s.

(** The committed history follows the target, position by position. *)
Definition follows {U : Unicode} (t : TextInput) : Prop :=
  Forall2 standsFor (take (length (_steps t)) (codePoints t)) (_steps t).

(** The keystrokes [inputs] type the characters [target] correctly, one
    keystroke per character: no backspace, the normalized input is what the
    character normalizes to, and a space is typed only for a whitespace
    character and not as the very first keystroke ([first]). *)
Fixpoint correctFrom {U : Unicode} (first : bool) (target : list Z)
    (inputs : list (Z * Z)) : Prop :=
  match target, inputs with
  | [], [] => True
  | e :: target', input :: inputs' =>
      let c := normalizeWhitespace (fst input) in
      normalize e = c /\ c <> 0x0008%Z /\
      (c = 0x0020%Z -> isWhitespace e = true /\ first = false) /\
      correctFrom false target' inputs'
  | _, _ => False
  end.

(** The step that a correct keystroke commits. *)
Definition typed {U : Unicode} (input : Z * Z) : Step :=
  mkStep (normalizeWhitespace (fst input)) (snd input) false.

(** The time stamps never go back: each step is not earlier than the one
    before it ([last], the session start for the first step, when given). *)
Fixpoint nondecreasing (last : option Z) (steps : list Step) : Prop :=
  match steps with
  | [] => True
  | s :: steps' =>
      match last with
      | Some t0 => (t0 <= timeStamp s)%Z
      | None => True
      end /\ nondecreasing (Some (timeStamp s)) steps'
  end.

(** The calls of a run. *)
Definition callsOf {T : StorageTypes} {W X} (env : Env W) (m : Async X) (w : W)
  : list Event :=
  snd (exec env m w).

(** A call on the local database; a call on the remote object [remote]. *)
Definition onLocal {T : StorageTypes} (ev : Event) : bool :=
  match ev with
  | Asked LocalLoad _ | Told (LocalAppend _) _ | Told LocalClear _ => true
  | _ => false
  end.

Definition sameRemote (a b : Remote) : bool :=
  match a, b with
  | ResultSyncNamedUser, ResultSyncNamedUser => true
  | ResultSyncPublicUser x, ResultSyncPublicUser y => bool_decide (x = y)
  | _, _ => false
  end.

Definition onRemote {T : StorageTypes} (remote : Remote) (ev : Event) : bool :=
  match ev with
  | Asked (RemoteReceive r _) _ | Told (RemoteSend r _ _) _
  | Told (RemoteClear r) _ => sameRemote remote r
  | _ => false
  end.

(** Types for the examples: results and listeners are numbers, listener 0
    is the default one, and the environment throws numbers. *)
Definition exampleStorageTypes : StorageTypes := {|
  TypingResult := Z;
  ProgressListener := nat;
  noProgress := 0;
  Foreign := nat;
|}.

(** An environment for the examples: a local database and one remote store
    in memory; while [offline], every call on the remote store is rejected
    with the value 503. *)
Record Memory : Type := mkMemory {
  localResults : list Z;
  remoteResults : list Z;
  offline : bool;
}.

Definition memoryEnv : Env (T := exampleStorageTypes) Memory := {|
  answer := fun (q : Query (T := exampleStorageTypes)) (w : Memory) =>
    match q
    return (Exn (T := exampleStorageTypes) + list Z) * Memory
    with
    | LocalLoad => (inr (localResults w), w)
    | RemoteReceive _ _ =>
        if offline w then (inl (Raised (T := exampleStorageTypes) 503), w)
        else (inr (remoteResults w), w)
    end;
  perform := fun (c : Command (T := exampleStorageTypes)) (w : Memory) =>
    match c
    return (Exn (T := exampleStorageTypes) + unit) * Memory
    with
    | LocalAppend results =>
        (inr tt, mkMemory (localResults w ++ results) (remoteResults w) (offline w))
    | LocalClear => (inr tt, mkMemory [] (remoteResults w) (offline w))
    | RemoteSend _ results _ =>
        if offline w then (inl (Raised (T := exampleStorageTypes) 503), w)
        else (inr tt, mkMemory (localResults w) (remoteResults w ++ results) (offline w))
    | RemoteClear _ =>
        if offline w then (inl (Raised (T := exampleStorageTypes) 503), w)
        else (inr tt, mkMemory (localResults w) [] (offline w))
    end;
|}.

(** More examples.  [ex_ab_strict]: a machine for "ab" that stops on
    errors and forgives none, after a mistyped "x"; [ex_abcd_done]: the
    machine for "abcd" after the recovery of "xbcd"; [ex_samples]: two
    samples, not in the order of their code points; [ex_memory]: a local
    database with two results, an empty remote store, online;
    [ex_memory_calls]: the calls of [load] for a named user on it. *)
Definition ex_ab_strict : TextInput :=
  snd (run (U := asciiUnicode) (new [97; 98]%Z true false false) [(120, 1)]%Z).

Definition ex_abcd_done : TextInput :=
  snd (run (U := asciiUnicode) (new [97; 98; 99; 100]%Z false true false)
         [(120, 1); (98, 2); (99, 3); (100, 4)]%Z).

Definition ex_samples : list Sample :=
  [mkSample 98 1 0 5; mkSample 97 2 1 3].

Definition ex_memory : Memory := mkMemory [1; 2]%Z [] false.

Section StorageExamples.
#[local] Existing Instance exampleStorageTypes.

Definition ex_memory_calls : list Event :=
  [Asked (RemoteReceive ResultSyncNamedUser 0) (inr []);
   Asked LocalLoad (inr [1; 2]%Z);
   Told (RemoteSend ResultSyncNamedUser [1; 2]%Z 0) (inr tt);
   Told LocalClear (inr tt)].

End StorageExamples.

(** [ex_abcd_x] and [ex_ab_x]: machines for "abcd" (forgiving errors) and
    for "ab" (not forgiving) after a mistyped "x"; [ex_a_b]: a machine for
    "a b" after "a" and the space were typed. *)
Definition ex_abcd_x : TextInput :=
  snd (run (U := asciiUnicode) (new [97; 98; 99; 100]%Z false true false)
         [(120, 1)]%Z).

Definition ex_ab_x : TextInput :=
  snd (run (U := asciiUnicode) ex_ab [(120, 1)]%Z).

Definition ex_a_b : TextInput :=
  snd (run (U := asciiUnicode) (new [97; 32; 98]%Z false false true)
         [(97, 1); (32, 2)]%Z).

(** * Properties *)

(** ** The key of the character cache *)

Lemma toInt32_small (z : Z) :
  (- 2 ^ 31 <= z < 2 ^ 31)%Z -> toInt32 z = z.
Proof.
  unfold toInt32. change (2 ^ 31)%Z with 2147483648%Z.
  change (2 ^ 32)%Z with 4294967296%Z. intros Hz.
  rewrite Z.mod_small by lia. lia.
Qed.

Lemma land_low_bits (z : Z) (n : Z) :
  (0 <= n)%Z -> (0 <= z < 2 ^ n)%Z -> Z.land z (Z.ones n) = z.
Proof.
  intros Hn Hz. rewrite Z.land_ones by assumption. apply Z.mod_small. exact Hz.
Qed.

Lemma toInt32_shifted (a : Z) :
  isAttr a -> toInt32 (Z.shiftl a 24) = (signedByte a * 2 ^ 24)%Z.
Proof.
  unfold isAttr, signedByte, toInt32. intros Ha.
  rewrite Z.shiftl_mul_pow2 by lia.
  change (2 ^ 24)%Z with 16777216%Z. change (2 ^ 31)%Z with 2147483648%Z.
  change (2 ^ 32)%Z with 4294967296%Z.
  destruct (Z.ltb_spec a 128).
  - rewrite Z.mod_small by lia. lia.
  - replace (a * 16777216 + 2147483648)%Z
      with ((a * 16777216 - 2147483648) + 1 * 4294967296)%Z by lia.
    rewrite Z_mod_plus_full. rewrite Z.mod_small by lia. lia.
Qed.

Lemma lor_disjoint (c b : Z) :
  (0 <= c < 2 ^ 24)%Z -> Z.lor c (b * 2 ^ 24) = (c + b * 2 ^ 24)%Z.
Proof.
  intros Hc.
  assert (Hland : Z.land c (b * 2 ^ 24) = 0%Z).
  { apply Z.bits_inj'. intros n Hn. rewrite Z.land_spec, Z.bits_0.
    destruct (Z.ltb_spec n 24).
    - rewrite Z.mul_pow2_bits_low by lia. apply andb_false_r.
    - rewrite (Z.bits_above_log2 c n); [reflexivity|lia|].
      destruct (Z.eq_dec c 0%Z) as [->|Hne]; [simpl; lia|].
      apply Z.lt_le_trans with 24%Z; [|lia].
      apply Z.log2_lt_pow2; lia. }
  rewrite <- Z.lxor_lor by exact Hland.
  symmetry. apply Z.add_nocarry_lxor. exact Hland.
Qed.

Lemma charKey_eq (c a : Z) :
  isCodePoint c -> isAttr a -> charKey c a = (c + signedByte a * 2 ^ 24)%Z.
Proof.
  unfold isCodePoint. intros Hc Ha. pose proof Ha as Ha'. unfold isAttr in Ha'.
  unfold charKey.
  rewrite (toInt32_small c) by lia.
  rewrite (toInt32_small a) by lia.
  change 16777215%Z with (Z.ones 24). change 255%Z with (Z.ones 8).
  rewrite (land_low_bits c 24) by lia.
  rewrite (land_low_bits a 8) by lia.
  rewrite (toInt32_small c) by lia.
  rewrite (toInt32_small a) by lia.
  rewrite toInt32_shifted by exact Ha.
  assert (Hs : (-128 <= signedByte a < 128)%Z).
  { unfold signedByte. destruct (Z.ltb_spec a 128); lia. }
  rewrite lor_disjoint by lia.
  apply toInt32_small. lia.
Qed.

Lemma charKey_inj (c1 a1 c2 a2 : Z) :
  isCodePoint c1 -> isAttr a1 -> isCodePoint c2 -> isAttr a2 ->
  charKey c1 a1 = charKey c2 a2 -> c1 = c2 /\ a1 = a2.
Proof.
  intros Hc1 Ha1 Hc2 Ha2. rewrite !charKey_eq by assumption.
  unfold isCodePoint, isAttr, signedByte in *.
  change (2 ^ 24)%Z with 16777216%Z.
  destruct (Z.ltb_spec a1 128), (Z.ltb_spec a2 128); lia.
Qed.

(** ** Running the monad *)

Lemma index_Some {St A} (a : list A) (i : nat) (x : A) (s : St) :
  a !! i = Some x -> index a i s = Ok (x, s).
Proof. intros E. unfold index. rewrite E. reflexivity. Qed.

Lemma index_None {St A} (a : list A) (i : nat) (s : St) :
  a !! i = None -> index a i s = Stuck.
Proof. intros E. unfold index. rewrite E. reflexivity. Qed.

Section MonadLaws.
Context {St : Type}.

Lemma bind_bind {A B C} (m : M St A) (f : A -> M St B) (k : B -> M St C) (s : St) :
  bind (bind m f) k s = bind m (fun a => bind (f a) k) s.
Proof. unfold bind. destruct (m s) as [[a s']| |]; reflexivity. Qed.

Lemma bind_ret {A B} (a : A) (k : A -> M St B) (s : St) :
  bind (ret a) k s = k a s.
Proof. reflexivity. Qed.

Lemma bind_get {B} (k : St -> M St B) (s : St) : bind get k s = k s s.
Proof. reflexivity. Qed.

Lemma bind_modify {B} (f : St -> St) (k : unit -> M St B) (s : St) :
  bind (modify f) k s = k tt (f s).
Proof. reflexivity. Qed.

Lemma bind_throw {A B} (k : A -> M St B) (s : St) : bind throw k s = Thrown.
Proof. reflexivity. Qed.

Lemma bind_stuck {A B} (k : A -> M St B) (s : St) : bind stuck k s = Stuck.
Proof. reflexivity. Qed.

Lemma bind_if {A B} (b : bool) (m1 m2 : M St A) (k : A -> M St B) (s : St) :
  bind (if b then m1 else m2) k s = if b then bind m1 k s else bind m2 k s.
Proof. destruct b; reflexivity. Qed.

Lemma bind_index_Some {A B} (a : list A) (i : nat) (x : A) (k : A -> M St B) (s : St) :
  a !! i = Some x -> bind (index a i) k s = k x s.
Proof. intros E. unfold bind. rewrite (index_Some _ _ _ _ E). reflexivity. Qed.

Lemma bind_index_None {A B} (a : list A) (i : nat) (k : A -> M St B) (s : St) :
  a !! i = None -> bind (index a i) k s = Stuck.
Proof. intros E. unfold bind. rewrite (index_None _ _ _ E). reflexivity. Qed.

Lemma bind_Ok {A B} (m : M St A) (k : A -> M St B) (s s' : St) (a : A) :
  m s = Ok (a, s') -> bind m k s = k a s'.
Proof. intros E. unfold bind. rewrite E. reflexivity. Qed.

Lemma ret_eq {A} (a : A) (s : St) : ret a s = Ok (a, s).
Proof. reflexivity. Qed.

End MonadLaws.

Lemma bind_addStep {B} (st : Step) (k : unit -> M TextInput B) (t : TextInput) :
  bind (addStep st) k t
  = k tt (set_heard (heard t ++ [st]) (set_steps (_steps t ++ [st]) t)).
Proof. reflexivity. Qed.

Lemma addStep_eq (st : Step) (t : TextInput) :
  addStep st t
  = Ok (tt, set_heard (heard t ++ [st]) (set_steps (_steps t ++ [st]) t)).
Proof. reflexivity. Qed.

(** One step of symbolic execution. *)
Ltac mstep :=
  first
    [ rewrite bind_bind
    | rewrite bind_get
    | rewrite bind_ret
    | rewrite bind_modify
    | rewrite bind_addStep
    | rewrite bind_throw
    | rewrite bind_stuck
    | rewrite ret_eq ];
  cbv beta.

Ltac msteps := repeat mstep.

(** Reading the fields of an explicit record. *)
Ltac fields :=
  cbn [codePoints stopOnError forgiveErrors spaceSkipsWords _steps _garbage
       _typo heard set_steps set_garbage set_typo set_heard] in *.

Lemma deliver_nil (t : TextInput) : deliver t [] = t.
Proof.
  destruct t. unfold deliver, set_heard, set_steps. simpl.
  rewrite !app_nil_r. reflexivity.
Qed.

Lemma deliver_fields (t : TextInput) (new : list Step) :
  codePoints (deliver t new) = codePoints t /\
  stopOnError (deliver t new) = stopOnError t /\
  forgiveErrors (deliver t new) = forgiveErrors t /\
  spaceSkipsWords (deliver t new) = spaceSkipsWords t /\
  _steps (deliver t new) = _steps t ++ new /\
  _garbage (deliver t new) = _garbage t /\
  _typo (deliver t new) = _typo t /\
  heard (deliver t new) = heard t ++ new.
Proof. repeat split. Qed.

Lemma deliver_codePoints (t : TextInput) (new : list Step) :
  codePoints (deliver t new) = codePoints t.
Proof. reflexivity. Qed.

Lemma deliver_steps (t : TextInput) (new : list Step) :
  _steps (deliver t new) = _steps t ++ new.
Proof. reflexivity. Qed.

Lemma deliver_garbage (t : TextInput) (new : list Step) :
  _garbage (deliver t new) = _garbage t.
Proof. reflexivity. Qed.

Lemma deliver_deliver (t : TextInput) (a b : list Step) :
  deliver (deliver t a) b = deliver t (a ++ b).
Proof.
  destruct t. unfold deliver, set_heard, set_steps. simpl.
  rewrite !app_assoc. reflexivity.
Qed.

(** The loop that commits the buffered keystrokes [i .. i + k - 1]. *)
Lemma forEach_garbage (k : nat) : forall (i : nat) (t : TextInput),
  i + k <= length (_garbage t) ->
  forEach (seq i k) (fun i =>
    let* t := get in
    let* g := index (_garbage t) i in
    addStep (mkStep (codePoint g) (timeStamp g) false)) t
  = Ok (tt, deliver t (map asHit (take k (drop i (_garbage t))))).
Proof.
  induction k as [|k IH]; intros i t Hlen.
  - simpl. rewrite deliver_nil. reflexivity.
  - destruct (lookup_lt_is_Some_2 (_garbage t) i) as [g Hg]; [lia|].
    rewrite (drop_S _ _ _ Hg). simpl seq. simpl forEach.
    msteps. rewrite (bind_index_Some _ _ _ _ _ Hg). msteps.
    rewrite IH by (simpl; lia).
    destruct t; unfold deliver, set_heard, set_steps; simpl.
    rewrite <- !app_assoc. reflexivity.
Qed.

(** ** The histogram *)

Lemma foldl_insert_other (l : list Sample) : forall (m : gmap Z Sample) (c : Z),
  c ∉ sample_codePoint <$> l ->
  foldl (fun m sample => <[sample_codePoint sample := sample]> m) m l !! c
  = m !! c.
Proof.
  induction l as [|x l IH]; intros m c Hc; [reflexivity|].
  cbn [foldl]. rewrite fmap_cons in Hc. apply not_elem_of_cons in Hc as [Hne Hc].
  rewrite IH by exact Hc. apply lookup_insert_ne. congruence.
Qed.

Lemma foldl_insert_elem (l : list Sample) : forall (m : gmap Z Sample) (s : Sample),
  NoDup (sample_codePoint <$> l) -> s ∈ l ->
  foldl (fun m sample => <[sample_codePoint sample := sample]> m) m l
    !! sample_codePoint s = Some s.
Proof.
  induction l as [|x l IH]; intros m s Hnd Hs; [inversion Hs|].
  rewrite fmap_cons in Hnd. apply NoDup_cons in Hnd as [Hx Hnd].
  cbn [foldl]. apply elem_of_cons in Hs as [->|Hs].
  - rewrite foldl_insert_other by exact Hx. apply lookup_insert_eq.
  - apply IH; assumption.
Qed.

Lemma insertSample_Permutation (a : Sample) (l : list Sample) :
  insertSample a l ≡ₚ a :: l.
Proof.
  induction l as [|b l IH]; [reflexivity|]. cbn [insertSample].
  destruct (decide (byCodePoint a b)); [reflexivity|].
  rewrite IH. apply Permutation_swap.
Qed.

Lemma sortSamples_Permutation (l : list Sample) : sortSamples l ≡ₚ l.
Proof.
  induction l as [|a l IH]; [reflexivity|]. cbn [sortSamples foldr].
  fold (sortSamples l). rewrite insertSample_Permutation, IH. reflexivity.
Qed.

(** Lookup in a histogram built from samples with distinct code points. *)
Lemma Histogram_new_lookup (l : list Sample) (c : Z) :
  NoDup (sample_codePoint <$> l) ->
  (forall s, s ∈ l -> sample_codePoint s = c ->
     Histogram_get (Histogram_new l) c = Some s) /\
  (c ∉ sample_codePoint <$> l -> Histogram_get (Histogram_new l) c = None).
Proof.
  intros Hnd. unfold Histogram_get, Histogram_new. cbn [_data].
  pose proof (sortSamples_Permutation l) as Hp.
  split.
  - intros s Hs <-. apply foldl_insert_elem.
    + rewrite Hp. exact Hnd.
    + rewrite Hp. exact Hs.
  - intros Hc. rewrite foldl_insert_other; [apply lookup_empty|].
    rewrite Hp. exact Hc.
Qed.

Lemma hitsOf_cons (c : Z) (s : Step) (steps : list Step) :
  hitsOf c (s :: steps)
  = ((if bool_decide (codePoint s = c) then 1 else 0) + hitsOf c steps)%Z.
Proof.
  unfold hitsOf. rewrite filter_cons.
  destruct (decide (codePoint s = c)) as [E|E].
  - rewrite bool_decide_eq_true_2 by exact E. cbn [length]. lia.
  - rewrite bool_decide_eq_false_2 by exact E. lia.
Qed.

Lemma missesOf_cons (c : Z) (s : Step) (steps : list Step) :
  missesOf c (s :: steps)
  = ((if bool_decide (codePoint s = c) && typo s then 1 else 0)
     + missesOf c steps)%Z.
Proof.
  unfold missesOf. rewrite filter_cons.
  destruct (decide (codePoint s = c /\ typo s = true)) as [[E1 E2]|E].
  - rewrite bool_decide_eq_true_2 by exact E1. rewrite E2. cbn [length andb]. lia.
  - destruct (decide (codePoint s = c)) as [E1|E1].
    + rewrite bool_decide_eq_true_2 by exact E1.
      destruct (typo s); [exfalso; apply E; split; [exact E1|reflexivity]|].
      cbn [andb]. lia.
    + rewrite bool_decide_eq_false_2 by exact E1. cbn [andb]. lia.
Qed.

Lemma hitsOf_nonneg (c : Z) (steps : list Step) : (0 <= hitsOf c steps)%Z.
Proof. unfold hitsOf. lia. Qed.

Lemma sumZ_app (a b : list Z) : sumZ (a ++ b) = (sumZ a + sumZ b)%Z.
Proof.
  unfold sumZ. induction a as [|x a IH]; cbn [foldr app]; [reflexivity|].
  rewrite IH. lia.
Qed.

Lemma hitsOf_zero (c : Z) (steps : list Step) :
  hitsOf c steps = 0%Z ->
  missesOf c steps = 0%Z /\ forall last, latencies c last steps = [].
Proof.
  induction steps as [|s steps IH]; [intros _; split; reflexivity|].
  rewrite hitsOf_cons, missesOf_cons. pose proof (hitsOf_nonneg c steps) as Hnn.
  destruct (bool_decide (codePoint s = c)) eqn:E; [lia|].
  intros Hz. destruct (IH ltac:(lia)) as [Hm Hl].
  cbn [andb latencies]. rewrite E. cbn [andb app].
  split; [lia|]. intros last. apply Hl.
Qed.

(** The loop of [Histogram.from], code point by code point. *)
Lemma from_body_lookup (steps : list Step) :
  forall (m : gmap Z Tally) (last : option Step) (c : Z),
    fst (foldl from_body (m, last) steps) !! c
    = tallyAdd (m !! c) c (timeStamp <$> last) steps.
Proof.
  induction steps as [|s steps IH]; intros m last c.
  - cbn [foldl fst]. unfold tallyAdd. rewrite decide_True by reflexivity.
    reflexivity.
  - cbn [foldl]. unfold from_body at 2. rewrite IH. cbn [fmap option_fmap option_map].
    unfold tallyAdd. rewrite hitsOf_cons, missesOf_cons. cbn [latencies].
    rewrite sumZ_app.
    pose proof (hitsOf_nonneg c steps) as Hnn.
    destruct (decide (codePoint s = c)) as [E|E].
    + rewrite bool_decide_eq_true_2 by exact E. subst c.
      rewrite lookup_insert_eq. cbn [andb]. cbv iota.
      destruct (decide (1 + hitsOf (codePoint s) steps = 0)%Z) as [?|_]; [lia|].
      change (match m !! codePoint s with
              | Some sample => sample
              | None => mkTally 0 0 0
              end) with (default (mkTally 0 0 0) (m !! codePoint s)).
      set (t0 := default (mkTally 0 0 0) (m !! codePoint s)).
      destruct (decide (hitsOf (codePoint s) steps = 0%Z)) as [Ez|Ez].
      * destruct (hitsOf_zero _ _ Ez) as [Hm Hl]. rewrite Ez, Hm, Hl.
        destruct (typo s);
          cbn [negb tally_hitCount tally_missCount tally_timeToType];
          destruct last as [l|];
          cbn [fmap option_fmap option_map sumZ foldr
               tally_hitCount tally_missCount tally_timeToType];
          f_equal; f_equal; lia.
      * cbn [default]. cbv [id].
        destruct (typo s);
          cbn [negb tally_hitCount tally_missCount tally_timeToType];
          destruct last as [l|];
          cbn [fmap option_fmap option_map sumZ foldr
               tally_hitCount tally_missCount tally_timeToType];
          f_equal; f_equal; lia.
    + rewrite bool_decide_eq_false_2 by exact E.
      rewrite lookup_insert_ne by exact E. cbn [andb sumZ foldr]. cbv iota.
      rewrite !Z.add_0_l. reflexivity.
Qed.

Lemma Histogram_from_lookup (samples : gmap Z Tally) (c : Z) :
  Histogram_get
    (Histogram_new
       ((fun '(codePoint, tally) =>
           mkSample codePoint (tally_hitCount tally) (tally_missCount tally)
             (mathRoundDiv (tally_timeToType tally) (tally_hitCount tally)))
        <$> map_to_list samples)) c
  = (fun tally => toSample (c, tally)) <$> samples !! c.
Proof.
  set (f := fun '(codePoint, tally) =>
              mkSample codePoint (tally_hitCount tally) (tally_missCount tally)
                (mathRoundDiv (tally_timeToType tally) (tally_hitCount tally))).
  assert (Hkeys : sample_codePoint <$> (f <$> map_to_list samples)
                  = (map_to_list samples).*1).
  { rewrite <- list_fmap_compose. apply list_fmap_ext.
    intros i [k v] _. reflexivity. }
  assert (Hnd : NoDup (sample_codePoint <$> (f <$> map_to_list samples))).
  { rewrite Hkeys. apply NoDup_fst_map_to_list. }
  destruct (Histogram_new_lookup _ c Hnd) as [Hin Hout].
  destruct (samples !! c) as [tally|] eqn:Ec; cbn [fmap option_fmap option_map].
  - apply (Hin (f (c, tally))); [|reflexivity].
    apply list_elem_of_fmap_2. apply elem_of_map_to_list. exact Ec.
  - apply Hout. rewrite Hkeys. intros Hc.
    apply list_elem_of_fmap in Hc as ([k v] & -> & Hkv).
    apply elem_of_map_to_list in Hkv. cbn in Ec. congruence.
Qed.

(** C4 (amended) -- Histogram aggregation.  For every step sequence and every
    code point [c], [Histogram.from] has no sample for [c] when no step has
    that code point; otherwise its sample has [hitCount] the number of steps
    with code point [c], [missCount] the number of those that are typos, and
    [timeToType] the sum of the latencies of the steps with code point [c]
    that are not typos, each measured from the time stamp of the step before
    it (from [startedAt] for the first step; none when the first step has
    neither), divided by [hitCount] -- the number of all steps with code
    point [c], typos included -- and rounded. *)
Theorem histogram_aggregation (steps : list Step) (startedAt : option Z) (c : Z) :
  Histogram_get (Histogram_from steps startedAt) c
  = if decide (hitsOf c steps = 0%Z) then None
    else Some (mkSample c (hitsOf c steps) (missesOf c steps)
                 (mathRoundDiv (sumZ (latencies c startedAt steps))
                    (hitsOf c steps))).
Proof.
  unfold Histogram_from. cbv zeta. rewrite Histogram_from_lookup.
  rewrite from_body_lookup. rewrite lookup_empty.
  assert (Hlast : timeStamp <$>
            match startedAt with
            | Some startedAt0 => Some (mkStep 0 startedAt0 false)
            | None => None
            end = startedAt) by (destruct startedAt; reflexivity).
  rewrite Hlast. unfold tallyAdd.
  destruct (decide (hitsOf c steps = 0%Z)); [reflexivity|].
  cbn [fmap option_fmap option_map default]. unfold toSample.
  cbn [fst snd tally_hitCount tally_missCount tally_timeToType].
  rewrite !Z.add_0_l. reflexivity.
Qed.

(** ** Rendering *)

Lemma toChar_ok (c a : Z) (w : World) :
  cacheOk (charCache w) -> isCodePoint c -> isAttr a ->
  exists w',
    toChar c a w = Ok (mkChar c a, w') /\
    this w' = this w /\ cacheOk (charCache w').
Proof.
  intros Hok Hc Ha. unfold toChar. cbv zeta. msteps.
  destruct (charCache w !! charKey c a) as [ch|] eqn:Ek.
  - exists w. msteps. split; [|split; [reflexivity|exact Hok]].
    destruct (Hok _ _ Ek) as (Hc' & Ha' & Hk).
    destruct (charKey_inj _ _ _ _ Hc Ha Hc' Ha' Hk) as [E1 E2].
    destruct ch as [c' a']. cbn in E1, E2. subst. reflexivity.
  - eexists. msteps. split; [reflexivity|]. split; [reflexivity|].
    cbn [charCache set_charCache]. intros k ch Hk.
    destruct (decide (charKey c a = k)) as [<-|Hne].
    + rewrite lookup_insert_eq in Hk. injection Hk as <-.
      cbn [char_codePoint char_attrs].
      split; [exact Hc|split; [exact Ha|reflexivity]].
    + rewrite lookup_insert_ne in Hk by exact Hne. exact (Hok _ _ Hk).
Qed.

Section Rendering.
Context {A : Attrs}.

(** The loop over the buffered keystrokes. *)
Lemma foldM_garbage (gs : list Step) : forall (chars : list Char) (w : World),
  cacheOk (charCache w) -> isAttr attrGarbage ->
  Forall (fun g => isCodePoint (codePoint g)) gs ->
  exists w',
    foldM (fun chars '(mkStep codePoint _ _) =>
        let* ch := toChar codePoint attrGarbage in
        ret (chars ++ [ch])) chars gs w
    = Ok (chars ++ map (fun g => mkChar (codePoint g) attrGarbage) gs, w') /\
    this w' = this w /\ cacheOk (charCache w').
Proof.
  induction gs as [|g gs IH]; intros chars w Hok Ha Hgs.
  - exists w. cbn [foldM map]. rewrite app_nil_r. split; [reflexivity|split; [reflexivity|exact Hok]].
  - apply Forall_cons in Hgs as [Hg Hgs].
    destruct (toChar_ok (codePoint g) attrGarbage w Hok Hg Ha)
      as (w1 & E1 & Ht1 & Hok1).
    destruct (IH (chars ++ [mkChar (codePoint g) attrGarbage]) w1 Hok1 Ha Hgs)
      as (w2 & E2 & Ht2 & Hok2).
    exists w2. cbn [foldM map]. destruct g as [cp ts ty]. cbn [codePoint] in *.
    msteps. rewrite (bind_Ok _ _ _ _ _ E1). msteps.
    rewrite E2, <- app_assoc. split; [reflexivity|]. split; [congruence|exact Hok2].
Qed.

(** One turn of the loop of [getChars]. *)
Lemma getChars_body (chars : list Char) (i : nat) (c : Z) (w : World) :
  cacheOk (charCache w) -> attrsInRange -> drawable (this w) ->
  codePoints (this w) !! i = Some c ->
  exists w',
    (let* w := get in
     let* codePoint := index (codePoints (this w)) i in
     if i <? length (_steps (this w)) then
       let* step := index (_steps (this w)) i in
       let* ch := toChar codePoint (if typo step then attrMiss else attrHit) in
       ret (chars ++ [ch])
     else if i =? length (_steps (this w)) then
       let* chars :=
         (if negb (stopOnError (this w)) then
            foldM (fun chars '(mkStep codePoint _ _) =>
                let* ch := toChar codePoint attrGarbage in
                ret (chars ++ [ch]))
              chars (_garbage (this w))
          else ret chars) in
       let* ch := toChar codePoint attrCursor in
       ret (chars ++ [ch])
     else
       let* ch := toChar codePoint attrNormal in
       ret (chars ++ [ch])) w
    = Ok (chars ++ charsAt (this w) i c, w') /\
    this w' = this w /\ cacheOk (charCache w').
Proof.
  intros Hok (HaN & HaH & HaM & HaG & HaC) [Hcps Hgs] Ec.
  assert (Hc : isCodePoint c).
  { exact (Forall_lookup_1 _ _ _ _ Hcps Ec). }
  msteps. rewrite (bind_index_Some _ _ _ _ _ Ec). msteps.
  unfold charsAt, cursor.
  destruct (Nat.ltb_spec i (length (_steps (this w)))) as [Hlt|Hge].
  - destruct (lookup_lt_is_Some_2 (_steps (this w)) i Hlt) as [st Est].
    rewrite (proj2 (Nat.compare_lt_iff _ _) Hlt), Est.
    rewrite (bind_index_Some _ _ _ _ _ Est). msteps.
    destruct (toChar_ok c (if typo st then attrMiss else attrHit) w Hok Hc)
      as (w1 & E1 & Ht1 & Hok1); [destruct (typo st); assumption|].
    exists w1. rewrite (bind_Ok _ _ _ _ _ E1). msteps. split; [reflexivity|split; assumption].
  - destruct (Nat.eqb_spec i (length (_steps (this w)))) as [Heq|Hne].
    + rewrite (proj2 (Nat.compare_eq_iff _ _) Heq). msteps.
      assert (Hg : exists w1,
        (if negb (stopOnError (this w)) then
           foldM (fun chars '(mkStep codePoint _ _) =>
               let* ch := toChar codePoint attrGarbage in
               ret (chars ++ [ch])) chars (_garbage (this w))
         else ret chars) w
        = Ok (chars ++ (if stopOnError (this w) then []
                        else map (fun g => mkChar (codePoint g) attrGarbage)
                               (_garbage (this w))), w1) /\
        this w1 = this w /\ cacheOk (charCache w1)).
      { destruct (stopOnError (this w)); cbn [negb].
        - exists w. rewrite app_nil_r. split; [reflexivity|split; [reflexivity|exact Hok]].
        - apply foldM_garbage; assumption. }
      destruct Hg as (w1 & E1 & Ht1 & Hok1).
      rewrite (bind_Ok _ _ _ _ _ E1). msteps.
      destruct (toChar_ok c attrCursor w1 Hok1 Hc HaC) as (w2 & E2 & Ht2 & Hok2).
      exists w2. rewrite (bind_Ok _ _ _ _ _ E2). msteps.
      rewrite <- app_assoc. split; [reflexivity|]. split; [congruence|exact Hok2].
    + rewrite (proj2 (Nat.compare_gt_iff _ _)) by lia.
      destruct (toChar_ok c attrNormal w Hok Hc HaN) as (w1 & E1 & Ht1 & Hok1).
      exists w1. rewrite (bind_Ok _ _ _ _ _ E1). msteps. split; [reflexivity|split; assumption].
Qed.

(** The loop of [getChars] over the positions [i], [i + 1], ... *)
Lemma foldM_positions
    (body : list Char -> nat -> M World (list Char)) (t : TextInput) :
  (forall chars i c w,
     cacheOk (charCache w) -> this w = t ->
     codePoints t !! i = Some c ->
     exists w',
       body chars i w = Ok (chars ++ charsAt t i c, w') /\
       this w' = t /\ cacheOk (charCache w')) ->
  forall (l : list Z) (i : nat) (chars : list Char) (w : World),
    cacheOk (charCache w) -> this w = t ->
    drop i (codePoints t) = l ->
    exists w',
      foldM body chars (seq i (length l)) w
      = Ok (chars ++ concat (imap (fun j => charsAt t (i + j)) l), w') /\
      this w' = t /\ cacheOk (charCache w').
Proof.
  intros Hbody. induction l as [|c l IH]; intros i chars w Hok Ht Hdrop.
  - exists w. cbn. rewrite app_nil_r. split; [reflexivity|split; assumption].
  - assert (Ec : codePoints t !! i = Some c).
    { rewrite <- (Nat.add_0_r i), <- lookup_drop, Hdrop. reflexivity. }
    assert (Hdrop' : drop (S i) (codePoints t) = l).
    { rewrite (drop_S _ _ _ Ec) in Hdrop. congruence. }
    destruct (Hbody chars i c w Hok Ht Ec) as (w1 & E1 & Ht1 & Hok1).
    destruct (IH (S i) (chars ++ charsAt t i c) w1 Hok1 Ht1 Hdrop')
      as (w2 & E2 & Ht2 & Hok2).
    exists w2. cbn [length seq foldM]. rewrite (bind_Ok _ _ _ _ _ E1), E2.
    split; [|split; assumption]. do 2 f_equal.
    rewrite imap_cons. cbn [concat]. rewrite Nat.add_0_r, <- app_assoc.
    do 3 f_equal. apply imap_ext. intros j x _. cbn. f_equal. lia.
Qed.

(** [getChars] draws [charsOf], keeps the machine and keeps the cache in
    order. *)
Lemma getChars_ok (w : World) :
  attrsInRange -> cacheOk (charCache w) -> drawable (this w) ->
  exists w',
    getChars w = Ok (charsOf (this w), w') /\
    this w' = this w /\ cacheOk (charCache w').
Proof.
  intros Ha Hok Hd. unfold getChars. msteps.
  destruct (foldM_positions
              (fun chars i =>
                 let* w := get in
                 let* codePoint := index (codePoints (this w)) i in
                 if i <? length (_steps (this w)) then
                   let* step := index (_steps (this w)) i in
                   let* ch := toChar codePoint
                                (if typo step then attrMiss else attrHit) in
                   ret (chars ++ [ch])
                 else if i =? length (_steps (this w)) then
                   let* chars :=
                     (if negb (stopOnError (this w)) then
                        foldM (fun chars '(mkStep codePoint _ _) =>
                            let* ch := toChar codePoint attrGarbage in
                            ret (chars ++ [ch]))
                          chars (_garbage (this w))
                      else ret chars) in
                   let* ch := toChar codePoint attrCursor in
                   ret (chars ++ [ch])
                 else
                   let* ch := toChar codePoint attrNormal in
                   ret (chars ++ [ch]))
              (this w)) with (l := codePoints (this w)) (i := 0) (chars := @nil Char) (w := w)
    as (w' & E & Ht & Hok').
  - intros chars i c w0 Hok0 Ht0 Ec. rewrite <- Ht0 in *.
    apply getChars_body; assumption.
  - exact Hok.
  - reflexivity.
  - reflexivity.
  - exists w'. split; [|split; [exact Ht|exact Hok']]. rewrite E. reflexivity.
Qed.

(** C8 -- Rendering projection.  On every machine whose target and buffered
    keystrokes are code points, with attribute constants that fit a byte and
    a character cache filled by [toChar], [getChars] returns the characters
    [charsOf]: position by position of the target, a position before the
    cursor as a miss if its step was a typo and as a hit otherwise; at the
    cursor, unless [stopOnError], one garbage character per buffered
    keystroke, then the expected character as the cursor; a position after
    the cursor as normal.  The machine is the same after the call, and a
    second call draws the same characters. *)
Theorem rendering_projection (w : World) :
  attrsInRange -> cacheOk (charCache w) -> drawable (this w) ->
  exists w' w'',
    getChars w = Ok (charsOf (this w), w') /\ this w' = this w /\
    getChars w' = Ok (charsOf (this w), w'') /\ this w'' = this w.
Proof.
  intros Ha Hok Hd.
  destruct (getChars_ok w Ha Hok Hd) as (w' & E & Ht & Hok').
  assert (Hd' : drawable (this w')) by (rewrite Ht; exact Hd).
  destruct (getChars_ok w' Ha Hok' Hd') as (w'' & E' & Ht' & _).
  exists w', w''. rewrite Ht in E', Ht'.
  split; [exact E|]. split; [exact Ht|]. split; [exact E'|exact Ht'].
Qed.

End Rendering.

(** ** The machine, method by method *)

Section MachineFacts.
Context {U : Unicode}.

Lemma recoverable_replaced (t : TextInput) :
  recoverable 1 t = true <-> replacedCond t.
Proof.
  unfold recoverable, replacedCond. rewrite !andb_true_iff, forallb_forall.
  rewrite !Nat.leb_le. simpl (3 + 1).
  split.
  - intros [[? ?] Hall]. repeat split; try lia.
    intros i Hi. specialize (Hall i). rewrite bool_decide_eq_true in Hall.
    apply Hall. apply in_seq. lia.
  - intros (? & ? & Hall). repeat split; try lia.
    intros i Hi. apply bool_decide_eq_true. apply Hall. apply in_seq in Hi. lia.
Qed.

Lemma bool_decide_Some_Z (x y : Z) :
  bool_decide (Some x = Some y) = (y =? x)%Z.
Proof.
  destruct (Z.eqb_spec y x) as [->|Hne].
  - apply bool_decide_eq_true. reflexivity.
  - apply bool_decide_eq_false. congruence.
Qed.

Lemma handleReplacedCharacter_eq (t : TextInput) :
  handleReplacedCharacter t
  = Ok (if recoverable 1 t then (true, commit t (recoveredSteps 1 t))
        else (false, t)).
Proof.
  destruct t as [cps soe fe ssw st g ty hd].
  unfold handleReplacedCharacter, recoverable, recoveredSteps, cursor,
    recoverBufferLength.
  msteps. simpl (3 + 1). fields.
  replace (length st + 3 + 1) with (length st + 4) by lia.
  destruct (Nat.ltb_spec (length g) 4) as [Hg|Hg].
  { destruct (Nat.leb_spec 4 (length g)); [lia|reflexivity]. }
  destruct (Nat.ltb_spec (length cps) (length st + 4)) as [Hc|Hc].
  { destruct (Nat.leb_spec (length st + 4) (length cps));
      [lia|]. rewrite andb_false_r. reflexivity. }
  destruct (Nat.leb_spec 4 (length g)); [|lia].
  destruct (Nat.leb_spec (length st + 4) (length cps)); [|lia].
  cbn [orb andb].
  destruct (lookup_lt_is_Some_2 cps (length st)) as [c Ec]; [lia|].
  destruct (lookup_lt_is_Some_2 cps (length st + 0 + 1)) as [c1 Ec1]; [lia|].
  destruct (lookup_lt_is_Some_2 cps (length st + 1 + 1)) as [c2 Ec2]; [lia|].
  destruct (lookup_lt_is_Some_2 cps (length st + 2 + 1)) as [c3 Ec3]; [lia|].
  destruct g as [|g0 [|g1 [|g2 [|g3 rest]]]]; simpl in Hg; try lia.
  unfold orElse, forRange.
  cbn [seq Nat.sub forIn forallb].
  rewrite Ec, Ec1, Ec2, Ec3. cbn [lookup list_lookup Nat.add fmap option_fmap option_map].
  rewrite !bool_decide_Some_Z.
  msteps. fields.
  rewrite (bind_index_Some _ _ _ _ _ Ec1). msteps.
  unfold index at 1. cbn [lookup list_lookup]. msteps.
  destruct (c1 =? codePoint g1)%Z; cbn [negb andb]; msteps; [|reflexivity].
  fields.
  rewrite (bind_index_Some _ _ _ _ _ Ec2). msteps.
  unfold index at 1. cbn [lookup list_lookup]. msteps.
  destruct (c2 =? codePoint g2)%Z; cbn [negb andb]; msteps; [|reflexivity].
  fields.
  rewrite (bind_index_Some _ _ _ _ _ Ec3). msteps.
  unfold index at 1. cbn [lookup list_lookup]. msteps.
  destruct (c3 =? codePoint g3)%Z; cbn [negb andb]; msteps; [|reflexivity].
  fields.
  rewrite (bind_index_Some _ _ _ _ _ Ec). msteps.
  unfold index at 1. cbn [lookup list_lookup]. msteps.
  fields. cbn [length Nat.sub].
  erewrite bind_Ok; [|apply forEach_garbage; fields; simpl; lia].
  msteps. unfold commit, deliver. fields. cbn [drop take map].
  rewrite take_ge by lia. rewrite <- !app_assoc. reflexivity.
Qed.


Lemma recoverable_skipped (t : TextInput) :
  recoverable 0 t = true <-> skippedCond t.
Proof.
  unfold recoverable, skippedCond. rewrite !andb_true_iff, forallb_forall.
  rewrite !Nat.leb_le. simpl (3 + 0).
  split.
  - intros [[? ?] Hall]. repeat split; try lia.
    intros i Hi. specialize (Hall i). rewrite bool_decide_eq_true in Hall.
    rewrite Nat.add_0_r in Hall. apply Hall. apply in_seq. lia.
  - intros (? & ? & Hall). repeat split; try lia.
    intros i Hi. apply bool_decide_eq_true. rewrite Nat.add_0_r.
    apply Hall. apply in_seq in Hi. lia.
Qed.

Lemma handleSkippedCharacter_eq (t : TextInput) :
  handleSkippedCharacter t
  = Ok (if recoverable 0 t then (true, commit t (recoveredSteps 0 t))
        else (false, t)).
Proof.
  destruct t as [cps soe fe ssw st g ty hd].
  unfold handleSkippedCharacter, recoverable, recoveredSteps, cursor,
    recoverBufferLength.
  msteps. simpl (3 + 0). fields.
  replace (length st + 3 + 1) with (length st + 4) by lia.
  destruct (Nat.ltb_spec (length g) 3) as [Hg|Hg].
  { destruct (Nat.leb_spec 3 (length g)); [lia|reflexivity]. }
  destruct (Nat.ltb_spec (length cps) (length st + 4)) as [Hc|Hc].
  { destruct (Nat.leb_spec (length st + 4) (length cps));
      [lia|]. rewrite andb_false_r. reflexivity. }
  destruct (Nat.leb_spec 3 (length g)); [|lia].
  destruct (Nat.leb_spec (length st + 4) (length cps)); [|lia].
  cbn [orb andb].
  destruct (lookup_lt_is_Some_2 cps (length st)) as [c Ec]; [lia|].
  destruct (lookup_lt_is_Some_2 cps (length st + 0 + 1)) as [c1 Ec1]; [lia|].
  destruct (lookup_lt_is_Some_2 cps (length st + 1 + 1)) as [c2 Ec2]; [lia|].
  destruct (lookup_lt_is_Some_2 cps (length st + 2 + 1)) as [c3 Ec3]; [lia|].
  destruct g as [|g0 [|g1 [|g2 rest]]]; simpl in Hg; try lia.
  unfold orElse, forRange.
  cbn [seq Nat.sub forIn forallb].
  rewrite Ec, Ec1, Ec2, Ec3. cbn [lookup list_lookup Nat.add fmap option_fmap option_map].
  rewrite !bool_decide_Some_Z.
  msteps. fields.
  rewrite (bind_index_Some _ _ _ _ _ Ec1). msteps.
  unfold index at 1. cbn [lookup list_lookup]. msteps.
  destruct (c1 =? codePoint g0)%Z; cbn [negb andb]; msteps; [|reflexivity].
  fields.
  rewrite (bind_index_Some _ _ _ _ _ Ec2). msteps.
  unfold index at 1. cbn [lookup list_lookup]. msteps.
  destruct (c2 =? codePoint g1)%Z; cbn [negb andb]; msteps; [|reflexivity].
  fields.
  rewrite (bind_index_Some _ _ _ _ _ Ec3). msteps.
  unfold index at 1. cbn [lookup list_lookup]. msteps.
  destruct (c3 =? codePoint g2)%Z; cbn [negb andb]; msteps; [|reflexivity].
  fields.
  rewrite (bind_index_Some _ _ _ _ _ Ec). msteps.
  unfold index at 1. cbn [lookup list_lookup]. msteps.
  fields. cbn [length Nat.sub].
  erewrite bind_Ok; [|apply forEach_garbage; fields; simpl; lia].
  msteps. unfold commit, deliver. fields. cbn [drop take map].
  rewrite take_ge by lia. rewrite <- !app_assoc. reflexivity.
Qed.

Lemma wordPrefix_next (rest : list Z) (w : Z) (r : list Z) :
  drop (length (wordPrefix rest)) rest = w :: r -> isWhitespace w = true.
Proof.
  induction rest as [|c rest IH]; simpl; [discriminate|].
  destruct (isWhitespace c) eqn:Ec; simpl.
  - intros [= -> _]. exact Ec.
  - exact IH.
Qed.

(** The loop of [#handleSpace]: it commits what is left of the word. *)
Lemma while_skip_word (timeStamp : Z) (fuel : nat) : forall t : TextInput,
  length (codePoints t) - length (_steps t) < fuel ->
  while fuel
    (let* t := get in
     if length (_steps t) <? length (codePoints t) then
       let* c := index (codePoints t) (length (_steps t)) in
       ret (negb (isWhitespace c))
     else ret false)
    (let* t := get in
     let* c := index (codePoints t) (length (_steps t)) in
     addStep (mkStep c timeStamp true)) t
  = Ok (tt, deliver t (map (fun c => mkStep c timeStamp true)
                         (wordPrefix (drop (length (_steps t)) (codePoints t))))).
Proof.
  induction fuel as [|fuel IH]; intros t Hfuel; [lia|].
  cbn [while]. msteps.
  destruct (Nat.ltb_spec (length (_steps t)) (length (codePoints t))) as [Hin|Hout].
  - destruct (lookup_lt_is_Some_2 (codePoints t) (length (_steps t))) as [c Ec];
      [lia|].
    msteps. rewrite (bind_index_Some _ _ _ _ _ Ec). msteps.
    rewrite (drop_S _ _ _ Ec). cbn [wordPrefix].
    destruct (isWhitespace c); cbn [negb]; msteps.
    + rewrite deliver_nil. reflexivity.
    + rewrite (bind_index_Some _ _ _ _ _ Ec). msteps.
      fold (deliver t [mkStep c timeStamp true]).
      rewrite IH.
      * rewrite deliver_deliver.
        destruct t; unfold deliver; fields. rewrite length_app. simpl.
        replace (length _steps0 + 1) with (S (length _steps0)) by lia.
        reflexivity.
      * destruct t; unfold deliver; fields. rewrite length_app. simpl. lia.
  - msteps. rewrite drop_ge by lia. rewrite deliver_nil. reflexivity.
Qed.

Lemma handleSpace_eq (timeStamp : Z) (t : TextInput) (c : Z) :
  codePoints t !! cursor t = Some c ->
  handleSpace timeStamp t
  = Ok (tt, commit t (wordSkipSteps timeStamp (drop (cursor t) (codePoints t)))).
Proof.
  unfold cursor. intros Ec. unfold handleSpace. msteps.
  rewrite (bind_index_Some _ _ _ _ _ Ec). msteps.
  fold (deliver t [mkStep c timeStamp true]).
  erewrite bind_Ok; [|apply while_skip_word; destruct t; unfold deliver; fields; lia].
  rewrite deliver_steps, deliver_codePoints, length_app. cbn [length].
  replace (length (_steps t) + 1) with (S (length (_steps t))) by lia.
  msteps. rewrite deliver_deliver. rewrite (drop_S _ _ _ Ec).
  cbn [wordSkipSteps].
  set (rest := drop (S (length (_steps t))) (codePoints t)).
  set (word := wordPrefix rest).
  rewrite !deliver_steps, !deliver_codePoints.
  rewrite !length_app, length_map. cbn [length].
  assert (Hdrop : drop (length word) rest
                  = drop (length (_steps t) + (1 + length word)) (codePoints t)).
  { unfold rest. rewrite drop_drop. f_equal. lia. }
  destruct (drop (length word) rest) as [|w r] eqn:Ew.
  - symmetry in Hdrop. apply drop_nil_inv in Hdrop.
    destruct (Nat.ltb_spec (length (_steps t) + (1 + length word))
                (length (codePoints t))); [lia|].
    msteps. rewrite app_nil_r. reflexivity.
  - assert (Hw : codePoints t !! (length (_steps t) + (1 + length word)) = Some w).
    { rewrite <- (Nat.add_0_r (_ + _)), <- lookup_drop, <- Hdrop. reflexivity. }
    destruct (Nat.ltb_spec (length (_steps t) + (1 + length word))
                (length (codePoints t))) as [_|Hout].
    2:{ apply lookup_lt_Some in Hw. lia. }
    msteps. rewrite (bind_index_Some _ _ _ _ _ Hw). msteps.
    rewrite (wordPrefix_next _ _ _ Ew). msteps.
    rewrite deliver_steps, deliver_codePoints, !length_app, length_map.
    cbn [length].
    rewrite (bind_index_Some _ _ _ _ _ Hw). msteps.
    fold (deliver (deliver t
            ([mkStep c timeStamp true]
             ++ map (fun c0 => mkStep c0 timeStamp true) word))
            [mkStep w timeStamp false]).
    rewrite deliver_deliver. unfold commit.
    rewrite <- app_assoc. reflexivity.
Qed.


(** ** [step], case by case *)

(** The end of [step]: correct input, then incorrect input. *)
Lemma step_tail (c timeStamp e : Z) (t : TextInput) :
  codePoints t !! length (_steps t) = Some e ->
  orElse
    (let* t := get in
     let* c0 := index (codePoints t) (length (_steps t)) in
     if (normalize c0 =? c)%Z
        && (forgiveErrors t || (length (_garbage t) =? 0))
     then
       let typo := _typo t in
       addStep (mkStep c timeStamp typo) ;;
       modify (set_garbage []) ;;
       modify (set_typo false) ;;
       if typo then ret (Some Recovered) else ret (Some Succeeded)
     else ret None)
    (modify (set_typo true) ;;
     let* t := get in
     (if negb (stopOnError t) || forgiveErrors t then
        if length (_garbage t) <? garbageBufferLength then
          modify (fun t =>
            set_garbage (_garbage t ++ [mkStep c timeStamp false]) t)
        else ret tt
      else ret tt) ;;
     let* t := get in
     let* recovered :=
       (if forgiveErrors t then
          let* replaced := handleReplacedCharacter in
          if replaced then ret true else handleSkippedCharacter
        else ret false) in
     if recovered then ret Recovered else ret Failed) t
  = Ok (if matches e c t
        then (if _typo t then Recovered else Succeeded,
              commit t [mkStep c timeStamp (_typo t)])
        else
          let t1 := mistyped t c timeStamp in
          if forgiveErrors t && recoverable 1 t1
          then (Recovered, commit t1 (recoveredSteps 1 t1))
          else if forgiveErrors t && recoverable 0 t1
          then (Recovered, commit t1 (recoveredSteps 0 t1))
          else (Failed, t1)).
Proof.
  intros Ee. unfold orElse, matches. msteps.
  rewrite (bind_index_Some _ _ _ _ _ Ee). msteps.
  destruct ((normalize e =? c)%Z
            && (forgiveErrors t || (length (_garbage t) =? 0))).
  { cbv zeta. msteps. destruct (_typo t); msteps; reflexivity. }
  msteps. cbv zeta.
  assert (Hpush :
    (if negb (stopOnError (set_typo true t)) || forgiveErrors (set_typo true t)
     then
       if length (_garbage (set_typo true t)) <? garbageBufferLength
       then modify (fun t0 =>
              set_garbage (_garbage t0 ++ [mkStep c timeStamp false]) t0)
       else ret tt
     else ret tt) (set_typo true t)
    = Ok (tt, mistyped t c timeStamp)).
  { unfold mistyped. cbv zeta.
    destruct (negb (stopOnError (set_typo true t))
              || forgiveErrors (set_typo true t)); cbn [andb]; [|reflexivity].
    destruct (length (_garbage (set_typo true t)) <? garbageBufferLength);
      reflexivity. }
  rewrite (bind_Ok _ _ _ _ _ Hpush). msteps.
  assert (Hfe : forgiveErrors (mistyped t c timeStamp) = forgiveErrors t).
  { unfold mistyped. cbv zeta.
    destruct ((negb (stopOnError (set_typo true t))
               || forgiveErrors (set_typo true t))
              && (length (_garbage (set_typo true t)) <? garbageBufferLength));
      reflexivity. }
  rewrite Hfe.
  destruct (forgiveErrors t); cbn [andb]; msteps; [|reflexivity].
  pose proof (handleReplacedCharacter_eq (mistyped t c timeStamp)) as Hr.
  pose proof (handleSkippedCharacter_eq (mistyped t c timeStamp)) as Hs.
  destruct (recoverable 1 (mistyped t c timeStamp));
    rewrite (bind_Ok _ _ _ _ _ Hr); msteps; [reflexivity|].
  destruct (recoverable 0 (mistyped t c timeStamp));
    rewrite (bind_Ok _ _ _ _ _ Hs); reflexivity.
Qed.

(** [step], case by case. *)
Lemma step_eq (cp timeStamp : Z) (t : TextInput) :
  step cp timeStamp t
  = if completed t then Thrown
    else
      let c := normalizeWhitespace cp in
      match codePoints t !! cursor t with
      | Some e => Ok (stepOutcome e c timeStamp t)
      | None =>
          if leadingSpace t c || (c =? 0x0008)%Z
          then Ok (stepOutcome 0 c timeStamp t)
          else Stuck
      end.
Proof.
  unfold step, stepOutcome, leadingSpace, cursor. msteps.
  destruct (completed t); [reflexivity|].
  cbv zeta.
  set (c := normalizeWhitespace cp).
  destruct ((length (_steps t) =? 0) && (length (_garbage t) =? 0)
            && negb (_typo t) && (c =? 32)%Z) eqn:Elead.
  { destruct (codePoints t !! length (_steps t)); reflexivity. }
  cbn [orb].
  destruct (c =? 8)%Z eqn:Ebs.
  { destruct (0 <? length (_garbage t));
      destruct (codePoints t !! length (_steps t)); reflexivity. }
  destruct (codePoints t !! length (_steps t)) as [e|] eqn:Ee.
  2:{ unfold orElse. msteps.
      destruct (c =? 32)%Z; msteps.
      - rewrite (bind_index_None _ _ _ _ Ee). reflexivity.
      - rewrite (bind_index_None _ _ _ _ Ee). reflexivity. }
  unfold orElse at 1. msteps.
  destruct (c =? 32)%Z; cbn [andb]; msteps.
  2:{ apply step_tail. exact Ee. }
  rewrite (bind_index_Some _ _ _ _ _ Ee). msteps.
  destruct (isWhitespace e); cbn [negb andb]; msteps.
  { apply step_tail. exact Ee. }
  unfold wordStart, cursor.
  destruct (length (_garbage t) =? 0); cbn [andb]; msteps.
  - destruct (Nat.eqb_spec (length (_steps t)) 0) as [E0|E0]; cbn [orb]; msteps.
    { reflexivity. }
    destruct (lookup_lt_is_Some_2 (codePoints t) (length (_steps t) - 1))
      as [p Ep]; [apply lookup_lt_Some in Ee; lia|].
    rewrite (bind_index_Some _ _ _ _ _ Ep), Ep. msteps.
    destruct (isWhitespace p); msteps; [reflexivity|].
    destruct (spaceSkipsWords t); msteps.
    + rewrite (bind_Ok _ _ _ _ _ (handleSpace_eq _ _ _ Ee)). msteps.
      reflexivity.
    + apply step_tail. exact Ee.
  - destruct (spaceSkipsWords t); msteps.
    + rewrite (bind_Ok _ _ _ _ _ (handleSpace_eq _ _ _ Ee)). msteps.
      reflexivity.
    + apply step_tail. exact Ee.
Qed.

Lemma cursor_inside (t : TextInput) (e : Z) :
  codePoints t !! cursor t = Some e -> completed t = false.
Proof.
  unfold cursor, completed. intros Ee. apply lookup_lt_Some in Ee.
  apply Nat.eqb_neq. lia.
Qed.

Lemma stepOutcome_mismatch (e c timeStamp : Z) (t : TextInput) :
  reachesMismatch e c t = true ->
  stepOutcome e c timeStamp t
  = let t1 := mistyped t c timeStamp in
    if forgiveErrors t && recoverable 1 t1
    then (Recovered, commit t1 (recoveredSteps 1 t1))
    else if forgiveErrors t && recoverable 0 t1
    then (Recovered, commit t1 (recoveredSteps 0 t1))
    else (Failed, t1).
Proof.
  unfold reachesMismatch, stepOutcome. intros Hm.
  apply andb_prop in Hm as [Hm Hmatch].
  apply andb_prop in Hm as [Hm Hspace].
  apply andb_prop in Hm as [Hlead Hbs].
  apply negb_true_iff in Hlead, Hbs, Hspace, Hmatch.
  rewrite Hlead, Hbs, Hmatch.
  destruct ((c =? 32)%Z && negb (isWhitespace e)); cbn [andb] in *;
    [|reflexivity].
  apply orb_false_elim in Hspace as [-> ->]. reflexivity.
Qed.

(** C1 -- Replaced-character recovery.  On every machine,
    [#handleReplacedCharacter] succeeds exactly when the garbage buffer holds
    at least 4 keystrokes, at least 4 characters of the target are left from
    the cursor, and the buffered keystrokes 1..3 equal the three characters
    after the cursor.  On success it commits the character at the cursor as
    a typo with the time stamp of the first buffered keystroke, then every
    buffered keystroke from index 1 on (also those past index 3) as correct
    steps with their own time stamps, and clears the buffer and the typo
    flag; otherwise it returns [false] and leaves the machine as it was.
    A call of [step] that reaches the mismatch with [forgiveErrors] set runs
    it on the machine with the mismatch noted and, when it succeeds, returns
    [Recovered] with the machine it left. *)
Theorem replaced_character_recovery (t : TextInput) :
  ((exists t', handleReplacedCharacter t = Ok (true, t')) <-> replacedCond t)
  /\ (replacedCond t ->
      exists c g0 rest,
        codePoints t !! cursor t = Some c /\ _garbage t = g0 :: rest /\
        handleReplacedCharacter t
        = Ok (true, commit t (mkStep c (timeStamp g0) true :: map asHit rest)))
  /\ (~ replacedCond t -> handleReplacedCharacter t = Ok (false, t))
  /\ (forall cp timeStamp e,
        codePoints t !! cursor t = Some e ->
        reachesMismatch e (normalizeWhitespace cp) t = true ->
        forgiveErrors t = true ->
        let t1 := mistyped t (normalizeWhitespace cp) timeStamp in
        replacedCond t1 ->
        exists t2,
          handleReplacedCharacter t1 = Ok (true, t2) /\
          step cp timeStamp t = Ok (Recovered, t2)).
Proof.
  pose proof (handleReplacedCharacter_eq t) as Heq.
  pose proof (recoverable_replaced t) as Hiff.
  assert (Hstep : forall cp timeStamp e,
    codePoints t !! cursor t = Some e ->
    reachesMismatch e (normalizeWhitespace cp) t = true ->
    forgiveErrors t = true ->
    let t1 := mistyped t (normalizeWhitespace cp) timeStamp in
    replacedCond t1 ->
    exists t2,
      handleReplacedCharacter t1 = Ok (true, t2) /\
      step cp timeStamp t = Ok (Recovered, t2)).
  { intros cp timeStamp e Ee Hm Hfe t1 Hc1.
    apply recoverable_replaced in Hc1.
    exists (commit t1 (recoveredSteps 1 t1)). split.
    - rewrite handleReplacedCharacter_eq, Hc1. reflexivity.
    - rewrite step_eq, (cursor_inside _ _ Ee), Ee. cbv zeta.
      rewrite (stepOutcome_mismatch _ _ _ _ Hm). cbv zeta. fold t1.
      rewrite Hfe, Hc1. reflexivity. }
  destruct (recoverable 1 t) eqn:Hrec.
  - assert (Hc : replacedCond t) by (apply Hiff; reflexivity).
    split; [|split; [|split]].
    + split; [intros _; exact Hc|intros _; eexists; exact Heq].
    + intros _. destruct Hc as (Hg & Hcur & _).
      destruct (lookup_lt_is_Some_2 (codePoints t) (cursor t)) as [c Ec]; [lia|].
      destruct (_garbage t) as [|g0 rest] eqn:Eg; [simpl in Hg; lia|].
      exists c, g0, rest. repeat split; [exact Ec|].
      rewrite Heq. unfold recoveredSteps. rewrite Ec, Eg. reflexivity.
    + intros Hn. contradiction.
    + exact Hstep.
  - assert (Hc : ~ replacedCond t).
    { intros Hc. apply Hiff in Hc. discriminate. }
    split; [|split; [|split]].
    + split; [|intros Hy; contradiction].
      intros [t' Ht']. rewrite Heq in Ht'. discriminate.
    + intros Hy. contradiction.
    + intros _. exact Heq.
    + exact Hstep.
Qed.

(** C2 -- Skipped-character recovery.  On every machine,
    [#handleSkippedCharacter] succeeds exactly when the garbage buffer holds
    at least 3 keystrokes, at least 4 characters of the target are left from
    the cursor, and the buffered keystrokes 0..2 equal the three characters
    after the cursor.  On success it commits the character at the cursor as
    a typo with the time stamp of the first buffered keystroke, then every
    buffered keystroke as a correct step with its own time stamp, and clears
    the buffer and the typo flag.  In a call of [step] that reaches the
    mismatch with [forgiveErrors] set, replaced-character recovery runs
    first, on the machine with the mismatch noted, and skipped-character
    recovery runs only if it failed. *)
Theorem skipped_character_recovery (t : TextInput) :
  ((exists t', handleSkippedCharacter t = Ok (true, t')) <-> skippedCond t)
  /\ (skippedCond t ->
      exists c g0,
        codePoints t !! cursor t = Some c /\ _garbage t !! 0 = Some g0 /\
        handleSkippedCharacter t
        = Ok (true, commit t (mkStep c (timeStamp g0) true
                               :: map asHit (_garbage t))))
  /\ (~ skippedCond t -> handleSkippedCharacter t = Ok (false, t))
  /\ (forall cp timeStamp e,
        codePoints t !! cursor t = Some e ->
        reachesMismatch e (normalizeWhitespace cp) t = true ->
        forgiveErrors t = true ->
        let t1 := mistyped t (normalizeWhitespace cp) timeStamp in
        step cp timeStamp t
        = match handleReplacedCharacter t1 with
          | Ok (true, t2) => Ok (Recovered, t2)
          | _ =>
              match handleSkippedCharacter t1 with
              | Ok (true, t2) => Ok (Recovered, t2)
              | _ => Ok (Failed, t1)
              end
          end).
Proof.
  pose proof (handleSkippedCharacter_eq t) as Heq.
  pose proof (recoverable_skipped t) as Hiff.
  split; [|split; [|split]].
  - destruct (recoverable 0 t) eqn:Hrec.
    + split; [intros _; apply Hiff; reflexivity|intros _; eexists; exact Heq].
    + split.
      * intros [t' Ht']. rewrite Heq in Ht'. discriminate.
      * intros Hy. apply Hiff in Hy. discriminate.
  - intros Hc. pose proof Hc as (Hg & Hcur & _).
    apply Hiff in Hc. rewrite Hc in Heq.
    destruct (lookup_lt_is_Some_2 (codePoints t) (cursor t)) as [c Ec]; [lia|].
    destruct (_garbage t) as [|g0 rest] eqn:Eg; [simpl in Hg; lia|].
    exists c, g0. repeat split; [exact Ec|].
    rewrite Heq. unfold recoveredSteps. rewrite Ec, Eg. reflexivity.
  - intros Hn. destruct (recoverable 0 t) eqn:Hrec; [|exact Heq].
    exfalso. apply Hn, Hiff. reflexivity.
  - intros cp timeStamp e Ee Hm Hfe t1.
    rewrite step_eq, (cursor_inside _ _ Ee), Ee. cbv zeta.
    rewrite (stepOutcome_mismatch _ _ _ _ Hm). cbv zeta. fold t1.
    rewrite Hfe. cbn [andb].
    rewrite (handleReplacedCharacter_eq t1), (handleSkippedCharacter_eq t1).
    destruct (recoverable 1 t1); [reflexivity|].
    destruct (recoverable 0 t1); reflexivity.
Qed.

Lemma mistyped_fields (t : TextInput) (c timeStamp : Z) :
  codePoints (mistyped t c timeStamp) = codePoints t /\
  stopOnError (mistyped t c timeStamp) = stopOnError t /\
  forgiveErrors (mistyped t c timeStamp) = forgiveErrors t /\
  spaceSkipsWords (mistyped t c timeStamp) = spaceSkipsWords t /\
  _steps (mistyped t c timeStamp) = _steps t /\
  _typo (mistyped t c timeStamp) = true /\
  heard (mistyped t c timeStamp) = heard t.
Proof.
  unfold mistyped. cbv zeta.
  destruct ((negb (stopOnError (set_typo true t))
             || forgiveErrors (set_typo true t))
            && (length (_garbage (set_typo true t)) <? garbageBufferLength));
    repeat split.
Qed.

(** C3 -- Word-skip.  When [step] receives a space while the expected
    character [e] at the cursor is not whitespace, the garbage buffer is not
    empty or the cursor is not at the start and the character before it is
    not whitespace, and [spaceSkipsWords] is set, the call returns
    [Recovered] after it has committed the steps [wordSkipSteps]: the
    character at the cursor as a typo with the time stamp of the space, then
    every following character up to the next whitespace or the end of the
    text as a typo with the same time stamp, then the whitespace character
    that follows, if there is one, as a correct step; the garbage buffer and
    the typo flag are cleared. *)
Theorem word_skip (cp timeStamp e : Z) (t : TextInput) :
  normalizeWhitespace cp = 0x0020%Z ->
  codePoints t !! cursor t = Some e ->
  isWhitespace e = false ->
  (_garbage t <> [] \/
   exists p, cursor t <> 0 /\ codePoints t !! (cursor t - 1) = Some p /\
             isWhitespace p = false) ->
  spaceSkipsWords t = true ->
  step cp timeStamp t
  = Ok (Recovered,
        commit t (wordSkipSteps timeStamp (drop (cursor t) (codePoints t)))).
Proof.
  intros Hsp Ee Hws Hin Hskip.
  rewrite step_eq, (cursor_inside _ _ Ee), Ee. cbv zeta.
  unfold stepOutcome. rewrite Hsp, Hws, Hskip. cbn [negb andb Z.eqb Pos.eqb].
  assert (Hlead : leadingSpace t 32 = false).
  { unfold leadingSpace. destruct Hin as [Hg|(p & Hc & _)].
    - destruct (_garbage t); [contradiction|]. cbn [length Nat.eqb].
      rewrite andb_false_r. reflexivity.
    - unfold cursor in Hc. apply Nat.eqb_neq in Hc. rewrite Hc. reflexivity. }
  assert (Hstart : wordStart t = false).
  { unfold wordStart. destruct Hin as [Hg|(p & Hc & Hp & Hpw)].
    - destruct (_garbage t); [contradiction|]. reflexivity.
    - rewrite Hp, Hpw. unfold cursor in Hc. apply Nat.eqb_neq in Hc.
      rewrite Hc. apply andb_false_r. }
  rewrite Hlead, Hstart. reflexivity.
Qed.

(** C10 -- Empty target.  A machine built for the empty text is completed
    from the start and after [reset()]; every call of [step] on it, whatever
    the arguments, throws, and a sequence of calls leaves the machine as it
    was. *)
Theorem empty_target (soe fe ssw : bool) :
  let t := new [] soe fe ssw in
  completed t = true /\
  completed (reset t) = true /\
  (forall cp timeStamp, step cp timeStamp t = Thrown) /\
  (forall cp timeStamp, step cp timeStamp (reset t) = Thrown) /\
  (forall inputs, run t inputs = (map (fun _ => Thrown) inputs, t)).
Proof.
  cbv zeta. repeat split.
  induction inputs as [|[cp ts] inputs IH]; [reflexivity|].
  cbn [run map]. unfold run1. cbn [fst snd].
  change (step cp ts (new [] soe fe ssw)) with (@Thrown (Feedback * TextInput)).
  cbv iota. rewrite IH. reflexivity.
Qed.

(** C5 (amended) -- A call of [step] that returns [Failed] commits nothing
    and delivers no step to the listener.  It is either a backspace on an
    empty garbage buffer, which leaves the machine as it was, or a mismatch,
    which sets the typo flag and, where buffering is active and the buffer
    has room, appends the keystroke to the garbage buffer. *)
Theorem failed_commits_nothing (cp timeStamp : Z) (t t' : TextInput) :
  step cp timeStamp t = Ok (Failed, t') ->
  _steps t' = _steps t /\
  heard t' = heard t /\
  ((normalizeWhitespace cp = 0x0008%Z /\ _garbage t = [] /\ t' = t) \/
   t' = mistyped t (normalizeWhitespace cp) timeStamp).
Proof.
  rewrite step_eq. cbv zeta.
  set (c := normalizeWhitespace cp).
  destruct (completed t); [discriminate|].
  assert (Hout : forall e, Ok (stepOutcome e c timeStamp t) = Ok (Failed, t') ->
    _steps t' = _steps t /\ heard t' = heard t /\
    (((c = 8)%Z /\ _garbage t = [] /\ t' = t) \/ t' = mistyped t c timeStamp)).
  { intros e He. unfold stepOutcome in He.
    pose proof (mistyped_fields t c timeStamp) as (_ & _ & _ & _ & Hs & _ & Hh).
    repeat case_match; simplify_eq; try (split; [|split]; auto; fail).
    split; [reflexivity|]. split; [reflexivity|]. left.
    repeat split.
    - apply Z.eqb_eq. assumption.
    - destruct (_garbage t'); [reflexivity|discriminate]. }
  destruct (codePoints t !! cursor t) as [e|]; [apply Hout|].
  destruct (leadingSpace t c || (c =? 8)%Z); [apply Hout|discriminate].
Qed.

(** ** The transitions of the machine *)

Lemma step_transition (cp timeStamp : Z) (t t' : TextInput) (fb : Feedback) :
  step cp timeStamp t = Ok (fb, t') ->
  exists e, Transition e (normalizeWhitespace cp) timeStamp t fb t'.
Proof.
  rewrite step_eq. cbv zeta.
  set (c := normalizeWhitespace cp).
  destruct (completed t); [discriminate|].
  assert (Hearly : forall e,
    leadingSpace t c || (c =? 8)%Z = true ->
    stepOutcome e c timeStamp t = (fb, t') ->
    Transition e c timeStamp t fb t').
  { intros e Hor Ho. unfold stepOutcome in Ho.
    destruct (leadingSpace t c) eqn:Hlead.
    - injection Ho as <- <-. pose proof Hlead as Hl.
      unfold leadingSpace in Hlead.
      apply andb_prop in Hlead as [Hlead Hc].
      apply andb_prop in Hlead as [Hlead _].
      apply andb_prop in Hlead as [_ Hg].
      apply T_ignored; [apply Z.eqb_eq; exact Hc| |left; exact Hl].
      destruct (_garbage t); [reflexivity|discriminate].
    - cbn [orb] in Hor. rewrite Hor in Ho. apply Z.eqb_eq in Hor.
      destruct (0 <? length (_garbage t)) eqn:Hlt; injection Ho as <- <-.
      + apply T_backspace; [assumption|].
        destruct (_garbage t); [discriminate|congruence].
      + apply T_backspace_failed; [assumption|].
        destruct (_garbage t); [reflexivity|discriminate]. }
  destruct (codePoints t !! cursor t) as [e|] eqn:Ee.
  2:{ destruct (leadingSpace t c || (c =? 8)%Z) eqn:Hor; [|discriminate].
      intros [= Ho]. exists 0%Z. apply Hearly; [reflexivity|].
      destruct (stepOutcome 0 c timeStamp t). simpl in Ho. congruence. }
  intros [= Ho]. exists e.
  destruct (leadingSpace t c || (c =? 8)%Z) eqn:Hor.
  { apply Hearly; [reflexivity|].
    destruct (stepOutcome e c timeStamp t). simpl in Ho. congruence. }
  apply orb_false_elim in Hor as [Hlead Hbs].
  unfold stepOutcome in Ho. rewrite Hlead, Hbs in Ho.
  destruct ((c =? 32)%Z && negb (isWhitespace e)) eqn:Hsp; cbn [andb] in Ho.
  - apply andb_prop in Hsp as [Hc He]. apply Z.eqb_eq in Hc.
    apply negb_true_iff in He.
    destruct (wordStart t) eqn:Hws.
    { injection Ho as <- <-. apply T_ignored; [assumption| |right; auto].
      unfold wordStart in Hws. apply andb_prop in Hws as [Hg _].
      destruct (_garbage t); [reflexivity|discriminate]. }
    destruct (spaceSkipsWords t) eqn:Hskip.
    { injection Ho as <- <-. apply T_word_skip; assumption. }
    destruct (matches e c t) eqn:Hmatch.
    { injection Ho as <- <-. apply Z.eqb_neq in Hbs.
      apply T_match; assumption. }
    assert (Hreach : reachesMismatch e c t = true).
    { unfold reachesMismatch. rewrite Hlead, Hbs, Hmatch, Hws, Hskip, He.
      rewrite Hc. reflexivity. }
    revert Ho. cbv zeta.
    destruct (forgiveErrors t) eqn:Hfe; cbn [andb].
    + destruct (recoverable 1 (mistyped t c timeStamp)) eqn:H1.
      { intros [= <- <-]. apply (T_recovered _ _ _ _ 1); auto; lia. }
      destruct (recoverable 0 (mistyped t c timeStamp)) eqn:H0.
      { intros [= <- <-]. apply (T_recovered _ _ _ _ 0); auto; lia. }
      intros [= <- <-]. apply T_failed; auto.
    + intros [= <- <-]. apply T_failed; auto. congruence.
  - destruct (matches e c t) eqn:Hmatch.
    { injection Ho as <- <-. apply Z.eqb_neq in Hbs.
      apply T_match; assumption. }
    assert (Hreach : reachesMismatch e c t = true).
    { unfold reachesMismatch. rewrite Hlead, Hbs, Hmatch.
      destruct ((c =? 32)%Z && negb (isWhitespace e)); [discriminate|].
      reflexivity. }
    revert Ho. cbv zeta.
    destruct (forgiveErrors t) eqn:Hfe; cbn [andb].
    + destruct (recoverable 1 (mistyped t c timeStamp)) eqn:H1.
      { intros [= <- <-]. apply (T_recovered _ _ _ _ 1); auto; lia. }
      destruct (recoverable 0 (mistyped t c timeStamp)) eqn:H0.
      { intros [= <- <-]. apply (T_recovered _ _ _ _ 0); auto; lia. }
      intros [= <- <-]. apply T_failed; auto.
    + intros [= <- <-]. apply T_failed; auto. congruence.
Qed.

Lemma commit_fields (t : TextInput) (new : list Step) :
  codePoints (commit t new) = codePoints t /\
  stopOnError (commit t new) = stopOnError t /\
  forgiveErrors (commit t new) = forgiveErrors t /\
  spaceSkipsWords (commit t new) = spaceSkipsWords t /\
  _steps (commit t new) = _steps t ++ new /\
  _garbage (commit t new) = [] /\
  _typo (commit t new) = false /\
  heard (commit t new) = heard t ++ new.
Proof. repeat split. Qed.

Lemma recoveredSteps_cons (off : nat) (t : TextInput) (e : Z) :
  codePoints t !! cursor t = Some e ->
  recoverable off t = true ->
  exists g0, _garbage t !! 0 = Some g0 /\
    recoveredSteps off t
    = mkStep e (timeStamp g0) true :: map asHit (drop off (_garbage t)).
Proof.
  intros Ee Hrec. unfold recoveredSteps. rewrite Ee.
  unfold recoverable in Hrec.
  apply andb_prop in Hrec as [Hrec _]. apply andb_prop in Hrec as [Hlen _].
  apply Nat.leb_le in Hlen.
  destruct (_garbage t) as [|g0 rest]; [simpl in Hlen; lia|].
  exists g0. split; reflexivity.
Qed.

Lemma wordSkipSteps_cons (timeStamp : Z) (t : TextInput) (e : Z) :
  codePoints t !! cursor t = Some e ->
  exists rest,
    wordSkipSteps timeStamp (drop (cursor t) (codePoints t))
    = mkStep e timeStamp true :: rest.
Proof.
  intros Ee. rewrite (drop_S _ _ _ Ee). cbn [wordSkipSteps].
  eexists. reflexivity.
Qed.

Lemma reachesMismatch_inv (e c : Z) (t : TextInput) :
  reachesMismatch e c t = true -> c <> 8%Z /\ matches e c t = false.
Proof.
  unfold reachesMismatch. intros Hm.
  apply andb_prop in Hm as [Hm Hmatch].
  apply andb_prop in Hm as [Hm _].
  apply andb_prop in Hm as [_ Hbs].
  apply negb_true_iff in Hbs, Hmatch. apply Z.eqb_neq in Hbs. auto.
Qed.

(** What a transition commits: the history and the listener's log grow by
    the same steps; when they do, the buffer and the flag are cleared and the
    first new step is a typo if the flag was set or the call is a mismatch;
    when nothing is committed, a set flag stays set. *)
Lemma transition_commits (e c timeStamp : Z) (t t' : TextInput) (fb : Feedback) :
  Transition e c timeStamp t fb t' ->
  exists new,
    _steps t' = _steps t ++ new /\ heard t' = heard t ++ new /\
    (new = [] -> _typo t = true -> _typo t' = true) /\
    (forall s r, new = s :: r ->
       _typo t' = false /\ _garbage t' = [] /\
       (_typo t = true \/
        (exists e', codePoints t !! cursor t = Some e' /\
                    reachesMismatch e' c t = true) -> typo s = true)).
Proof.
  intros Ht. destruct Ht.
  - exists []. rewrite !app_nil_r. repeat split; auto; discriminate.
  - exists []. rewrite !app_nil_r. repeat split; auto; discriminate.
  - exists []. rewrite !app_nil_r. repeat split; auto; discriminate.
  - destruct (wordSkipSteps_cons timeStamp t e) as [rest Hw]; [assumption|].
    rewrite Hw. eexists. split; [reflexivity|]. split; [reflexivity|].
    split; [discriminate|]. intros s r [= <- <-]. repeat split.
  - eexists. split; [reflexivity|]. split; [reflexivity|].
    split; [discriminate|]. intros s r [= <- <-]. repeat split.
    intros [Hty|(e' & Ee' & Hm)]; [exact Hty|].
    apply reachesMismatch_inv in Hm as [_ Hm]. congruence.
  - pose proof (mistyped_fields t c timeStamp) as (Hcp & _ & _ & _ & Hs & _ & Hh).
    destruct (recoveredSteps_cons off (mistyped t c timeStamp) e) as (g0 & _ & Hr);
      [unfold cursor; rewrite Hcp, Hs; assumption|assumption|].
    rewrite Hr. eexists.
    split; [cbn [commit]; rewrite <- Hs; reflexivity|].
    split; [cbn [commit]; rewrite <- Hh; reflexivity|].
    split; [discriminate|]. intros s r [= <- <-]. repeat split.
  - pose proof (mistyped_fields t c timeStamp) as (_ & _ & _ & _ & Hs & Hty & Hh).
    exists []. rewrite !app_nil_r. repeat split; auto; discriminate.
Qed.

Lemma step_commits (cp timeStamp : Z) (t t' : TextInput) (fb : Feedback) :
  step cp timeStamp t = Ok (fb, t') ->
  exists new,
    _steps t' = _steps t ++ new /\ heard t' = heard t ++ new /\
    (new = [] -> _typo t = true -> _typo t' = true) /\
    (forall s r, new = s :: r ->
       _typo t' = false /\ _garbage t' = [] /\
       (_typo t = true \/ mismatchAt t cp -> typo s = true)).
Proof.
  intros Hstep. destruct (step_transition _ _ _ _ _ Hstep) as [e Ht].
  exact (transition_commits _ _ _ _ _ _ Ht).
Qed.

Lemma run_cons (t : TextInput) (input : Z * Z) (inputs : list (Z * Z)) :
  run t (input :: inputs)
  = (fst (run1 t input) :: fst (run (snd (run1 t input)) inputs),
     snd (run (snd (run1 t input)) inputs)).
Proof.
  cbn [run]. destruct (run1 t input) as [r t1]. cbn [fst snd].
  destruct (run t1 inputs) as [rs t2]. reflexivity.
Qed.

Lemma run1_cases (t : TextInput) (input : Z * Z) :
  (exists fb t', step (fst input) (snd input) t = Ok (fb, t') /\
                 run1 t input = (Ok fb, t'))
  \/ snd (run1 t input) = t.
Proof.
  unfold run1. destruct (step (fst input) (snd input) t) as [[fb t']| |].
  - left. exists fb, t'. split; reflexivity.
  - right. reflexivity.
  - right. reflexivity.
Qed.

(** The committed history only grows. *)
Lemma run_steps_prefix (inputs : list (Z * Z)) : forall t : TextInput,
  exists more, _steps (snd (run t inputs)) = _steps t ++ more.
Proof.
  induction inputs as [|input inputs IH]; intros t.
  - exists []. rewrite app_nil_r. reflexivity.
  - rewrite run_cons. cbn [snd].
    destruct (IH (snd (run1 t input))) as [more Hmore]. rewrite Hmore.
    destruct (run1_cases t input) as [(fb & t' & Hstep & Hrun)|Hsame].
    + rewrite Hrun. cbn [snd].
      destruct (step_commits _ _ _ _ _ Hstep) as (new & Hs & _).
      rewrite Hs, <- app_assoc. eexists. reflexivity.
    + rewrite Hsame. eexists. reflexivity.
Qed.

(** While the typo flag is set, whatever is typed next, the first step that
    gets committed is a typo. *)
Lemma run_first_commit (inputs : list (Z * Z)) : forall t : TextInput,
  _typo t = true ->
  forall s new,
    _steps (snd (run t inputs)) = _steps t ++ s :: new -> typo s = true.
Proof.
  induction inputs as [|input inputs IH]; intros t Hty s new Hrun.
  - cbn [run snd] in Hrun. apply (f_equal length) in Hrun.
    rewrite length_app in Hrun. cbn [length] in Hrun. lia.
  - rewrite run_cons in Hrun. cbn [snd] in Hrun.
    destruct (run1_cases t input) as [(fb & t' & Hstep & Hr1)|Hsame].
    + rewrite Hr1 in Hrun. cbn [snd] in Hrun.
      destruct (step_commits _ _ _ _ _ Hstep) as (new1 & Hs & _ & Hnil & Hcons).
      destruct new1 as [|s1 r1].
      * rewrite app_nil_r in Hs. rewrite <- Hs in Hrun.
        apply (IH t' (Hnil eq_refl Hty) s new Hrun).
      * destruct (run_steps_prefix inputs t') as [more Hmore].
        rewrite Hmore, Hs, <- app_assoc in Hrun.
        apply app_inv_head in Hrun. injection Hrun as <- _.
        apply (Hcons s1 r1 eq_refl). left. exact Hty.
    + rewrite Hsame in Hrun. apply (IH t Hty s new Hrun).
Qed.

(** C6 -- Typo-flag lifecycle.  For every call of [step] that returns:
    the flag goes from unset to set only in a mismatch (a call that reaches
    "Handle incorrect input"), and a mismatch either fails and leaves the
    flag set or recovers by committing steps; the flag goes from set to
    unset only when at least one step is committed; the first step committed
    by a call that starts with the flag set, or that is a mismatch, is a
    typo, and so is the first step committed by any later sequence of calls
    made while the flag is still set, backspaces included; a backspace
    leaves the flag and the history alone and only pops the garbage buffer;
    [reset()] clears the flag. *)
Theorem typo_flag_lifecycle (cp timeStamp : Z) (t t' : TextInput) (fb : Feedback) :
  step cp timeStamp t = Ok (fb, t') ->
  (_typo t = false -> _typo t' = true -> mismatchAt t cp /\ fb = Failed) /\
  (mismatchAt t cp ->
   (fb = Failed /\ _typo t' = true) \/
   (fb = Recovered /\ exists s new, _steps t' = _steps t ++ s :: new)) /\
  (_typo t = true -> _typo t' = false ->
   exists s new, _steps t' = _steps t ++ s :: new) /\
  (forall s new, _steps t' = _steps t ++ s :: new ->
   _typo t = true \/ mismatchAt t cp -> typo s = true) /\
  (_typo t' = true ->
   forall inputs s new,
     _steps (snd (run t' inputs)) = _steps t' ++ s :: new -> typo s = true) /\
  (normalizeWhitespace cp = 0x0008%Z ->
   _typo t' = _typo t /\ _steps t' = _steps t /\
   _garbage t' = removelast (_garbage t)) /\
  _typo (reset t') = false.
Proof.
  intros Hstep.
  destruct (step_commits _ _ _ _ _ Hstep) as (new & Hs & Hh & Hnil & Hcons).
  destruct (step_transition _ _ _ _ _ Hstep) as [e Ht].
  split; [|split; [|split; [|split; [|split; [|split]]]]].
  - intros Hf Ht'. inversion Ht; subst;
      cbn [commit deliver set_typo set_garbage set_heard set_steps _typo] in *;
      try congruence.
    split; [|reflexivity]. exists e. split; assumption.
  - intros (e' & Ee' & Hm).
    rewrite step_eq, (cursor_inside _ _ Ee'), Ee' in Hstep. cbv zeta in Hstep.
    rewrite (stepOutcome_mismatch _ _ _ _ Hm) in Hstep. cbv zeta in Hstep.
    pose proof (mistyped_fields t (normalizeWhitespace cp) timeStamp)
      as (Hcp & _ & _ & _ & Hst & Hty & _).
    set (t1 := mistyped t (normalizeWhitespace cp) timeStamp) in *.
    assert (Hrec : forall off, recoverable off t1 = true ->
      exists s r, _steps (commit t1 (recoveredSteps off t1)) = _steps t ++ s :: r).
    { intros off Hoff.
      destruct (recoveredSteps_cons off t1 e') as (g0 & _ & Hr);
        [unfold cursor; rewrite Hcp, Hst; exact Ee'|exact Hoff|].
      rewrite Hr. cbn [commit]. rewrite <- Hst. eexists _, _. reflexivity. }
    destruct (forgiveErrors t && recoverable 1 t1) eqn:H1.
    { injection Hstep as <- <-. right. split; [reflexivity|].
      apply Hrec. apply andb_prop in H1 as [_ H1]. exact H1. }
    destruct (forgiveErrors t && recoverable 0 t1) eqn:H0.
    { injection Hstep as <- <-. right. split; [reflexivity|].
      apply Hrec. apply andb_prop in H0 as [_ H0]. exact H0. }
    injection Hstep as <- <-. left. split; [reflexivity|exact Hty].
  - intros Hty Hty'. destruct new as [|s r].
    + rewrite (Hnil eq_refl Hty) in Hty'. discriminate.
    + exists s, r. exact Hs.
  - intros s r Hs'. rewrite Hs in Hs'. apply app_inv_head in Hs'. subst new.
    apply (Hcons s r eq_refl).
  - intros Hty' inputs. apply run_first_commit. exact Hty'.
  - intros Hbs. inversion Ht; subst; try congruence.
    + repeat split.
    + repeat split. rewrite H0. reflexivity.
    + apply reachesMismatch_inv in H0 as [Hne _]. congruence.
    + apply reachesMismatch_inv in H0 as [Hne _]. congruence.
  - reflexivity.
Qed.


(** ** The invariant *)

Lemma recoverable_nil (off : nat) (t : TextInput) :
  _garbage t = [] -> recoverable off t = false.
Proof. unfold recoverable. intros ->. reflexivity. Qed.

Lemma recoverable_spec (off : nat) (t : TextInput) :
  recoverable off t = true <->
  3 + off <= length (_garbage t) /\
  cursor t + 4 <= length (codePoints t) /\
  forall i, i < 3 ->
    codePoint <$> (_garbage t !! (i + off)) = codePoints t !! (cursor t + i + 1).
Proof.
  unfold recoverable. rewrite !andb_true_iff, forallb_forall, !Nat.leb_le.
  split.
  - intros [[? ?] Hall]. repeat split; try assumption.
    intros i Hi. specialize (Hall i). rewrite bool_decide_eq_true in Hall.
    apply Hall. apply in_seq. lia.
  - intros (? & ? & Hall). repeat split; try assumption.
    intros i Hi. apply bool_decide_eq_true. apply Hall. apply in_seq in Hi. lia.
Qed.

Lemma lookup_removelast {A} (l : list A) (i : nat) :
  i < length l - 1 -> removelast l !! i = l !! i.
Proof.
  intros Hi. rewrite removelast_firstn_len.
  apply lookup_take_lt. lia.
Qed.

Lemma length_removelast {A} (l : list A) :
  length (removelast l) = length l - 1.
Proof. rewrite removelast_firstn_len, length_take. lia. Qed.

(** A recovery that is possible after a backspace was possible before. *)
Lemma recoverable_removelast (off : nat) (t : TextInput) :
  recoverable off (set_garbage (removelast (_garbage t)) t) = true ->
  recoverable off t = true.
Proof.
  rewrite !recoverable_spec. unfold cursor. fields.
  rewrite length_removelast. intros (Hg & Hc & Hall).
  repeat split; [lia|assumption|].
  intros i Hi. rewrite <- (Hall i Hi). rewrite lookup_removelast by lia.
  reflexivity.
Qed.

(** A recovery depends on the first [3 + off] buffered keystrokes only. *)
Lemma recoverable_snoc (off : nat) (t : TextInput) (x : Step) :
  3 + off <= length (_garbage t) ->
  recoverable off (set_garbage (_garbage t ++ [x]) t) = true ->
  recoverable off t = true.
Proof.
  intros Hlen. rewrite !recoverable_spec. unfold cursor. fields.
  intros (Hg & Hc & Hall).
  repeat split; [lia|assumption|].
  intros i Hi. rewrite <- (Hall i Hi). rewrite lookup_app_l by lia.
  reflexivity.
Qed.

Lemma wordPrefix_length (rest : list Z) :
  length (wordPrefix rest) <= length rest.
Proof.
  induction rest as [|c rest IH]; simpl; [lia|].
  destruct (isWhitespace c); simpl; lia.
Qed.

Lemma wordSkipSteps_length (timeStamp : Z) (l : list Z) :
  length (wordSkipSteps timeStamp l) <= length l.
Proof.
  destruct l as [|c rest]; [reflexivity|]. cbn [wordSkipSteps length].
  rewrite length_app, length_map.
  pose proof (wordPrefix_length rest) as Hw.
  destruct (drop (length (wordPrefix rest)) rest) as [|w r] eqn:Ed.
  - simpl. lia.
  - apply (f_equal length) in Ed. rewrite length_drop in Ed.
    simpl in Ed. simpl. lia.
Qed.

Lemma mistyped_garbage (t : TextInput) (c timeStamp : Z) :
  (mistyped t c timeStamp = set_typo true t) \/
  (length (_garbage t) < garbageBufferLength /\
   mistyped t c timeStamp
   = set_garbage (_garbage t ++ [mkStep c timeStamp false]) (set_typo true t)).
Proof.
  unfold mistyped. cbv zeta. fields.
  destruct (negb (stopOnError t) || forgiveErrors t); cbn [andb]; [|left; reflexivity].
  destruct (Nat.ltb_spec (length (_garbage t)) garbageBufferLength);
    [right; split; [assumption|reflexivity]|left; reflexivity].
Qed.

(** With nothing pending before a mismatch, a recovery right after it uses
    exactly [3 + off] buffered keystrokes. *)
Lemma recoverable_mistyped (off : nat) (t : TextInput) (c timeStamp : Z) :
  recoverable off t = false ->
  recoverable off (mistyped t c timeStamp) = true ->
  length (_garbage (mistyped t c timeStamp)) = 3 + off.
Proof.
  intros Hno Hyes.
  destruct (mistyped_garbage t c timeStamp) as [E|[Hlt E]]; rewrite E in *.
  - change (recoverable off (set_typo true t)) with (recoverable off t) in Hyes.
    congruence.
  - pose proof Hyes as Hlen. apply recoverable_spec in Hlen as [Hlen _].
    fields. rewrite length_app in *. cbn [length] in *.
    destruct (Nat.le_gt_cases (3 + off) (length (_garbage t))) as [Hge|Hlt']; [|lia].
    exfalso.
    change (recoverable off (set_garbage (_garbage t ++ [mkStep c timeStamp false])
                               (set_typo true t)))
      with (recoverable off (set_garbage (_garbage t ++ [mkStep c timeStamp false]) t))
      in Hyes.
    apply recoverable_snoc in Hyes; [congruence|assumption].
Qed.

Lemma stable_transition (e c timeStamp : Z) (t t' : TextInput) (fb : Feedback) :
  stable t -> Transition e c timeStamp t fb t' -> stable t'.
Proof.
  intros (Hs & Hg & Hty & Hrec) Ht. unfold stable.
  destruct Ht as [Hc Hg0 Hwhy|Hc Hne|Hc Hg0|Hc Ee Hws Hnl Hnws Hskip|Hne Ee Hm
                 |off Ee Hreach Hfe Hoff Hyes Hfirst|Ee Hreach Hno].
  - auto.
  - fields. rewrite length_removelast.
    split; [assumption|]. split; [lia|]. split; [auto|].
    intros Hfe. split.
    + destruct (recoverable 1 (set_garbage (removelast (_garbage t)) t)) eqn:Hr1.
      { apply recoverable_removelast in Hr1. destruct (Hrec Hfe). congruence. }
      reflexivity.
    + destruct (recoverable 0 (set_garbage (removelast (_garbage t)) t)) eqn:Hr0.
      { apply recoverable_removelast in Hr0. destruct (Hrec Hfe). congruence. }
      reflexivity.
  - auto.
  - pose proof (wordSkipSteps_length timeStamp (drop (cursor t) (codePoints t))) as Hw.
    rewrite length_drop in Hw. unfold cursor in *.
    apply lookup_lt_Some in Ee.
    unfold commit, deliver. fields. rewrite length_app.
    split; [lia|]. split; [cbn; lia|]. split; [congruence|].
    intros _. split; apply recoverable_nil; reflexivity.
  - apply lookup_lt_Some in Ee. unfold cursor in Ee.
    unfold commit, deliver. fields. rewrite length_app. cbn [length].
    split; [lia|]. split; [cbn; lia|]. split; [congruence|].
    intros _. split; apply recoverable_nil; reflexivity.
  - pose proof (mistyped_fields t c timeStamp) as (Hcp & _ & _ & _ & Hst & _ & _).
    set (t1 := mistyped t c timeStamp) in *.
    destruct (recoveredSteps_cons off t1 e) as (g0 & _ & Hr);
      [unfold cursor; rewrite Hcp, Hst; assumption|assumption|].
    assert (Hlen : length (_garbage t1) = 3 + off).
    { apply recoverable_mistyped; [|assumption].
      destruct (Hrec Hfe) as [Hr1 Hr0].
      destruct off as [|[|off]]; [assumption|assumption|lia]. }
    pose proof Hyes as Hc. apply recoverable_spec in Hc as (_ & Hc & _).
    unfold cursor in Hc. rewrite Hcp, Hst in Hc.
    rewrite Hr. unfold commit, deliver. fields.
    rewrite Hcp, Hst, length_app. cbn [length]. rewrite length_map, length_drop, Hlen.
    split; [lia|]. split; [cbn; lia|]. split; [congruence|].
    intros _. split; apply recoverable_nil; reflexivity.
  - pose proof (mistyped_fields t c timeStamp) as (Hcp & _ & Hfe & _ & Hst & Hty' & _).
    rewrite Hcp, Hst, Hfe.
    split; [assumption|]. split; [|split; [auto|assumption]].
    destruct (mistyped_garbage t c timeStamp) as [E|[Hlt E]]; rewrite E; fields.
    + assumption.
    + rewrite length_app. cbn [length]. lia.
Qed.

Lemma stable_new (cps : list Z) (soe fe ssw : bool) : stable (new cps soe fe ssw).
Proof.
  unfold stable, new, reset. fields. cbn [length].
  split; [lia|]. split; [unfold garbageBufferLength; lia|]. split; [congruence|].
  intros _. split; apply recoverable_nil; reflexivity.
Qed.

Lemma stable_reset (t : TextInput) : stable (reset t).
Proof.
  unfold stable, reset. fields. cbn [length].
  split; [lia|]. split; [unfold garbageBufferLength; lia|]. split; [congruence|].
  intros _. split; apply recoverable_nil; reflexivity.
Qed.

Lemma reachable_stable (t : TextInput) : reachable t -> stable t.
Proof.
  induction 1 as [cps soe fe ssw|t _ _|t t' cp ts fb _ IH Hstep].
  - apply stable_new.
  - apply stable_reset.
  - destruct (step_transition _ _ _ _ _ Hstep) as [e Ht].
    exact (stable_transition _ _ _ _ _ _ IH Ht).
Qed.

(** On a machine whose cursor is inside the text or at its end, [step]
    returns or throws the error of a completed text; it never reads outside
    an array and its loop never runs out of fuel. *)
Theorem step_not_stuck (cp timeStamp : Z) (t : TextInput) :
  length (_steps t) <= length (codePoints t) ->
  step cp timeStamp t <> Stuck.
Proof.
  intros Hle. rewrite step_eq. cbv zeta.
  destruct (completed t) eqn:Hc; [discriminate|].
  unfold completed in Hc. apply Nat.eqb_neq in Hc.
  destruct (lookup_lt_is_Some_2 (codePoints t) (cursor t)) as [e Ee];
    [unfold cursor; lia|].
  rewrite Ee. discriminate.
Qed.

Lemma reachable_run (inputs : list (Z * Z)) : forall t : TextInput,
  reachable t -> reachable (snd (run t inputs)).
Proof.
  induction inputs as [|input inputs IH]; intros t Hr; [exact Hr|].
  rewrite run_cons. cbn [snd]. apply IH.
  destruct (run1_cases t input) as [(fb & t' & Hstep & Hrun)|Hsame].
  - rewrite Hrun. cbn [snd]. exact (reach_step _ _ _ _ _ Hr Hstep).
  - rewrite Hsame. exact Hr.
Qed.

Lemma set_typo_same (t : TextInput) : _typo t = true -> set_typo true t = t.
Proof. destruct t. cbn. intros ->. reflexivity. Qed.

(** C7 (amended) -- Garbage-buffer bound.  A reachable machine holds at most
    10 keystrokes in its garbage buffer.  When the buffer is full, a further
    mistyped keystroke returns [Failed] without an error and leaves the
    machine as it was: the keystroke is dropped and the buffer keeps the 10
    keystrokes it holds. *)
Theorem garbage_buffer_bound (t : TextInput) :
  reachable t ->
  length (_garbage t) <= garbageBufferLength /\
  (forall cp timeStamp,
     length (_garbage t) = garbageBufferLength ->
     mismatchAt t cp ->
     step cp timeStamp t = Ok (Failed, t)).
Proof.
  intros Hr. apply reachable_stable in Hr as (Hs & Hg & Hty & Hrec).
  split; [exact Hg|].
  intros cp timeStamp Hfull (e & Ee & Hm).
  rewrite step_eq, (cursor_inside _ _ Ee), Ee. cbv zeta.
  rewrite (stepOutcome_mismatch _ _ _ _ Hm). cbv zeta.
  assert (Ht1 : mistyped t (normalizeWhitespace cp) timeStamp = t).
  { destruct (mistyped_garbage t (normalizeWhitespace cp) timeStamp)
      as [E|[Hlt _]]; [|lia].
    rewrite E. apply set_typo_same. apply Hty.
    intros Hnil. rewrite Hnil in Hfull. discriminate. }
  rewrite Ht1.
  destruct (forgiveErrors t); [|reflexivity].
  destruct (Hrec eq_refl) as [-> ->]. reflexivity.
Qed.

(** The cursor of a reachable machine is inside the text or at its end. *)
Lemma reachable_cursor (t : TextInput) :
  reachable t -> length (_steps t) <= length (codePoints t).
Proof. intros Hr. apply reachable_stable in Hr as (Hs & _). exact Hs. Qed.

(** ** Determinism *)

Lemma mistyped_forget (t : TextInput) (c timeStamp : Z) :
  mistyped (forget t) c timeStamp = forget (mistyped t c timeStamp).
Proof.
  unfold mistyped, forget. cbv zeta. fields.
  destruct ((negb (stopOnError t) || forgiveErrors t)
            && (length (_garbage t) <? garbageBufferLength)); reflexivity.
Qed.

(** [step] neither reads the listener's log nor lets it decide anything. *)
Lemma stepOutcome_forget (e c timeStamp : Z) (t : TextInput) :
  fst (stepOutcome e c timeStamp (forget t)) = fst (stepOutcome e c timeStamp t) /\
  forget (snd (stepOutcome e c timeStamp (forget t)))
  = forget (snd (stepOutcome e c timeStamp t)).
Proof.
  unfold stepOutcome. cbv zeta. rewrite mistyped_forget.
  change (leadingSpace (forget t) c) with (leadingSpace t c).
  change (_garbage (forget t)) with (_garbage t).
  change (wordStart (forget t)) with (wordStart t).
  change (spaceSkipsWords (forget t)) with (spaceSkipsWords t).
  change (matches e c (forget t)) with (matches e c t).
  change (forgiveErrors (forget t)) with (forgiveErrors t).
  change (_typo (forget t)) with (_typo t).
  change (recoverable 1 (forget (mistyped t c timeStamp)))
    with (recoverable 1 (mistyped t c timeStamp)).
  change (recoverable 0 (forget (mistyped t c timeStamp)))
    with (recoverable 0 (mistyped t c timeStamp)).
  destruct (leadingSpace t c); [split; reflexivity|].
  destruct (c =? 8)%Z.
  { destruct (0 <? length (_garbage t)); split; reflexivity. }
  destruct ((c =? 32)%Z && negb (isWhitespace e) && wordStart t);
    [split; reflexivity|].
  destruct ((c =? 32)%Z && negb (isWhitespace e) && spaceSkipsWords t);
    [split; reflexivity|].
  destruct (matches e c t); [split; reflexivity|].
  destruct (forgiveErrors t && recoverable 1 (mistyped t c timeStamp));
    [split; reflexivity|].
  destruct (forgiveErrors t && recoverable 0 (mistyped t c timeStamp));
    split; reflexivity.
Qed.

Lemma run1_eq (t : TextInput) (input : Z * Z) :
  run1 t input
  = (outcome (step (fst input) (snd input) t),
     match step (fst input) (snd input) t with
     | Ok (_, t') => t'
     | _ => t
     end).
Proof.
  unfold run1. destruct (step (fst input) (snd input) t) as [[fb t']| |];
    reflexivity.
Qed.

Lemma run1_forget (t : TextInput) (input : Z * Z) :
  fst (run1 (forget t) input) = fst (run1 t input) /\
  forget (snd (run1 (forget t) input)) = forget (snd (run1 t input)).
Proof.
  rewrite !run1_eq. cbn [fst snd]. rewrite !step_eq. cbv zeta.
  change (completed (forget t)) with (completed t).
  change (codePoints (forget t) !! cursor (forget t))
    with (codePoints t !! cursor t).
  change (leadingSpace (forget t) (normalizeWhitespace (fst input)))
    with (leadingSpace t (normalizeWhitespace (fst input))).
  destruct (completed t); [split; reflexivity|].
  assert (Hout : forall e,
    outcome (Ok (stepOutcome e (normalizeWhitespace (fst input)) (snd input) (forget t)))
    = outcome (Ok (stepOutcome e (normalizeWhitespace (fst input)) (snd input) t)) /\
    forget (let (_, t') := stepOutcome e (normalizeWhitespace (fst input)) (snd input) (forget t) in t')
    = forget (let (_, t') := stepOutcome e (normalizeWhitespace (fst input)) (snd input) t in t')).
  { intros e.
    destruct (stepOutcome_forget e (normalizeWhitespace (fst input)) (snd input) t)
      as [Hf Hs].
    destruct (stepOutcome e (normalizeWhitespace (fst input)) (snd input) (forget t)),
      (stepOutcome e (normalizeWhitespace (fst input)) (snd input) t).
    cbn [fst snd outcome] in *. subst. split; [reflexivity|assumption]. }
  destruct (codePoints t !! cursor t) as [e|]; [apply Hout|].
  destruct (leadingSpace t (normalizeWhitespace (fst input))
            || (normalizeWhitespace (fst input) =? 8)%Z);
    [apply Hout|split; reflexivity].
Qed.

Lemma run_forget (inputs : list (Z * Z)) : forall t1 t2 : TextInput,
  forget t1 = forget t2 ->
  fst (run t1 inputs) = fst (run t2 inputs) /\
  forget (snd (run t1 inputs)) = forget (snd (run t2 inputs)).
Proof.
  induction inputs as [|input inputs IH]; intros t1 t2 Hf.
  - split; [reflexivity|exact Hf].
  - rewrite !run_cons. cbn [fst snd].
    destruct (run1_forget t1 input) as [Ha1 Hb1].
    destruct (run1_forget t2 input) as [Ha2 Hb2].
    rewrite Hf in Ha1, Hb1.
    assert (Hnext : forget (snd (run1 t1 input)) = forget (snd (run1 t2 input)))
      by congruence.
    destruct (IH _ _ Hnext) as [Hr Hs].
    split; [|exact Hs]. f_equal; [congruence|exact Hr].
Qed.

Lemma transition_config (e c timeStamp : Z) (t t' : TextInput) (fb : Feedback) :
  Transition e c timeStamp t fb t' ->
  codePoints t' = codePoints t /\ stopOnError t' = stopOnError t /\
  forgiveErrors t' = forgiveErrors t /\ spaceSkipsWords t' = spaceSkipsWords t.
Proof.
  pose proof (mistyped_fields t c timeStamp) as (H1 & H2 & H3 & H4 & _).
  intros Ht. destruct Ht; repeat split; assumption.
Qed.

Lemma run_config (inputs : list (Z * Z)) : forall t : TextInput,
  codePoints (snd (run t inputs)) = codePoints t /\
  stopOnError (snd (run t inputs)) = stopOnError t /\
  forgiveErrors (snd (run t inputs)) = forgiveErrors t /\
  spaceSkipsWords (snd (run t inputs)) = spaceSkipsWords t.
Proof.
  induction inputs as [|input inputs IH]; intros t; [repeat split|].
  rewrite run_cons. cbn [snd].
  destruct (IH (snd (run1 t input))) as (H1 & H2 & H3 & H4).
  rewrite H1, H2, H3, H4.
  destruct (run1_cases t input) as [(fb & t' & Hstep & Hrun)|Hsame].
  - rewrite Hrun. cbn [snd].
    destruct (step_transition _ _ _ _ _ Hstep) as [e Ht].
    exact (transition_config _ _ _ _ _ _ Ht).
  - rewrite Hsame. repeat split.
Qed.

Lemma forget_reset_run (cps : list Z) (soe fe ssw : bool) (inputs : list (Z * Z)) :
  forget (reset (snd (run (new cps soe fe ssw) inputs)))
  = forget (new cps soe fe ssw).
Proof.
  destruct (run_config inputs (new cps soe fe ssw)) as (H1 & H2 & H3 & H4).
  unfold forget, reset. unfold set_heard, set_typo, set_garbage, set_steps.
  fields. rewrite H1, H2, H3, H4. reflexivity.
Qed.

End MachineFacts.

(** ** Replay *)

Section Replay.
Context {U : Unicode} {A : Attrs}.

(** C9 -- Replay determinism.  For every target, settings and input
    sequence: running the sequence on a new machine, calling [reset()] and
    running the same sequence again gives the same feedback values (and the
    same errors), the same committed steps, the same garbage buffer and typo
    flag, and -- on code points and attributes in range, whatever the
    character cache holds by then -- the same [getChars()] projection. *)
Theorem replay_determinism (cps : list Z) (soe fe ssw : bool)
    (inputs : list (Z * Z)) :
  let first := run (new cps soe fe ssw) inputs in
  let second := run (reset (snd first)) inputs in
  fst second = fst first /\
  getSteps (snd second) = getSteps (snd first) /\
  forget (snd second) = forget (snd first) /\
  (attrsInRange -> drawable (snd first) ->
   forall cache1 cache2, cacheOk cache1 -> cacheOk cache2 ->
   exists chars w1 w2,
     getChars (mkWorld (snd first) cache1) = Ok (chars, w1) /\
     getChars (mkWorld (snd second) cache2) = Ok (chars, w2)).
Proof.
  cbv zeta.
  destruct (run_forget inputs _ _ (forget_reset_run cps soe fe ssw inputs))
    as [Hfb Hst].
  split; [exact Hfb|]. split; [exact (f_equal _steps Hst)|].
  split; [exact Hst|].
  intros Ha Hd cache1 cache2 Hok1 Hok2.
  set (t1 := snd (run (new cps soe fe ssw) inputs)) in *.
  set (t2 := snd (run (reset t1) inputs)) in *.
  destruct (getChars_ok (mkWorld t1 cache1) Ha Hok1 Hd)
    as (w1 & E1 & _).
  assert (Hd2 : drawable t2).
  { change (drawable (forget t2)). rewrite Hst. exact Hd. }
  destruct (getChars_ok (mkWorld t2 cache2) Ha Hok2 Hd2)
    as (w2 & E2 & _).
  exists (charsOf t1), w1, w2. split; [exact E1|].
  rewrite E2. cbn [this].
  change (charsOf t2) with (charsOf (forget t2)). rewrite Hst. reflexivity.
Qed.

End Replay.

(** ** More about the machine *)

Section MachineMore.
Context {U : Unicode}.

(** X1 -- Leading spaces.  While nothing is committed, nothing is buffered
    and the typo flag is unset, every keystroke that normalizes to a space
    returns [Succeeded] and leaves the machine as it was, whatever the text
    begins with: a sequence of such keystrokes commits nothing and delivers
    nothing to the listener. *)
Theorem leading_spaces_absorbed (t : TextInput) (inputs : list (Z * Z)) :
  completed t = false ->
  _steps t = [] -> _garbage t = [] -> _typo t = false ->
  Forall (fun input => normalizeWhitespace (fst input) = 0x0020%Z) inputs ->
  run t inputs = (map (fun _ => Ok Succeeded) inputs, t).
Proof.
  intros Hc Hs Hg Hty Hall.
  induction Hall as [|[cp ts] inputs Hsp _ IH]; [reflexivity|].
  cbn [fst] in Hsp. rewrite run_cons.
  assert (Hstep : step cp ts t = Ok (Succeeded, t)).
  { rewrite step_eq, Hc. cbv zeta. rewrite Hsp.
    assert (Hlead : leadingSpace t 32 = true).
    { unfold leadingSpace. rewrite Hs, Hg, Hty. reflexivity. }
    unfold stepOutcome. rewrite Hlead. cbn [orb].
    destruct (codePoints t !! cursor t); reflexivity. }
  unfold run1. cbn [fst snd]. rewrite Hstep. cbn [fst snd map].
  rewrite IH. reflexivity.
Qed.

(** X2 -- Backspace undoes a buffered keystroke.  When a mistyped keystroke
    was buffered (buffering active, room in the buffer) and the call
    returned [Failed], a backspace right after it returns [Succeeded] and
    restores the machine of before the keystroke, except that the typo flag
    stays set. *)
Theorem backspace_undoes_mismatch (cp timeStamp bs timeStamp' : Z)
    (t t1 : TextInput) :
  mismatchAt t cp ->
  negb (stopOnError t) || forgiveErrors t = true ->
  length (_garbage t) < garbageBufferLength ->
  step cp timeStamp t = Ok (Failed, t1) ->
  normalizeWhitespace bs = 0x0008%Z ->
  _garbage t1 = _garbage t ++ [mkStep (normalizeWhitespace cp) timeStamp false] /\
  step bs timeStamp' t1 = Ok (Succeeded, set_typo true t).
Proof.
  intros (e & Ee & Hm) Hbuf Hroom Hstep Hbs.
  rewrite step_eq, (cursor_inside _ _ Ee), Ee in Hstep. cbv zeta in Hstep.
  rewrite (stepOutcome_mismatch _ _ _ _ Hm) in Hstep. cbv zeta in Hstep.
  set (c := normalizeWhitespace cp) in *.
  assert (Ht1 : mistyped t c timeStamp
                = set_garbage (_garbage t ++ [mkStep c timeStamp false])
                    (set_typo true t)).
  { unfold mistyped. cbv zeta. fields. rewrite Hbuf.
    apply Nat.ltb_lt in Hroom. rewrite Hroom. reflexivity. }
  assert (Et1 : t1 = mistyped t c timeStamp).
  { destruct (forgiveErrors t && recoverable 1 (mistyped t c timeStamp));
      [discriminate|].
    destruct (forgiveErrors t && recoverable 0 (mistyped t c timeStamp));
      [discriminate|].
    injection Hstep as <-. reflexivity. }
  rewrite Ht1 in Et1. subst t1. split; [reflexivity|].
  rewrite step_eq. cbv zeta. rewrite Hbs.
  change (completed (set_garbage (_garbage t ++ [mkStep c timeStamp false])
                       (set_typo true t))) with (completed t).
  rewrite (cursor_inside _ _ Ee).
  change (codePoints (set_garbage (_garbage t ++ [mkStep c timeStamp false])
                        (set_typo true t))
          !! cursor (set_garbage (_garbage t ++ [mkStep c timeStamp false])
                       (set_typo true t)))
    with (codePoints t !! cursor t).
  rewrite Ee. unfold stepOutcome, leadingSpace. fields.
  rewrite length_app. cbn [length Z.eqb Pos.eqb].
  rewrite andb_false_r.
  replace (0 <? length (_garbage t) + 1) with true
    by (symmetry; apply Nat.ltb_lt; lia).
  rewrite removelast_last. reflexivity.
Qed.

(** X3 -- A reachable machine never runs past its text: the cursor is at
    most the length of the target, a buffered keystroke means that the typo
    flag is set, and a call of [step] throws exactly when the text is
    completed and otherwise returns a feedback value (it never reads outside
    the target or the buffers). *)
Theorem reachable_step_total (t : TextInput) :
  reachable t ->
  length (_steps t) <= length (codePoints t) /\
  (_garbage t <> [] -> _typo t = true) /\
  forall cp timeStamp,
    (completed t = true /\ step cp timeStamp t = Thrown) \/
    (completed t = false /\
     exists fb t', step cp timeStamp t = Ok (fb, t') /\ reachable t').
Proof.
  intros Hr. pose proof (reachable_stable _ Hr) as (Hs & _ & Hty & _).
  split; [exact Hs|]. split; [exact Hty|].
  intros cp timeStamp.
  pose proof (step_not_stuck cp timeStamp t Hs) as Hns.
  destruct (completed t) eqn:Hc.
  - left. split; [reflexivity|]. rewrite step_eq, Hc. reflexivity.
  - right. split; [reflexivity|].
    destruct (step cp timeStamp t) as [[fb t']| |] eqn:Hstep.
    + exists fb, t'. split; [reflexivity|]. exact (reach_step _ _ _ _ _ Hr Hstep).
    + rewrite step_eq, Hc in Hstep. cbv zeta in Hstep.
      destruct (codePoints t !! cursor t); [discriminate|].
      destruct (leadingSpace t (normalizeWhitespace cp)
                || (normalizeWhitespace cp =? 8)%Z); discriminate.
    + contradiction.
Qed.

(** X4 -- The listener hears every committed step exactly once and in the
    order of commitment: after any sequence of calls on a new machine, what
    [#onStep] has received is the committed history. *)
Theorem listener_hears_history (cps : list Z) (soe fe ssw : bool)
    (inputs : list (Z * Z)) :
  heard (snd (run (new cps soe fe ssw) inputs))
  = getSteps (snd (run (new cps soe fe ssw) inputs)).
Proof.
  assert (Hgen : forall inputs t, heard t = _steps t ->
            heard (snd (run t inputs)) = _steps (snd (run t inputs))).
  { clear inputs. induction inputs as [|input inputs IH]; intros t Ht;
      [exact Ht|].
    rewrite run_cons. cbn [snd]. apply IH.
    destruct (run1_cases t input) as [(fb & t' & Hstep & Hrun)|Hsame].
    - rewrite Hrun. cbn [snd].
      destruct (step_commits _ _ _ _ _ Hstep) as (new & Hs & Hh & _).
      rewrite Hs, Hh, Ht. reflexivity.
    - rewrite Hsame. exact Ht. }
  apply Hgen. reflexivity.
Qed.

(** X5 -- With [stopOnError] and without [forgiveErrors] nothing is ever
    buffered: the garbage buffer of a reachable machine is empty, so a
    backspace always returns [Failed]. *)
Theorem stop_on_error_never_buffers (t : TextInput) :
  reachable t ->
  stopOnError t = true -> forgiveErrors t = false ->
  _garbage t = [] /\
  forall bs timeStamp,
    completed t = false -> normalizeWhitespace bs = 0x0008%Z ->
    step bs timeStamp t = Ok (Failed, t).
Proof.
  intros Hr Hsoe Hfe.
  assert (Hg : _garbage t = []).
  { induction Hr as [cps soe fe ssw|t _ _|t t' cp ts fb _ IH Hstep];
      [reflexivity|reflexivity|].
    destruct (step_transition _ _ _ _ _ Hstep) as [e Ht].
    destruct (transition_config _ _ _ _ _ _ Ht) as (_ & H2 & H3 & _).
    rewrite H2 in Hsoe. rewrite H3 in Hfe. specialize (IH Hsoe Hfe).
    destruct Ht as [Hc Hg0 Hwhy|Hc Hne|Hc Hg0|Hc Ee Hws Hnl Hnws Hskip|Hne Ee Hm
                   |off Ee Hreach Hfe' Hoff Hyes Hfirst|Ee Hreach Hno];
      try reflexivity; try assumption; try contradiction; try congruence.
    unfold mistyped. cbv zeta. fields. rewrite Hsoe, Hfe. exact IH. }
  split; [exact Hg|].
  intros bs timeStamp Hc Hbs. rewrite step_eq, Hc. cbv zeta. rewrite Hbs.
  unfold stepOutcome, leadingSpace. rewrite Hg.
  cbn [length Z.eqb Pos.eqb Nat.ltb Nat.leb orb]. rewrite andb_false_r.
  destruct (codePoints t !! cursor t); reflexivity.
Qed.

End MachineMore.

Section MachineHistory.
Context {U : Unicode}.

Lemma wordPrefix_take (rest : list Z) :
  take (length (wordPrefix rest)) rest = wordPrefix rest.
Proof.
  induction rest as [|c rest IH]; [reflexivity|]. cbn [wordPrefix].
  destruct (isWhitespace c); [reflexivity|]. cbn [length take].
  rewrite IH. reflexivity.
Qed.

(** A word-skip commits the characters of the target, in order. *)
Lemma wordSkipSteps_codePoints (timeStamp : Z) (l : list Z) :
  codePoint <$> wordSkipSteps timeStamp l
  = take (length (wordSkipSteps timeStamp l)) l.
Proof.
  destruct l as [|c rest]; [reflexivity|]. cbn [wordSkipSteps].
  set (word := wordPrefix rest).
  cbn [length fmap list_fmap take codePoint]. f_equal.
  rewrite fmap_app, length_app, length_map.
  rewrite <- list_fmap_compose.
  assert (Hw : (codePoint ∘ (fun c0 => mkStep c0 timeStamp true)) <$> word = word).
  { rewrite <- (list_fmap_id word) at 2. apply list_fmap_ext. reflexivity. }
  rewrite Hw.
  pose proof (wordPrefix_take rest) as Ht. fold word in Ht.
  destruct (drop (length word) rest) as [|w r] eqn:Ed.
  - cbn [length fmap list_fmap]. rewrite app_nil_r, Nat.add_0_r. symmetry. exact Ht.
  - cbn [length fmap list_fmap codePoint].
    rewrite <- (take_drop (length word) rest) at 1.
    rewrite Ht, Ed.
    rewrite take_app_ge by lia.
    replace (length word + 1 - length word) with 1 by lia. reflexivity.
Qed.

(** What a recovery commits in a stable machine: the four characters from
    the cursor on. *)
Lemma recoveredSteps_codePoints (off : nat) (t : TextInput) :
  recoverable off t = true ->
  length (_garbage t) = 3 + off ->
  codePoint <$> recoveredSteps off t = take 4 (drop (cursor t) (codePoints t))
  /\ length (recoveredSteps off t) = 4.
Proof.
  intros Hrec Hlen. pose proof Hrec as Hspec.
  apply recoverable_spec in Hspec as (_ & Hcur & Hall).
  destruct (lookup_lt_is_Some_2 (codePoints t) (cursor t)) as [e Ee]; [lia|].
  destruct (recoveredSteps_cons off t e Ee Hrec) as (g0 & _ & Hr).
  rewrite Hr.
  assert (Hl : length (map asHit (drop off (_garbage t))) = 3).
  { rewrite length_map, length_drop. lia. }
  split; [|cbn [length]; lia].
  apply list_eq. intros i.
  rewrite lookup_take. rewrite lookup_drop.
  destruct i as [|i].
  - cbn. rewrite Nat.add_0_r, Ee. reflexivity.
  - rewrite fmap_cons, lookup_cons.
    destruct (Nat.lt_ge_cases i 3) as [Hi|Hi].
    + rewrite decide_True by lia.
      change (map asHit (drop off (_garbage t))) with (asHit <$> drop off (_garbage t)).
      rewrite !list_lookup_fmap, lookup_drop.
      replace (cursor t + S i) with (cursor t + i + 1) by lia.
      rewrite <- (Hall i Hi). replace (off + i) with (i + off) by lia.
      destruct (_garbage t !! (i + off)); reflexivity.
    + rewrite decide_False by lia.
      apply lookup_ge_None. rewrite length_fmap. lia.
Qed.


Lemma follows_commit (t : TextInput) (new : list Step) :
  follows t ->
  Forall2 standsFor (take (length new) (drop (cursor t) (codePoints t))) new ->
  follows (commit t new).
Proof.
  unfold follows, commit, deliver, cursor. fields. intros Hold Hnew.
  rewrite length_app.
  pose proof (Forall2_length _ _ _ Hold) as Hlen.
  rewrite length_take in Hlen.
  rewrite <- (take_drop (length (_steps t)) (codePoints t)) at 1.
  rewrite take_app_ge by (rewrite length_take; lia).
  rewrite length_take.
  replace (length (_steps t) + length new
           - length (_steps t) `min` length (codePoints t))
    with (length new) by lia.
  apply Forall2_app; assumption.
Qed.

Lemma follows_exact (l : list Z) (new : list Step) :
  codePoint <$> new = l -> Forall2 standsFor l new.
Proof.
  intros <-. induction new as [|s new IH]; constructor; [|exact IH].
  left. reflexivity.
Qed.

Lemma follows_transition (e c timeStamp : Z) (t t' : TextInput) (fb : Feedback) :
  stable t -> follows t -> Transition e c timeStamp t fb t' -> follows t'.
Proof.
  intros (Hs & Hg & Hty & Hrec) Hf Ht.
  destruct Ht as [Hc Hg0 Hwhy|Hc Hne|Hc Hg0|Hc Ee Hws Hnl Hnws Hskip|Hne Ee Hm
                 |off Ee Hreach Hfe Hoff Hyes Hfirst|Ee Hreach Hno].
  - exact Hf.
  - exact Hf.
  - exact Hf.
  - apply follows_commit; [exact Hf|].
    apply follows_exact. apply wordSkipSteps_codePoints.
  - apply follows_commit; [exact Hf|].
    rewrite (drop_S _ _ _ Ee). cbn [length take].
    constructor; [|constructor]. right.
    unfold matches in Hm. apply andb_prop in Hm as [Hm _].
    apply Z.eqb_eq in Hm. exact Hm.
  - pose proof (mistyped_fields t c timeStamp) as (Hcp & _ & _ & _ & Hst & _ & _).
    set (t1 := mistyped t c timeStamp) in *.
    assert (Hf1 : follows t1).
    { unfold follows. rewrite Hcp, Hst. exact Hf. }
    assert (Hlen : length (_garbage t1) = 3 + off).
    { apply recoverable_mistyped; [|assumption].
      destruct (Hrec Hfe) as [Hr1 Hr0].
      destruct off as [|[|off]]; [assumption|assumption|lia]. }
    destruct (recoveredSteps_codePoints off t1 Hyes Hlen) as [Hcps Hl4].
    apply follows_commit; [exact Hf1|].
    rewrite Hl4. apply follows_exact. exact Hcps.
  - pose proof (mistyped_fields t c timeStamp) as (Hcp & _ & _ & _ & Hst & _ & _).
    unfold follows. rewrite Hcp, Hst. exact Hf.
Qed.

(** X6 -- The committed history follows the target.  In every reachable
    machine the step at position [i] of the history stands for the
    character at position [i] of the target: its code point is that
    character (a step made up by a recovery or a word-skip, or a recovered
    keystroke) or the typed code point that the character normalizes to. *)
Theorem history_follows_target (t : TextInput) (i : nat) (s : Step) :
  reachable t ->
  _steps t !! i = Some s ->
  exists e, codePoints t !! i = Some e /\
            (codePoint s = e \/ normalize e = codePoint s).
Proof.
  intros Hr Hi.
  assert (Hf : follows t).
  { clear Hi. induction Hr as [cps soe fe ssw|t _ _|t t' cp ts fb Hr IH Hstep].
    - constructor.
    - constructor.
    - destruct (step_transition _ _ _ _ _ Hstep) as [e Ht].
      exact (follows_transition _ _ _ _ _ _ (reachable_stable _ Hr) IH Ht). }
  unfold follows in Hf.
  destruct (Forall2_lookup_r _ _ _ _ _ Hf Hi) as (e & He & Hse).
  exists e. split; [|exact Hse].
  apply lookup_take_Some in He as [He _]. exact He.
Qed.

Lemma commit_clean (t : TextInput) (new : list Step) :
  _garbage t = [] -> _typo t = false -> commit t new = deliver t new.
Proof.
  destruct t. unfold commit, deliver. fields. intros -> ->. reflexivity.
Qed.

(** Typing what is left of the text correctly, from a machine with nothing
    buffered and the typo flag unset. *)
Lemma run_correct (target : list Z) : forall (inputs : list (Z * Z)) (t : TextInput),
  drop (cursor t) (codePoints t) = target ->
  _garbage t = [] -> _typo t = false ->
  correctFrom (bool_decide (_steps t = [])) target inputs ->
  run t inputs
  = (map (fun _ => Ok Succeeded) inputs, deliver t (typed <$> inputs)).
Proof.
  induction target as [|e target IH]; intros inputs t Hdrop Hg Hty Hok.
  - destruct inputs; [|contradiction]. cbn. rewrite deliver_nil. reflexivity.
  - destruct inputs as [|[cp ts] inputs]; [contradiction|].
    cbn [correctFrom fst] in Hok. destruct Hok as (Hn & Hbs & Hsp & Hrest).
    assert (Ee : codePoints t !! cursor t = Some e).
    { rewrite <- (Nat.add_0_r (cursor t)), <- lookup_drop, Hdrop. reflexivity. }
    assert (Hstep : step cp ts t = Ok (Succeeded, deliver t [typed (cp, ts)])).
    { rewrite step_eq, (cursor_inside _ _ Ee), Ee. cbv zeta.
      set (c := normalizeWhitespace cp) in *.
      unfold stepOutcome.
      assert (Hlead : leadingSpace t c = false).
      { unfold leadingSpace. destruct (Z.eqb_spec c 32) as [Hc|Hc];
          [|apply andb_false_r].
        destruct (Hsp Hc) as [_ Hfirst].
        apply bool_decide_eq_false in Hfirst.
        destruct (_steps t); [contradiction|reflexivity]. }
      assert (Hspace : (c =? 32)%Z && negb (isWhitespace e) = false).
      { destruct (Z.eqb_spec c 32) as [Hc|Hc]; [|reflexivity].
        destruct (Hsp Hc) as [-> _]. reflexivity. }
      assert (Hmatch : matches e c t = true).
      { unfold matches. rewrite Hg. cbn [length Nat.eqb].
        rewrite orb_true_r, andb_true_r. apply Z.eqb_eq. exact Hn. }
      rewrite Hlead, Hspace, Hmatch. apply Z.eqb_neq in Hbs. rewrite Hbs.
      cbn [andb]. rewrite Hty. rewrite commit_clean by assumption. reflexivity. }
    rewrite run_cons. unfold run1. cbn [fst snd]. rewrite Hstep. cbn [fst snd].
    rewrite IH.
    + cbn [map fmap list_fmap]. rewrite deliver_deliver. reflexivity.
    + unfold cursor. rewrite deliver_steps, deliver_codePoints, length_app.
      cbn [length]. unfold cursor in Ee, Hdrop.
      rewrite (drop_S _ _ _ Ee) in Hdrop.
      replace (length (_steps t) + 1) with (S (length (_steps t))) by lia.
      congruence.
    + rewrite deliver_garbage. exact Hg.
    + exact Hty.
    + rewrite deliver_steps. rewrite bool_decide_eq_false_2; [exact Hrest|].
      destruct (_steps t); discriminate.
Qed.

(** X7 -- Typing the text correctly.  When every keystroke types the next
    character of the target (its normalized code point is what the character
    normalizes to, it is no backspace, and a space is typed only for a
    whitespace character after the first keystroke), every call returns
    [Succeeded], the history is the normalized keystrokes with their time
    stamps and no typo, nothing stays buffered, and the text is completed. *)
Theorem typing_correctly_completes (cps : list Z) (soe fe ssw : bool)
    (inputs : list (Z * Z)) :
  correctFrom true cps inputs ->
  let result := run (new cps soe fe ssw) inputs in
  fst result = map (fun _ => Ok Succeeded) inputs /\
  getSteps (snd result) = typed <$> inputs /\
  _garbage (snd result) = [] /\ _typo (snd result) = false /\
  completed (snd result) = true.
Proof.
  intros Hok. cbv zeta.
  assert (Hlen : forall first target ins,
            correctFrom first target ins -> length ins = length target).
  { intros first target. revert first.
    induction target as [|e target IH]; intros first [|input ins] H;
      try contradiction; [reflexivity|].
    cbn in H. destruct H as (_ & _ & _ & H). cbn [length]. f_equal.
    exact (IH _ _ H). }
  rewrite (run_correct cps inputs (new cps soe fe ssw));
    [|reflexivity|reflexivity|reflexivity|exact Hok].
  cbn [fst snd]. split; [reflexivity|]. split; [reflexivity|].
  split; [reflexivity|]. split; [reflexivity|].
  unfold completed. rewrite deliver_steps, deliver_codePoints.
  cbn [new reset _steps codePoints set_typo set_garbage set_steps app].
  rewrite length_fmap, (Hlen _ _ _ Hok). apply Nat.eqb_refl.
Qed.

End MachineHistory.

(** ** More about rendering *)

(** X8 -- The key of the character cache tells code points and attributes
    apart: for code points up to 0x10FFFF and attributes below 256, equal
    keys mean equal code points and equal attributes. *)
Theorem charKey_separates (c1 a1 c2 a2 : Z) :
  isCodePoint c1 -> isAttr a1 -> isCodePoint c2 -> isAttr a2 ->
  charKey c1 a1 = charKey c2 a2 -> c1 = c2 /\ a1 = a2.
Proof.
  intros Hc1 Ha1 Hc2 Ha2 Hk.
  rewrite (charKey_eq c1 a1 Hc1 Ha1), (charKey_eq c2 a2 Hc2 Ha2) in Hk.
  assert (Hb : forall a, isAttr a -> (-128 <= signedByte a < 128)%Z /\
            (signedByte a = a \/ signedByte a = a - 256)%Z).
  { intros a Ha. unfold isAttr in Ha. unfold signedByte.
    destruct (Z.ltb_spec a 128); lia. }
  destruct (Hb a1 Ha1) as [Hr1 Hs1], (Hb a2 Ha2) as [Hr2 Hs2].
  unfold isCodePoint, isAttr in *. change (2 ^ 24)%Z with 16777216%Z in Hk.
  lia.
Qed.


Section RenderingMore.
Context {A : Attrs}.

Lemma charsAt_length (t : TextInput) (i : nat) (c : Z) :
  length (charsAt t i c)
  = 1 + (if i =? cursor t
         then if stopOnError t then 0 else length (_garbage t)
         else 0).
Proof.
  unfold charsAt, cursor.
  destruct (Nat.compare_spec i (length (_steps t))) as [Heq|Hlt|Hgt].
  - rewrite (proj2 (Nat.eqb_eq _ _) Heq). rewrite length_app. cbn [length].
    destruct (stopOnError t); [reflexivity|]. rewrite length_map. lia.
  - rewrite (proj2 (Nat.eqb_neq _ _)) by lia.
    destruct (lookup_lt_is_Some_2 (_steps t) i Hlt) as [s Es]. rewrite Es.
    reflexivity.
  - rewrite (proj2 (Nat.eqb_neq _ _)) by lia. reflexivity.
Qed.

Lemma charsFrom_length (t : TextInput) (l : list Z) : forall i : nat,
  length (concat (imap (fun j => charsAt t (i + j)) l))
  = length l
    + (if (i <=? cursor t) && (cursor t <? i + length l)
       then if stopOnError t then 0 else length (_garbage t)
       else 0).
Proof.
  induction l as [|c l IH]; intros i.
  - cbn [imap concat length]. rewrite Nat.add_0_r.
    destruct (Nat.leb_spec i (cursor t)), (Nat.ltb_spec (cursor t) i);
      cbn [andb]; lia.
  - rewrite imap_cons. cbn [concat length]. rewrite length_app, charsAt_length.
    rewrite Nat.add_0_r.
    assert (Hext : imap ((fun j => charsAt t (i + j)) ∘ S) l
                   = imap (fun j => charsAt t (S i + j)) l).
    { apply imap_ext. intros j x _. cbn. f_equal. lia. }
    rewrite Hext, IH.
    destruct (Nat.eqb_spec i (cursor t)), (Nat.leb_spec i (cursor t)),
      (Nat.leb_spec (S i) (cursor t)), (Nat.ltb_spec (cursor t) (S i + length l)),
      (Nat.ltb_spec (cursor t) (i + S (length l)));
      cbn [andb]; lia.
Qed.

(** X10 -- The projection covers the whole text.  [getChars] returns one
    character for every position of the target and, when the cursor is
    inside the text and [stopOnError] is unset, one more for every buffered
    keystroke. *)
Theorem getChars_length (w : World) :
  attrsInRange -> cacheOk (charCache w) -> drawable (this w) ->
  exists chars w',
    getChars w = Ok (chars, w') /\
    length chars
    = length (codePoints (this w))
      + (if (cursor (this w) <? length (codePoints (this w)))
            && negb (stopOnError (this w))
         then length (_garbage (this w)) else 0).
Proof.
  intros Ha Hok Hd.
  destruct (getChars_ok w Ha Hok Hd) as (w' & E & _).
  exists (charsOf (this w)), w'. split; [exact E|].
  unfold charsOf.
  pose proof (charsFrom_length (this w) (codePoints (this w)) 0) as Hl.
  cbn [Nat.add Nat.leb andb] in Hl.
  refine (eq_trans Hl _).
  destruct (cursor (this w) <? length (codePoints (this w)));
    destruct (stopOnError (this w)); reflexivity.
Qed.

End RenderingMore.

(** ** What the feedback tells *)

Section MachineFeedback.
Context {U : Unicode}.

(** X21 -- What the feedback tells.  A call of [step] never changes the
    text or the settings and never removes a committed step.  When it
    returns [Succeeded], it committed nothing, or exactly the typed
    character as a correct step while no typo was outstanding; when it
    returns [Recovered], it committed at least one step, the first of them
    a typo, and left the garbage buffer empty and the typo flag cleared. *)
Theorem feedback_meaning (cp timeStamp : Z) (t t' : TextInput) (fb : Feedback) :
  step cp timeStamp t = Ok (fb, t') ->
  (codePoints t' = codePoints t /\ stopOnError t' = stopOnError t /\
   forgiveErrors t' = forgiveErrors t /\ spaceSkipsWords t' = spaceSkipsWords t) /\
  (fb = Succeeded ->
   _steps t' = _steps t \/
   (_typo t = false /\
    _steps t' = _steps t ++ [mkStep (normalizeWhitespace cp) timeStamp false])) /\
  (fb = Recovered ->
   exists s new,
     _steps t' = _steps t ++ s :: new /\ typo s = true /\
     _garbage t' = [] /\ _typo t' = false).
Proof.
  intros Hstep. destruct (step_transition _ _ _ _ _ Hstep) as [e Ht].
  split; [exact (transition_config _ _ _ _ _ _ Ht)|].
  destruct Ht as [Hc Hg0 Hwhy|Hc Hne|Hc Hg0|Hc Ee Hws Hnl Hnws Hskip|Hne Ee Hm
                 |off Ee Hreach Hfe Hoff Hyes Hfirst|Ee Hreach Hno].
  - split; [intros _; left; reflexivity|discriminate].
  - split; [intros _; left; reflexivity|discriminate].
  - split; discriminate.
  - split; [discriminate|]. intros _.
    destruct (wordSkipSteps_cons timeStamp t e Ee) as [rest Hrest].
    rewrite Hrest. exists (mkStep e timeStamp true), rest.
    repeat split.
  - destruct (_typo t) eqn:Hty.
    + split; [discriminate|]. intros _.
      exists (mkStep (normalizeWhitespace cp) timeStamp true), [].
      repeat split.
    + split; [|discriminate]. intros _. right. split; reflexivity.
  - split; [discriminate|]. intros _.
    assert (Ee' : codePoints (mistyped t (normalizeWhitespace cp) timeStamp)
                    !! cursor (mistyped t (normalizeWhitespace cp) timeStamp)
                  = Some e).
    { destruct (mistyped_fields t (normalizeWhitespace cp) timeStamp)
        as (H1 & _ & _ & _ & H5 & _).
      unfold cursor. rewrite H1, H5. exact Ee. }
    destruct (recoveredSteps_cons off _ e Ee' Hyes) as (g0 & Hg0 & Hrec).
    rewrite Hrec. eexists _, _. split; [|split; [|split; reflexivity]].
    + unfold commit, deliver. fields.
      destruct (mistyped_fields t (normalizeWhitespace cp) timeStamp)
        as (_ & _ & _ & _ & H5 & _).
      rewrite H5. reflexivity.
    + reflexivity.
  - split; discriminate.
Qed.

(** X22 -- The expected character typed over buffered garbage.  On a
    reachable machine with keystrokes in the garbage buffer, the character
    that the target expects (neither backspace nor space) is accepted when
    [forgiveErrors] is set: it is committed as a typo, the buffer is
    dropped and the call returns [Recovered].  Without [forgiveErrors] it
    is rejected like any wrong character: the call returns [Failed] and
    commits nothing, and the buffer has to be emptied first. *)
Theorem expected_character_over_garbage (cp timeStamp e : Z) (t : TextInput) :
  reachable t ->
  _garbage t <> [] ->
  codePoints t !! cursor t = Some e ->
  normalizeWhitespace cp = normalize e ->
  normalize e <> 0x0008%Z -> normalize e <> 0x0020%Z ->
  (forgiveErrors t = true ->
   step cp timeStamp t
   = Ok (Recovered, commit t [mkStep (normalize e) timeStamp true])) /\
  (forgiveErrors t = false ->
   step cp timeStamp t = Ok (Failed, mistyped t (normalize e) timeStamp) /\
   _steps (mistyped t (normalize e) timeStamp) = _steps t).
Proof.
  intros Hr Hg Ee Hcp H8 H32.
  destruct (reachable_stable t Hr) as (_ & _ & Hty & _). specialize (Hty Hg).
  assert (Hlen : (length (_garbage t) =? 0) = false).
  { destruct (_garbage t); [contradiction|reflexivity]. }
  apply Z.eqb_neq in H8. apply Z.eqb_neq in H32.
  rewrite step_eq, (cursor_inside _ _ Ee), Ee. cbv zeta. rewrite Hcp.
  unfold stepOutcome, leadingSpace, matches. rewrite H8, H32, Hlen, Hty.
  rewrite Z.eqb_refl.
  cbn [andb orb negb]. rewrite andb_false_r. cbn [andb orb].
  split; intros Hfe; rewrite Hfe; cbn [andb orb]; [reflexivity|].
  split; [reflexivity|].
  exact (proj1 (proj2 (proj2 (proj2 (proj2 (mistyped_fields t _ _)))))).
Qed.

(** X23 -- A space at the beginning of a word.  While nothing is buffered,
    a space typed when the cursor is on the first character of a word --
    the character before the cursor is whitespace, the one at the cursor
    is not -- is ignored: [step] returns [Succeeded] and the machine is as
    before, whatever [spaceSkipsWords] and the typo flag are. *)
Theorem space_at_word_start_ignored (cp timeStamp e p : Z) (t : TextInput) :
  normalizeWhitespace cp = 0x0020%Z ->
  _garbage t = [] ->
  codePoints t !! cursor t = Some e -> isWhitespace e = false ->
  cursor t <> 0 ->
  codePoints t !! (cursor t - 1) = Some p -> isWhitespace p = true ->
  step cp timeStamp t = Ok (Succeeded, t).
Proof.
  intros Hcp Hg Ee Hws Hc Ep Hpw.
  rewrite step_eq, (cursor_inside _ _ Ee), Ee. cbv zeta. rewrite Hcp.
  unfold stepOutcome, leadingSpace, wordStart. rewrite Hg, Hws, Ep, Hpw.
  unfold cursor in Hc. apply Nat.eqb_neq in Hc. rewrite Hc.
  cbn [length Nat.eqb andb orb negb Z.eqb Pos.eqb]. reflexivity.
Qed.

End MachineFeedback.

(** ** Where a word-skip lands *)

Section WordSkip.
Context {U : Unicode}.

Lemma wordSkip_tail (timeStamp : Z) (rest : list Z) :
  let tail :=
    map (fun c => mkStep c timeStamp true) (wordPrefix rest)
    ++ match drop (length (wordPrefix rest)) rest with
       | [] => []
       | w :: _ => [mkStep w timeStamp false]
       end in
  (forall i x, i < length tail -> rest !! i = Some x ->
     tail !! i = Some (mkStep x timeStamp (negb (isWhitespace x))) /\
     (isWhitespace x = true -> S i = length tail)) /\
  (length tail = length rest \/
   exists w, 0 < length tail /\ rest !! (length tail - 1) = Some w /\
             isWhitespace w = true).
Proof.
  induction rest as [|c rest IH]; cbv zeta.
  - split; [intros i x Hi; cbn in Hi; lia|left; reflexivity].
  - cbn [wordPrefix]. destruct (isWhitespace c) eqn:Ec.
    + cbn [length drop map app]. split.
      * intros i x Hi Hx. assert (i = 0) as -> by lia.
        cbn in Hx. injection Hx as <-. rewrite Ec. split; reflexivity.
      * right. exists c. cbn. split; [lia|]. split; [reflexivity|exact Ec].
    + cbn [length drop map app]. cbv zeta in IH. destruct IH as [IHs IHl].
      split.
      * intros [|i] x Hi Hx.
        -- cbn in Hx. injection Hx as <-. rewrite Ec. split; [reflexivity|].
           intros H; discriminate.
        -- change (rest !! i = Some x) in Hx. rewrite lookup_cons.
           cbn [length] in Hi.
           destruct (IHs i x ltac:(lia) Hx) as [Hs Hlast].
           split; [exact Hs|]. intros Hw. cbn [length]. f_equal.
           exact (Hlast Hw).
      * destruct IHl as [Hl|(w & Hpos & Hw & Hws)].
        -- left. cbn [length]. f_equal. exact Hl.
        -- right. exists w. cbn [length]. split; [lia|]. split; [|exact Hws].
           replace (S _ - 1) with (S (length (map (fun c0 => mkStep c0 timeStamp true) (wordPrefix rest) ++ match drop (length (wordPrefix rest)) rest with [] => [] | w0 :: _ => [mkStep w0 timeStamp false] end) - 1)) by lia.
           rewrite lookup_cons. exact Hw.
Qed.

(** X15 -- Where a word-skip lands.  Under the conditions of a word-skip,
    [step] returns [Recovered]; the cursor moves forward and stays inside
    the text; every character it passes is committed with the time stamp of
    the space key, as a typo exactly when it is not whitespace, and only the
    last character passed can be whitespace; the new cursor is at the end of
    the text or right after a whitespace character; the earlier history is
    kept, the garbage buffer is empty and the typo flag is cleared. *)
Theorem word_skip_lands (cp timeStamp e : Z) (t : TextInput) :
  normalizeWhitespace cp = 0x0020%Z ->
  codePoints t !! cursor t = Some e ->
  isWhitespace e = false ->
  (_garbage t <> [] \/
   exists p, cursor t <> 0 /\ codePoints t !! (cursor t - 1) = Some p /\
             isWhitespace p = false) ->
  spaceSkipsWords t = true ->
  exists t',
    step cp timeStamp t = Ok (Recovered, t') /\
    codePoints t' = codePoints t /\
    cursor t < cursor t' <= length (codePoints t) /\
    take (cursor t) (_steps t') = _steps t /\
    _garbage t' = [] /\ _typo t' = false /\
    (forall i x, cursor t <= i < cursor t' -> codePoints t !! i = Some x ->
       _steps t' !! i = Some (mkStep x timeStamp (negb (isWhitespace x))) /\
       (isWhitespace x = true -> S i = cursor t')) /\
    (completed t' = true \/
     exists w, codePoints t !! (cursor t' - 1) = Some w /\
               isWhitespace w = true).
Proof.
  intros Hsp Ee Hws Hin Hskip.
  exists (commit t (wordSkipSteps timeStamp (drop (cursor t) (codePoints t)))).
  split.
  { rewrite step_eq, (cursor_inside _ _ Ee), Ee. cbv zeta.
    unfold stepOutcome. rewrite Hsp, Hws, Hskip. cbn [negb andb Z.eqb Pos.eqb].
    assert (Hlead : leadingSpace t 32 = false).
    { unfold leadingSpace. destruct Hin as [Hg|(p & Hc & _)].
      - destruct (_garbage t); [contradiction|]. cbn [length Nat.eqb].
        rewrite andb_false_r. reflexivity.
      - unfold cursor in Hc. apply Nat.eqb_neq in Hc. rewrite Hc. reflexivity. }
    assert (Hstart : wordStart t = false).
    { unfold wordStart. destruct Hin as [Hg|(p & Hc & Hp & Hpw)].
      - destruct (_garbage t); [contradiction|]. reflexivity.
      - rewrite Hp, Hpw. unfold cursor in Hc. apply Nat.eqb_neq in Hc.
        rewrite Hc. apply andb_false_r. }
    rewrite Hlead, Hstart. reflexivity. }
  pose proof (lookup_lt_Some _ _ _ Ee) as Hlt.
  pose proof (drop_S _ _ _ Ee) as Hdrop.
  set (rest := drop (S (cursor t)) (codePoints t)) in *.
  rewrite Hdrop. cbn [wordSkipSteps]. cbv zeta.
  destruct (wordSkip_tail timeStamp rest) as [Hs Hl]. cbv zeta in Hs, Hl.
  set (tail := map (fun c => mkStep c timeStamp true) (wordPrefix rest)
               ++ match drop (length (wordPrefix rest)) rest with
                  | [] => []
                  | w :: _ => [mkStep w timeStamp false]
                  end) in *.
  assert (Hrest : length rest = length (codePoints t) - S (cursor t)).
  { unfold rest. apply length_drop. }
  assert (Htail : length tail <= length rest).
  { destruct Hl as [Hl|(w & _ & Hw & _)]; [lia|].
    apply lookup_lt_Some in Hw. lia. }
  unfold completed, cursor in *. unfold commit, deliver. fields.
  rewrite length_app. cbn [length].
  split; [reflexivity|]. split; [lia|].
  split; [rewrite take_app_length; reflexivity|].
  split; [reflexivity|]. split; [reflexivity|]. split.
  - intros i x Hi Hx.
    destruct (decide (i = length (_steps t))) as [->|Hne].
    + rewrite Hx in Ee. injection Ee as ->.
      rewrite lookup_app_r by lia. rewrite Nat.sub_diag. cbn [lookup list_lookup].
      rewrite Hws. split; [reflexivity|]. intros H; discriminate.
    + rewrite lookup_app_r by lia.
      destruct (i - length (_steps t)) as [|j] eqn:Ej; [lia|].
      rewrite lookup_cons.
      assert (Hx' : rest !! j = Some x).
      { unfold rest. rewrite lookup_drop.
        replace (S (length (_steps t)) + j) with i by lia. exact Hx. }
      destruct (Hs j x ltac:(lia) Hx') as [Hstep Hlast].
      split; [exact Hstep|]. intros Hw. specialize (Hlast Hw). lia.
  - destruct Hl as [Hl|(w & Hpos & Hw & Hww)].
    + left. apply Nat.eqb_eq. lia.
    + right. exists w. split; [|exact Hww].
      unfold rest in Hw. rewrite lookup_drop in Hw.
      replace (length (_steps t) + S (length tail) - 1)
        with (S (length (_steps t)) + (length tail - 1)) by lia.
      exact Hw.
Qed.

End WordSkip.

(** ** More about the histogram *)

Lemma insertSample_filter (c : Z) (a : Sample) (l : list Sample) :
  filter (fun s => sample_codePoint s = c) (insertSample a l)
  = filter (fun s => sample_codePoint s = c) (a :: l).
Proof.
  induction l as [|b l IH]; [reflexivity|]. cbn [insertSample].
  destruct (decide (byCodePoint a b)) as [Hle|Hgt]; [reflexivity|].
  unfold byCodePoint in Hgt.
  rewrite (filter_cons _ b), IH, !(filter_cons _ a), (filter_cons _ b).
  destruct (decide (sample_codePoint a = c)) as [Ea|Ea];
    destruct (decide (sample_codePoint b = c)) as [Eb|Eb];
    try reflexivity.
  lia.
Qed.

Lemma sortSamples_filter (c : Z) (l : list Sample) :
  filter (fun s => sample_codePoint s = c) (sortSamples l)
  = filter (fun s => sample_codePoint s = c) l.
Proof.
  induction l as [|a l IH]; [reflexivity|]. cbn [sortSamples foldr].
  fold (sortSamples l). rewrite insertSample_filter, !(filter_cons _ a), IH.
  reflexivity.
Qed.

Lemma foldl_insert_last (c : Z) (l : list Sample) : forall m : gmap Z Sample,
  foldl (fun m sample => <[sample_codePoint sample := sample]> m) m l !! c
  = match last (filter (fun s => sample_codePoint s = c) l) with
    | Some s => Some s
    | None => m !! c
    end.
Proof.
  induction l as [|x l IH]; intros m; [reflexivity|].
  cbn [foldl]. rewrite IH, filter_cons.
  destruct (decide (sample_codePoint x = c)) as [Ex|Ex].
  - rewrite last_cons.
    destruct (last (filter (fun s => sample_codePoint s = c) l));
      [reflexivity|].
    rewrite <- Ex. apply lookup_insert_eq.
  - destruct (last (filter (fun s => sample_codePoint s = c) l));
      [reflexivity|].
    apply lookup_insert_ne. exact Ex.
Qed.

(** X24 -- Samples with the same code point.  Of the samples given to the
    constructor that carry a code point, [get] returns the one given last:
    the sort keeps their order and each entry of the map replaces the one
    before it.  For a code point that no sample carries, [get] returns
    [null]. *)
Theorem Histogram_constructor_last_wins (samples : list Sample) (c : Z) :
  Histogram_get (Histogram_new samples) c
  = last (filter (fun s => sample_codePoint s = c) samples).
Proof.
  unfold Histogram_get, Histogram_new. cbn [_data].
  rewrite foldl_insert_last, sortSamples_filter, lookup_empty.
  destruct (last (filter (fun s => sample_codePoint s = c) samples));
    reflexivity.
Qed.

Lemma size_by_keys {V} (m : gmap Z V) (keys : list Z) :
  NoDup keys ->
  (forall c, is_Some (m !! c) <-> c ∈ keys) ->
  size m = length keys.
Proof.
  intros Hnd Hdom. rewrite <- length_map_to_list.
  rewrite <- (length_fmap fst (map_to_list m)).
  apply Permutation_length. apply NoDup_Permutation.
  - apply NoDup_fst_map_to_list.
  - exact Hnd.
  - intros c. rewrite <- Hdom. split.
    + intros Hc. apply list_elem_of_fmap in Hc as ([k v] & -> & Hkv).
      apply elem_of_map_to_list in Hkv. exists v. exact Hkv.
    + intros [v Hv]. apply list_elem_of_fmap. exists (c, v).
      split; [reflexivity|]. apply elem_of_map_to_list. exact Hv.
Qed.

(** X11 -- The constructor and the lookups.  For samples with distinct code
    points, [get] returns for the code point of each sample that sample and
    [has] is true, for any other code point [get] returns [null] and [has]
    is false, and [complexity] is the number of samples. *)
Theorem Histogram_constructor_lookup (samples : list Sample) :
  NoDup (sample_codePoint <$> samples) ->
  (forall s, s ∈ samples ->
     Histogram_get (Histogram_new samples) (sample_codePoint s) = Some s /\
     Histogram_has (Histogram_new samples) (sample_codePoint s) = true) /\
  (forall c, c ∉ sample_codePoint <$> samples ->
     Histogram_get (Histogram_new samples) c = None /\
     Histogram_has (Histogram_new samples) c = false) /\
  Histogram_complexity (Histogram_new samples) = length samples.
Proof.
  intros Hnd.
  assert (Hin : forall s, s ∈ samples ->
            Histogram_get (Histogram_new samples) (sample_codePoint s) = Some s).
  { intros s Hs.
    exact (proj1 (Histogram_new_lookup samples _ Hnd) s Hs eq_refl). }
  assert (Hout : forall c, c ∉ sample_codePoint <$> samples ->
            Histogram_get (Histogram_new samples) c = None).
  { intros c Hc. exact (proj2 (Histogram_new_lookup samples c Hnd) Hc). }
  split; [|split].
  - intros s Hs. split; [exact (Hin s Hs)|].
    unfold Histogram_has. apply bool_decide_eq_true.
    exists s. exact (Hin s Hs).
  - intros c Hc. split; [exact (Hout c Hc)|].
    unfold Histogram_has. apply bool_decide_eq_false.
    intros [v Hv]. unfold Histogram_get in Hout. rewrite (Hout c Hc) in Hv.
    discriminate.
  - unfold Histogram_complexity.
    rewrite <- (length_fmap sample_codePoint samples).
    apply size_by_keys; [exact Hnd|].
    intros c. split.
    + intros [v Hv].
      destruct (decide (c ∈ sample_codePoint <$> samples)) as [Hc|Hc];
        [exact Hc|].
      unfold Histogram_get in Hout. rewrite (Hout c Hc) in Hv. discriminate.
    + intros Hc. apply list_elem_of_fmap in Hc as (s & -> & Hs).
      exists s. exact (Hin s Hs).
Qed.

Lemma hitsOf_occurs (c : Z) (steps : list Step) :
  hitsOf c steps <> 0%Z <-> c ∈ codePoint <$> steps.
Proof.
  induction steps as [|s steps IH].
  - split; [intros H; contradiction H; reflexivity|intros H; inversion H].
  - rewrite hitsOf_cons, fmap_cons, elem_of_cons.
    pose proof (hitsOf_nonneg c steps) as Hnn.
    destruct (decide (codePoint s = c)) as [E|E].
    + rewrite bool_decide_eq_true_2 by exact E.
      split; [intros _; left; congruence|intros _; lia].
    + rewrite bool_decide_eq_false_2 by exact E. rewrite Z.add_0_l, IH.
      split; [intros H; right; exact H|intros [H|H]; [congruence|exact H]].
Qed.

Lemma missesOf_bounds (c : Z) (steps : list Step) :
  (0 <= missesOf c steps <= hitsOf c steps)%Z.
Proof.
  induction steps as [|s steps IH]; [unfold missesOf, hitsOf; cbn; lia|].
  rewrite hitsOf_cons, missesOf_cons.
  destruct (bool_decide (codePoint s = c)), (typo s); cbn [andb]; lia.
Qed.

(** What [Histogram.from] holds for a code point. *)
Lemma Histogram_from_get (steps : list Step) (startedAt : option Z) (c : Z) :
  Histogram_get (Histogram_from steps startedAt) c
  = (fun tally => toSample (c, tally)) <$> tallyAdd None c startedAt steps.
Proof.
  unfold Histogram_from. cbv zeta. rewrite Histogram_from_lookup.
  rewrite from_body_lookup, lookup_empty.
  destruct startedAt; reflexivity.
Qed.

Lemma latencies_nonneg (c : Z) (steps : list Step) : forall last : option Z,
  nondecreasing last steps -> (0 <= sumZ (latencies c last steps))%Z.
Proof.
  induction steps as [|s steps IH]; intros last Hmono; [cbn; lia|].
  cbn [nondecreasing] in Hmono. destruct Hmono as [Hs Hrest].
  cbn [latencies]. rewrite sumZ_app. specialize (IH _ Hrest).
  destruct (bool_decide (codePoint s = c) && negb (typo s));
    [|cbn [sumZ foldr]; lia].
  destruct last as [t0|]; cbn [sumZ foldr]; lia.
Qed.

(** X12 -- The samples of [Histogram.from].  A code point has a sample
    exactly when a step carries it; the sample carries that code point, its
    [hitCount] is at least 1 -- the divisor of [Math.round(timeToType /
    hitCount)] is never zero -- and its [missCount] lies between 0 and
    [hitCount]; when the time stamps never go back, its [timeToType] is not
    negative. *)
Theorem Histogram_from_samples (steps : list Step) (startedAt : option Z) (c : Z) :
  (Histogram_has (Histogram_from steps startedAt) c = true
   <-> c ∈ codePoint <$> steps) /\
  (forall s, Histogram_get (Histogram_from steps startedAt) c = Some s ->
     sample_codePoint s = c /\
     (1 <= hitCount s)%Z /\ (0 <= missCount s <= hitCount s)%Z /\
     (nondecreasing startedAt steps -> (0 <= timeToType s)%Z)).
Proof.
  pose proof (Histogram_from_get steps startedAt c) as Hget.
  pose proof (hitsOf_occurs c steps) as Hocc.
  pose proof (hitsOf_nonneg c steps) as Hnn.
  pose proof (missesOf_bounds c steps) as Hmb.
  unfold tallyAdd in Hget.
  split.
  - unfold Histogram_has. rewrite bool_decide_eq_true.
    unfold Histogram_get in Hget. rewrite Hget, <- Hocc.
    destruct (decide (hitsOf c steps = 0%Z)) as [E|E];
      cbn [fmap option_fmap option_map].
    + split; [intros [v Hv]; discriminate|intros H; contradiction].
    + split; [intros _; exact E|intros _; eexists; reflexivity].
  - intros s Hs. rewrite Hget in Hs.
    destruct (decide (hitsOf c steps = 0%Z)) as [E|E];
      cbn [fmap option_fmap option_map default] in Hs; [discriminate|].
    injection Hs as <-. unfold toSample.
    cbn [fst snd sample_codePoint hitCount missCount timeToType
         tally_hitCount tally_missCount tally_timeToType].
    split; [reflexivity|]. split; [lia|]. split; [lia|].
    intros Hmono. pose proof (latencies_nonneg c steps startedAt Hmono) as Hl.
    unfold mathRoundDiv. apply Z.div_pos; lia.
Qed.

(** X13 -- The complexity of [Histogram.from] is the number of distinct code
    points of the steps; the histogram of no steps is empty. *)
Theorem Histogram_from_complexity (steps : list Step) (startedAt : option Z) :
  Histogram_complexity (Histogram_from steps startedAt)
  = length (remove_dups (codePoint <$> steps)).
Proof.
  unfold Histogram_complexity. apply size_by_keys; [apply NoDup_remove_dups|].
  intros c. rewrite elem_of_remove_dups, <- hitsOf_occurs.
  pose proof (Histogram_from_get steps startedAt c) as Hget.
  unfold Histogram_get in Hget. rewrite Hget. unfold tallyAdd.
  destruct (decide (hitsOf c steps = 0%Z)) as [E|E];
    cbn [fmap option_fmap option_map].
  - split; [intros [v Hv]; discriminate|intros H; contradiction].
  - split; [intros _; exact E|intros _; eexists; reflexivity].
Qed.

Lemma sum_indicator (x : Z) (cs : list Z) :
  NoDup cs -> x ∈ cs ->
  sumZ ((fun c => if bool_decide (x = c) then 1 else 0)%Z <$> cs) = 1%Z.
Proof.
  induction cs as [|c cs IH]; intros Hnd Hx; [inversion Hx|].
  apply NoDup_cons in Hnd as [Hc Hnd]. rewrite fmap_cons. cbn [sumZ foldr].
  fold (sumZ ((fun c0 => if bool_decide (x = c0) then 1 else 0)%Z <$> cs)).
  apply elem_of_cons in Hx as [->|Hx].
  - rewrite bool_decide_eq_true_2 by reflexivity.
    assert (Hz : sumZ ((fun c0 => if bool_decide (c = c0) then 1 else 0)%Z <$> cs)
                 = 0%Z).
    { clear IH Hnd. induction cs as [|c' cs IH]; [reflexivity|].
      apply not_elem_of_cons in Hc as [Hne Hc]. rewrite fmap_cons.
      cbn [sumZ foldr].
      fold (sumZ ((fun c0 => if bool_decide (c = c0) then 1 else 0)%Z <$> cs)).
      rewrite bool_decide_eq_false_2 by exact Hne. rewrite (IH Hc). reflexivity. }
    rewrite Hz. reflexivity.
  - rewrite bool_decide_eq_false_2 by (intros ->; contradiction).
    rewrite (IH Hnd Hx). reflexivity.
Qed.

Lemma sum_hitsOf (steps : list Step) (cs : list Z) :
  NoDup cs -> (forall s, s ∈ steps -> codePoint s ∈ cs) ->
  sumZ ((fun c => hitsOf c steps) <$> cs) = Z.of_nat (length steps).
Proof.
  intros Hnd. induction steps as [|s steps IH]; intros Hall.
  - cbn [length]. clear Hnd Hall. induction cs as [|c cs IHc]; [reflexivity|].
    rewrite fmap_cons. cbn [sumZ foldr].
    fold (sumZ ((fun c0 => hitsOf c0 []) <$> cs)). rewrite IHc.
    reflexivity.
  - assert (Hsplit : forall l : list Z,
      sumZ ((fun c => hitsOf c (s :: steps)) <$> l)
      = (sumZ ((fun c => if bool_decide (codePoint s = c) then 1 else 0)%Z <$> l)
         + sumZ ((fun c => hitsOf c steps) <$> l))%Z).
    { induction l as [|c l IHl]; [reflexivity|]. rewrite !fmap_cons.
      cbn [sumZ foldr].
      fold (sumZ ((fun c0 => hitsOf c0 (s :: steps)) <$> l)).
      fold (sumZ ((fun c0 => if bool_decide (codePoint s = c0) then 1 else 0)%Z <$> l)).
      fold (sumZ ((fun c0 => hitsOf c0 steps) <$> l)).
      rewrite IHl, hitsOf_cons. lia. }
    rewrite Hsplit, IH.
    + rewrite sum_indicator; [cbn [length]; lia|exact Hnd|].
      apply Hall. left.
    + intros s' Hs'. apply Hall. right. exact Hs'.
Qed.

(** X14 -- Every step is counted once.  The [hitCount]s of the samples of
    [Histogram.from], taken over the distinct code points of the steps, add
    up to the number of steps. *)
Theorem Histogram_from_counts_every_step (steps : list Step) (startedAt : option Z) :
  sumZ ((fun c =>
           match Histogram_get (Histogram_from steps startedAt) c with
           | Some s => hitCount s
           | None => 0%Z
           end) <$> remove_dups (codePoint <$> steps))
  = Z.of_nat (length steps).
Proof.
  rewrite <- (sum_hitsOf steps (remove_dups (codePoint <$> steps))).
  - f_equal. apply list_fmap_ext. intros i c _.
    rewrite Histogram_from_get. unfold tallyAdd.
    destruct (decide (hitsOf c steps = 0%Z)) as [E|E];
      cbn [fmap option_fmap option_map default]; [symmetry; exact E|].
    unfold toSample. cbn [snd hitCount tally_hitCount]. lia.
  - apply NoDup_remove_dups.
  - intros s Hs. apply elem_of_remove_dups. apply list_elem_of_fmap_2. exact Hs.
Qed.

(** ** The result storage *)

Section StorageFacts.
Context {T : StorageTypes} {W : Type}.
Implicit Types (env : Env W) (w : W).

Lemma exec_tryCatch {X} env (m : Async X) (message : string) : forall w,
  exec env (tryCatch m (fun err => Reject (DatabaseError message err))) w
  = translated message (exec env m w).
Proof.
  induction m as [x|err|q k IH|c k IH]; intros w; cbn [tryCatch exec];
    try reflexivity.
  - destruct (answer env q w) as [r w1]. rewrite IH.
    destruct (exec env (k r) w1) as [[out w2] calls]. reflexivity.
  - destruct (perform env c w) as [r w1]. rewrite IH.
    destruct (exec env (k r) w1) as [[out w2] calls]. reflexivity.
Qed.

(** X16 -- [translateErrors].  Whatever storage it wraps and whatever the
    environment answers, each method of the wrapper makes the calls of the
    wrapped method and leaves the environment as that method does; a value
    is handed on as it is, and every error is thrown again as a
    [DatabaseError] that carries the message of the operation and the
    original error as its cause. *)
Theorem translateErrors_wraps env (storage : ResultStorage) w :
  (forall progressListener,
     exec env (storage_load (translateErrors storage) progressListener) w
     = translated "Cannot read records from database"
         (exec env (storage_load storage progressListener) w)) /\
  (forall results progressListener,
     exec env (storage_append (translateErrors storage) results progressListener) w
     = translated "Cannot add records to database"
         (exec env (storage_append storage results progressListener) w)) /\
  exec env (storage_clear (translateErrors storage)) w
  = translated "Cannot clear database" (exec env (storage_clear storage) w).
Proof.
  split; [|split]; intros; cbn [translateErrors storage_load storage_append
    storage_clear]; apply exec_tryCatch.
Qed.

(** [load] of the storage of a named user, case by case. *)
Lemma named_load_eq env (userId : string) progressListener w :
  let l := default noProgress progressListener in
  let receive := RemoteReceive ResultSyncNamedUser l in
  let failed err := inl (DatabaseError "Cannot read records from database" err) in
  exec env
    (storage_load (openResultStorage (private (Some userId))) progressListener) w
  = match answer env receive w with
    | (inl err, w1) => (failed err, w1, [Asked receive (inl err)])
    | (inr (x :: rs), w1) => (inr (x :: rs), w1, [Asked receive (inr (x :: rs))])
    | (inr [], w1) =>
        match answer env LocalLoad w1 with
        | (inl err, w2) =>
            (failed err, w2, [Asked receive (inr []); Asked LocalLoad (inl err)])
        | (inr [], w2) =>
            (inr [], w2, [Asked receive (inr []); Asked LocalLoad (inr [])])
        | (inr (y :: ls), w2) =>
            let send := RemoteSend ResultSyncNamedUser (y :: ls) l in
            match perform env send w2 with
            | (inl err, w3) =>
                (failed err, w3,
                 [Asked receive (inr []); Asked LocalLoad (inr (y :: ls));
                  Told send (inl err)])
            | (inr u, w3) =>
                match perform env LocalClear w3 with
                | (inl err, w4) =>
                    (failed err, w4,
                     [Asked receive (inr []); Asked LocalLoad (inr (y :: ls));
                      Told send (inr u); Told LocalClear (inl err)])
                | (inr u', w4) =>
                    (inr (y :: ls), w4,
                     [Asked receive (inr []); Asked LocalLoad (inr (y :: ls));
                      Told send (inr u); Told LocalClear (inr u')])
                end
            end
        end
    end.
Proof.
  cbv zeta. cbn [openResultStorage translateErrors storage_load].
  rewrite exec_tryCatch.
  cbn [ResultStorageOfNamedUser storage_load remoteResultSync remote_receive
       remote_send PersistentResultStorage local_load local_clear awaitQuery
       awaitCommand Async_bind exec].
  destruct (answer env _ w) as [[err|[|x rs]] w1];
    cbn [Async_bind exec length Nat.ltb Nat.leb translated]; try reflexivity.
  destruct (answer env LocalLoad w1) as [[err|[|y ls]] w2];
    cbn [Async_bind exec length Nat.ltb Nat.leb translated]; try reflexivity.
  destruct (perform env _ w2) as [[err|u] w3];
    cbn [Async_bind exec translated]; try reflexivity.
  destruct (perform env LocalClear w3) as [[err|u'] w4];
    cbn [Async_bind exec translated]; reflexivity.
Qed.

(** X17 -- The local results are erased only after they were sent.  In
    every run of [load] for a named user in which the local database is
    asked to clear, the remote service had answered with no results, the
    local database with some, and the remote service had accepted exactly
    those results; the clearing is the last call, and [load] returns the
    local results, or the wrapped error if the clearing failed. *)
Theorem named_load_clears_after_send env (userId : string) progressListener
    w out w' calls (r : Exn + unit) :
  exec env
    (storage_load (openResultStorage (private (Some userId))) progressListener) w
  = (out, w', calls) ->
  Told LocalClear r ∈ calls ->
  let l := default noProgress progressListener in
  exists results u,
    results <> [] /\
    calls = [Asked (RemoteReceive ResultSyncNamedUser l) (inr []);
             Asked LocalLoad (inr results);
             Told (RemoteSend ResultSyncNamedUser results l) (inr u);
             Told LocalClear r] /\
    out = match r with
          | inl err =>
              inl (DatabaseError "Cannot read records from database" err)
          | inr _ => inr results
          end.
Proof.
  rewrite named_load_eq. cbv zeta.
  destruct (answer env _ w) as [[err|[|x rs]] w1].
  1,3: intros [= <- <- <-] Hin;
       repeat (apply elem_of_cons in Hin as [Hin|Hin]; [discriminate|]);
       inversion Hin.
  destruct (answer env LocalLoad w1) as [[err|[|y ls]] w2].
  1,2: intros [= <- <- <-] Hin;
       repeat (apply elem_of_cons in Hin as [Hin|Hin]; [discriminate|]);
       inversion Hin.
  destruct (perform env _ w2) as [[err|u] w3].
  { intros [= <- <- <-] Hin.
    repeat (apply elem_of_cons in Hin as [Hin|Hin]; [discriminate|]).
    inversion Hin. }
  destruct (perform env LocalClear w3) as [[err|u'] w4];
    intros [= <- <- <-] Hin;
    do 3 (apply elem_of_cons in Hin as [Hin|Hin]; [discriminate|]);
    (apply elem_of_cons in Hin as [Hin|Hin]; [|inversion Hin]);
    injection Hin as ->; exists (y :: ls), u;
    (split; [discriminate|]); split; reflexivity.
Qed.

(** X18 -- What [load] returns for a named user.  When [load] returns
    results, they are the results of the remote service and nothing else was
    called, or the remote service had none and they are the local results,
    sent to the remote service and then cleared locally; it returns no
    results only when both stores answered with none, and then nothing is
    sent or cleared. *)
Theorem named_load_result env (userId : string) progressListener
    w results w' calls :
  exec env
    (storage_load (openResultStorage (private (Some userId))) progressListener) w
  = (inr results, w', calls) ->
  let l := default noProgress progressListener in
  let receive := RemoteReceive ResultSyncNamedUser l in
  (results <> [] /\ calls = [Asked receive (inr results)]) \/
  (results <> [] /\ exists u u',
     calls = [Asked receive (inr []); Asked LocalLoad (inr results);
              Told (RemoteSend ResultSyncNamedUser results l) (inr u);
              Told LocalClear (inr u')]) \/
  (results = [] /\
   calls = [Asked receive (inr []); Asked LocalLoad (inr [])]).
Proof.
  rewrite named_load_eq. cbv zeta.
  destruct (answer env _ w) as [[err|[|x rs]] w1]; [discriminate| |].
  2: { intros [= <- <- <-]. left. split; [discriminate|reflexivity]. }
  destruct (answer env LocalLoad w1) as [[err|[|y ls]] w2]; [discriminate| |].
  { intros [= <- <- <-]. right. right. split; reflexivity. }
  destruct (perform env _ w2) as [[err|u] w3]; [discriminate|].
  destruct (perform env LocalClear w3) as [[err|u'] w4]; [discriminate|].
  intros [= <- <- <-]. right. left. split; [discriminate|].
  exists u, u'. reflexivity.
Qed.

(** X19 -- The storage of a public user is read-only.  Whatever the
    environment and the arguments, [append] and [clear] make no call, leave
    the environment as it is and throw a [DatabaseError] whose cause is
    [Error("Disabled")]; [load] makes one call, [receive] on the remote
    object of that user, and hands on its results or wraps its error. *)
Theorem public_storage_read_only env (userId : string) w :
  (forall results progressListener,
     exec env
       (storage_append (openResultStorage (public userId)) results progressListener) w
     = (inl (DatabaseError "Cannot add records to database" (Error "Disabled")),
        w, [])) /\
  exec env (storage_clear (openResultStorage (public userId))) w
  = (inl (DatabaseError "Cannot clear database" (Error "Disabled")), w, []) /\
  (forall progressListener,
     let receive :=
       RemoteReceive (ResultSyncPublicUser userId)
         (default noProgress progressListener) in
     exec env (storage_load (openResultStorage (public userId)) progressListener) w
     = (match fst (answer env receive w) with
        | inl err =>
            inl (DatabaseError "Cannot read records from database" err)
        | inr results => inr results
        end,
        snd (answer env receive w),
        [Asked receive (fst (answer env receive w))])).
Proof.
  split; [|split].
  - intros results progressListener. reflexivity.
  - reflexivity.
  - intros progressListener. cbv zeta.
    cbn [openResultStorage translateErrors storage_load].
    rewrite exec_tryCatch.
    cbn [ResultStorageOfPublicUser storage_load remoteResultSync remote_receive
         awaitQuery Async_bind exec].
    destruct (answer env _ w) as [[err|results] w1];
      cbn [Async_bind exec translated fst snd]; reflexivity.
Qed.

(** X20 -- Which store each storage uses.  In every run, the storage of an
    anonymous user calls only the local database; [append] and [clear] of
    the storage of a named user call only the remote object of the named
    user; every method of the storage of a public user calls only the
    remote object of that user. *)
Theorem storage_isolation env w (results : list TypingResult)
    (progressListener : option ProgressListener) (userId : string) :
  let anonymous := openResultStorage (private None) in
  let named := openResultStorage (private (Some userId)) in
  let shared := openResultStorage (public userId) in
  (Forall (fun ev => onLocal ev = true)
     (callsOf env (storage_load anonymous progressListener) w) /\
   Forall (fun ev => onLocal ev = true)
     (callsOf env (storage_append anonymous results progressListener) w) /\
   Forall (fun ev => onLocal ev = true)
     (callsOf env (storage_clear anonymous) w)) /\
  (Forall (fun ev => onRemote ResultSyncNamedUser ev = true)
     (callsOf env (storage_append named results progressListener) w) /\
   Forall (fun ev => onRemote ResultSyncNamedUser ev = true)
     (callsOf env (storage_clear named) w)) /\
  (Forall (fun ev => onRemote (ResultSyncPublicUser userId) ev = true)
     (callsOf env (storage_load shared progressListener) w) /\
   Forall (fun ev => onRemote (ResultSyncPublicUser userId) ev = true)
     (callsOf env (storage_append shared results progressListener) w) /\
   Forall (fun ev => onRemote (ResultSyncPublicUser userId) ev = true)
     (callsOf env (storage_clear shared) w)).
Proof.
  cbv zeta. unfold callsOf.
  cbn [openResultStorage translateErrors storage_load storage_append
       storage_clear].
  rewrite !exec_tryCatch.
  cbn [ResultStorageOfAnonymousUser ResultStorageOfNamedUser
       ResultStorageOfPublicUser storage_load storage_append storage_clear
       remoteResultSync remote_receive remote_send remote_clear
       PersistentResultStorage local_load local_append local_clear
       awaitQuery awaitCommand Async_bind exec].
  assert (Hsame : sameRemote (ResultSyncPublicUser userId)
                    (ResultSyncPublicUser userId) = true).
  { apply bool_decide_eq_true. reflexivity. }
  repeat split;
    try (destruct (answer env _ w) as [[err|rs] w1]);
    try (destruct (perform env _ w) as [[err|u] w1]);
    cbn [Async_bind exec translated snd]; repeat constructor; exact Hsame.
Qed.

End StorageFacts.

(** ** The theorems on concrete input *)

Example ex_replaced :
  run (U := asciiUnicode) (new [97; 98; 99; 100]%Z false true false)
    [(120, 1); (98, 2); (99, 3); (100, 4)]%Z
  = ([Ok Failed; Ok Failed; Ok Failed; Ok Recovered],
     mkTextInput [97; 98; 99; 100]%Z false true false
       [mkStep 97 1 true; mkStep 98 2 false; mkStep 99 3 false; mkStep 100 4 false]
       [] false
       [mkStep 97 1 true; mkStep 98 2 false; mkStep 99 3 false; mkStep 100 4 false]).
Proof. reflexivity. Qed.

Example ex_skipped :
  run (U := asciiUnicode) (new [97; 98; 99; 100]%Z false true false)
    [(98, 1); (99, 2); (100, 3)]%Z
  = ([Ok Failed; Ok Failed; Ok Recovered],
     mkTextInput [97; 98; 99; 100]%Z false true false
       [mkStep 97 1 true; mkStep 98 1 false; mkStep 99 2 false; mkStep 100 3 false]
       [] false
       [mkStep 97 1 true; mkStep 98 1 false; mkStep 99 2 false; mkStep 100 3 false]).
Proof. reflexivity. Qed.

(** [ex_abcd_replaced] satisfies the condition of C1 and recovers:
    "a" as a typo with the time stamp of "x", then "b", "c", "d". *)
Lemma replaced_character_recovery_witness :
  replacedCond ex_abcd_replaced /\
  handleReplacedCharacter ex_abcd_replaced
  = Ok (true,
        mkTextInput [97; 98; 99; 100]%Z false true false
          [mkStep 97 1 true; mkStep 98 2 false; mkStep 99 3 false; mkStep 100 4 false]
          [] false
          [mkStep 97 1 true; mkStep 98 2 false; mkStep 99 3 false; mkStep 100 4 false]).
Proof.
  assert (Hc : replacedCond ex_abcd_replaced).
  { split; [cbn; lia|]. split; [cbn; lia|].
    intros i Hi. destruct i as [|[|[|i]]]; [reflexivity..|lia]. }
  split; [exact Hc|].
  destruct (proj1 (proj2 (replaced_character_recovery (U := asciiUnicode)
                            ex_abcd_replaced)) Hc)
    as (c & g0 & rest & Ec & Eg & E).
  cbn in Ec, Eg. injection Ec as <-. injection Eg as <- <-. exact E.
Defined.

(** [ex_abcd_skipped] satisfies the condition of C2 and recovers: "a" as a
    typo with the time stamp of "b", then "b", "c", "d". *)
Lemma skipped_character_recovery_witness :
  skippedCond ex_abcd_skipped /\
  handleSkippedCharacter ex_abcd_skipped
  = Ok (true,
        mkTextInput [97; 98; 99; 100]%Z false true false
          [mkStep 97 1 true; mkStep 98 1 false; mkStep 99 2 false; mkStep 100 3 false]
          [] false
          [mkStep 97 1 true; mkStep 98 1 false; mkStep 99 2 false; mkStep 100 3 false]).
Proof.
  assert (Hc : skippedCond ex_abcd_skipped).
  { split; [cbn; lia|]. split; [cbn; lia|].
    intros i Hi. destruct i as [|[|[|i]]]; [reflexivity..|lia]. }
  split; [exact Hc|].
  destruct (proj1 (proj2 (skipped_character_recovery (U := asciiUnicode)
                            ex_abcd_skipped)) Hc)
    as (c & g0 & Ec & Eg & E).
  cbn in Ec, Eg. injection Ec as <-. injection Eg as <-. exact E.
Defined.

(** The example of C3: on "foo bar" with the cursor at 0 and a mistyped
    keystroke buffered, a space commits "f", "o", "o" as typos and the space
    as a correct step; the cursor is at 4. *)
Lemma word_skip_witness :
  step (U := asciiUnicode) 32 2 ex_foo_bar
  = Ok (Recovered,
        mkTextInput [102; 111; 111; 32; 98; 97; 114]%Z false false true
          [mkStep 102 2 true; mkStep 111 2 true; mkStep 111 2 true;
           mkStep 32 2 false]
          [] false
          [mkStep 102 2 true; mkStep 111 2 true; mkStep 111 2 true;
           mkStep 32 2 false]).
Proof.
  apply (word_skip (U := asciiUnicode) 32 2 102 ex_foo_bar).
  - reflexivity.
  - reflexivity.
  - reflexivity.
  - left. discriminate.
  - reflexivity.
Defined.

(** The histogram example of the specification: the three steps give
    [hitCount = 3], [missCount = 1] and [timeToType = round (10 / 3) = 3];
    the mean of the latencies measured is 10. *)
Lemma histogram_mean_counterexample :
  Histogram_get (Histogram_from ex_steps None) 97 = Some (mkSample 97 3 1 3) /\
  meanLatency_spec 97 None ex_steps = Some 10%Z /\
  timeToType <$> Histogram_get (Histogram_from ex_steps None) 97
  <> meanLatency_spec 97 None ex_steps.
Proof.
  split; [vm_compute; reflexivity|]. split; [vm_compute; reflexivity|].
  vm_compute. discriminate.
Qed.

(** A mistyped keystroke on a new machine for "ab" returns [Failed] and yet
    changes the garbage buffer and the typo flag. *)
Lemma failed_changes_state_counterexample :
  exists t',
    step (U := asciiUnicode) 120 1 ex_ab = Ok (Failed, t') /\
    _garbage t' <> _garbage ex_ab /\ _typo t' <> _typo ex_ab.
Proof.
  exists (mkTextInput [97; 98]%Z false false false
            [] [mkStep 120 1 false] true []).
  split; [reflexivity|]. split; discriminate.
Qed.

Lemma failed_commits_nothing_witness :
  step (U := asciiUnicode) 120 1 ex_ab
  = Ok (Failed, mistyped ex_ab 120 1) /\
  _steps (mistyped ex_ab 120 1) = _steps ex_ab /\
  heard (mistyped ex_ab 120 1) = heard ex_ab.
Proof.
  split; [reflexivity|].
  destruct (failed_commits_nothing (U := asciiUnicode) 120 1 ex_ab
              (mistyped ex_ab 120 1) eq_refl) as (Hs & Hh & _).
  split; [exact Hs|exact Hh].
Defined.

(** A mismatch on a new machine for "ab" sets the typo flag. *)
Lemma typo_flag_lifecycle_witness :
  step (U := asciiUnicode) 120 1 ex_ab = Ok (Failed, mistyped ex_ab 120 1) /\
  (mismatchAt (U := asciiUnicode) ex_ab 120 /\ Failed = Failed).
Proof.
  split; [reflexivity|].
  exact (proj1 (typo_flag_lifecycle (U := asciiUnicode) 120 1 ex_ab
                  (mistyped ex_ab 120 1) Failed eq_refl) eq_refl eq_refl).
Defined.

(** After eleven mistyped keystrokes the buffer holds the first ten: the
    oldest one is there and the newest one is not. *)
Lemma garbage_keeps_oldest_counterexample :
  codePoint <$> _garbage (snd (run (U := asciiUnicode) ex_ab ex_eleven))
  = [101; 102; 103; 104; 105; 106; 107; 108; 109; 110]%Z /\
  codePoint <$> _garbage (snd (run (U := asciiUnicode) ex_ab ex_eleven))
  <> [102; 103; 104; 105; 106; 107; 108; 109; 110; 111]%Z.
Proof.
  split; [vm_compute; reflexivity|]. vm_compute. discriminate.
Qed.

Lemma garbage_buffer_bound_witness :
  reachable (U := asciiUnicode) ex_ab_full /\
  length (_garbage ex_ab_full) = garbageBufferLength /\
  step (U := asciiUnicode) 111 11 ex_ab_full = Ok (Failed, ex_ab_full).
Proof.
  assert (Hr : reachable (U := asciiUnicode) ex_ab_full).
  { apply reachable_run. apply reach_new. }
  split; [exact Hr|]. split; [reflexivity|].
  apply (proj2 (garbage_buffer_bound (U := asciiUnicode) ex_ab_full Hr)).
  - reflexivity.
  - exists 97%Z. split; reflexivity.
Defined.

(** The projection of "abcd" with "xbcd" buffered: four garbage characters,
    the cursor on "a", then "b", "c", "d" as normal. *)
Lemma rendering_projection_witness :
  exists w' w'',
    getChars (A := exampleAttrs) (mkWorld ex_abcd_replaced ∅)
    = Ok ([mkChar 120 4; mkChar 98 4; mkChar 99 4; mkChar 100 4;
           mkChar 97 8; mkChar 98 0; mkChar 99 0; mkChar 100 0], w') /\
    this w' = ex_abcd_replaced /\
    getChars (A := exampleAttrs) w'
    = Ok ([mkChar 120 4; mkChar 98 4; mkChar 99 4; mkChar 100 4;
           mkChar 97 8; mkChar 98 0; mkChar 99 0; mkChar 100 0], w'') /\
    this w'' = ex_abcd_replaced.
Proof.
  apply (rendering_projection (A := exampleAttrs) (mkWorld ex_abcd_replaced ∅)).
  - unfold attrsInRange, isAttr. cbn. lia.
  - intros k ch Hk. cbn [charCache] in Hk. rewrite lookup_empty in Hk.
    discriminate.
  - split; cbn [this ex_abcd_replaced codePoints _garbage];
      repeat constructor; unfold isCodePoint; cbn; lia.
Defined.

(** The replay of "x", "b" on the target "abcd": both runs draw the same
    characters. *)
Lemma replay_determinism_witness :
  exists chars w1 w2,
    getChars (A := exampleAttrs)
      (mkWorld (snd (run (U := asciiUnicode) (new [97; 98; 99; 100]%Z false true false)
                       [(120, 1); (98, 2)]%Z)) ∅)
    = Ok (chars, w1) /\
    getChars (A := exampleAttrs)
      (mkWorld
         (snd (run (U := asciiUnicode)
                 (reset (snd (run (U := asciiUnicode)
                                (new [97; 98; 99; 100]%Z false true false)
                                [(120, 1); (98, 2)]%Z)))
                 [(120, 1); (98, 2)]%Z)) ∅)
    = Ok (chars, w2).
Proof.
  apply (proj2 (proj2 (proj2
           (replay_determinism (U := asciiUnicode) (A := exampleAttrs)
              [97; 98; 99; 100]%Z false true false [(120, 1); (98, 2)]%Z)))).
  - unfold attrsInRange, isAttr. cbn. lia.
  - change (drawable
              (mkTextInput [97; 98; 99; 100]%Z false true false []
                 [mkStep 120 1 false; mkStep 98 2 false] true [])).
    split; cbn [codePoints _garbage];
      repeat constructor; unfold isCodePoint; cbn; lia.
  - intros k ch Hk. rewrite lookup_empty in Hk. discriminate.
  - intros k ch Hk. rewrite lookup_empty in Hk. discriminate.
Defined.

(** Two spaces typed into a new machine for "ab" are absorbed. *)
Lemma leading_spaces_absorbed_witness :
  run (U := asciiUnicode) ex_ab [(32, 1); (32, 2)]%Z
  = ([Ok Succeeded; Ok Succeeded], ex_ab).
Proof.
  apply (leading_spaces_absorbed (U := asciiUnicode) ex_ab
           [(32, 1); (32, 2)]%Z).
  - reflexivity.
  - reflexivity.
  - reflexivity.
  - reflexivity.
  - repeat constructor.
Defined.

(** A mistyped "x" on a new machine for "ab" is buffered, and a backspace
    takes it out again; the typo flag stays. *)
Lemma backspace_undoes_mismatch_witness :
  _garbage (mistyped ex_ab 120 1) = _garbage ex_ab ++ [mkStep 120 1 false] /\
  step (U := asciiUnicode) 8 2 (mistyped ex_ab 120 1)
  = Ok (Succeeded, set_typo true ex_ab).
Proof.
  apply (backspace_undoes_mismatch (U := asciiUnicode) 120 1 8 2 ex_ab
           (mistyped ex_ab 120 1)).
  - exists 97%Z. split; reflexivity.
  - reflexivity.
  - cbn. unfold garbageBufferLength. lia.
  - reflexivity.
  - reflexivity.
Defined.

(** A new machine for "ab" is reachable; every call of [step] on it
    returns. *)
Lemma reachable_step_total_witness :
  reachable (U := asciiUnicode) ex_ab /\
  forall cp timeStamp,
    (completed ex_ab = true /\ step (U := asciiUnicode) cp timeStamp ex_ab = Thrown) \/
    (completed ex_ab = false /\
     exists fb t', step (U := asciiUnicode) cp timeStamp ex_ab = Ok (fb, t') /\
                   reachable (U := asciiUnicode) t').
Proof.
  assert (Hr : reachable (U := asciiUnicode) ex_ab) by apply reach_new.
  split; [exact Hr|].
  exact (proj2 (proj2 (reachable_step_total (U := asciiUnicode) ex_ab Hr))).
Defined.

(** With [stopOnError] and without [forgiveErrors], the mistyped "x" is not
    buffered and a backspace fails. *)
Lemma stop_on_error_never_buffers_witness :
  reachable (U := asciiUnicode) ex_ab_strict /\
  _garbage ex_ab_strict = [] /\
  step (U := asciiUnicode) 8 2 ex_ab_strict = Ok (Failed, ex_ab_strict).
Proof.
  assert (Hr : reachable (U := asciiUnicode) ex_ab_strict).
  { apply reachable_run. apply reach_new. }
  split; [exact Hr|].
  destruct (stop_on_error_never_buffers (U := asciiUnicode) ex_ab_strict Hr
              eq_refl eq_refl) as [Hg Hbs].
  split; [exact Hg|]. apply Hbs; reflexivity.
Defined.

(** After the recovery of "xbcd" on "abcd", the first committed step
    carries the "a" of the target. *)
Lemma history_follows_target_witness :
  exists e, codePoints ex_abcd_done !! 0 = Some e /\
            (codePoint (mkStep 97 1 true) = e \/
             normalize (Unicode := asciiUnicode) e = codePoint (mkStep 97 1 true)).
Proof.
  apply (history_follows_target (U := asciiUnicode) ex_abcd_done 0
           (mkStep 97 1 true)).
  - apply reachable_run. apply reach_new.
  - reflexivity.
Defined.

(** "a", "b" typed into a machine for "ab". *)
Lemma typing_correctly_completes_witness :
  fst (run (U := asciiUnicode) (new [97; 98]%Z false false false)
         [(97, 1); (98, 2)]%Z)
  = [Ok Succeeded; Ok Succeeded] /\
  getSteps (snd (run (U := asciiUnicode) (new [97; 98]%Z false false false)
                   [(97, 1); (98, 2)]%Z))
  = [mkStep 97 1 false; mkStep 98 2 false].
Proof.
  assert (Hc : correctFrom (U := asciiUnicode) true [97; 98]%Z
                 [(97, 1); (98, 2)]%Z).
  { cbn. repeat split; try discriminate; try reflexivity. }
  destruct (typing_correctly_completes (U := asciiUnicode) [97; 98]%Z
              false false false [(97, 1); (98, 2)]%Z Hc) as (Hf & Hs & _).
  split; [exact Hf|exact Hs].
Defined.

(** The key of "a" as a hit is the key of nothing else. *)
Lemma charKey_separates_witness :
  charKey 97 1 = 16777313%Z /\ (97 = 97 /\ 1 = 1)%Z.
Proof.
  split; [reflexivity|].
  apply (charKey_separates 97 1 97 1).
  - unfold isCodePoint. lia.
  - unfold isAttr. lia.
  - unfold isCodePoint. lia.
  - unfold isAttr. lia.
  - reflexivity.
Defined.


(** "abcd" with "xbcd" buffered is drawn with eight characters. *)
Lemma getChars_length_witness :
  exists chars w',
    getChars (A := exampleAttrs) (mkWorld ex_abcd_replaced ∅) = Ok (chars, w') /\
    length chars = 8.
Proof.
  apply (getChars_length (A := exampleAttrs) (mkWorld ex_abcd_replaced ∅)).
  - unfold attrsInRange, isAttr. cbn. lia.
  - intros k ch Hk. cbn [charCache] in Hk. rewrite lookup_empty in Hk.
    discriminate.
  - split; cbn [this ex_abcd_replaced codePoints _garbage];
      repeat constructor; unfold isCodePoint; cbn; lia.
Defined.

(** On "foo bar" with a mistyped keystroke buffered, the space lands right
    after the space of the target. *)
Lemma word_skip_lands_witness :
  exists t',
    step (U := asciiUnicode) 32 2 ex_foo_bar = Ok (Recovered, t') /\
    cursor ex_foo_bar < cursor t' <= length (codePoints ex_foo_bar) /\
    (completed t' = true \/
     exists w, codePoints ex_foo_bar !! (cursor t' - 1) = Some w /\
               isWhitespace (Unicode := asciiUnicode) w = true).
Proof.
  destruct (word_skip_lands (U := asciiUnicode) 32 2 102 ex_foo_bar)
    as (t' & Hs & _ & Hc & _ & _ & _ & _ & Hl).
  - reflexivity.
  - reflexivity.
  - reflexivity.
  - left. discriminate.
  - reflexivity.
  - exists t'. split; [exact Hs|]. split; [exact Hc|exact Hl].
Defined.

(** Two samples given out of order: both are found, and nothing else. *)
Lemma Histogram_constructor_lookup_witness :
  Histogram_get (Histogram_new ex_samples) 97 = Some (mkSample 97 2 1 3) /\
  Histogram_get (Histogram_new ex_samples) 99 = None /\
  Histogram_complexity (Histogram_new ex_samples) = 2.
Proof.
  assert (Hnd : NoDup (sample_codePoint <$> ex_samples)).
  { cbn. apply NoDup_cons. split.
    - intros H. apply elem_of_cons in H as [H|H]; [discriminate|inversion H].
    - apply NoDup_singleton. }
  destruct (Histogram_constructor_lookup ex_samples Hnd) as (Hin & Hout & Hc).
  split; [|split].
  - apply (Hin (mkSample 97 2 1 3)). unfold ex_samples.
    apply elem_of_cons. right. apply elem_of_cons. left. reflexivity.
  - apply (Hout 99%Z). cbn. intros H.
    apply elem_of_cons in H as [H|H]; [discriminate|].
    apply elem_of_cons in H as [H|H]; [discriminate|inversion H].
  - exact Hc.
Defined.

(** The word-skip on "foo bar" returns [Recovered]: it commits steps, the
    first of them a typo. *)
Lemma feedback_meaning_witness :
  step (U := asciiUnicode) 32 2 ex_foo_bar
  = Ok (Recovered,
        mkTextInput [102; 111; 111; 32; 98; 97; 114]%Z false false true
          [mkStep 102 2 true; mkStep 111 2 true; mkStep 111 2 true;
           mkStep 32 2 false]
          [] false
          [mkStep 102 2 true; mkStep 111 2 true; mkStep 111 2 true;
           mkStep 32 2 false]) /\
  exists s new,
    [mkStep 102 2 true; mkStep 111 2 true; mkStep 111 2 true; mkStep 32 2 false]
    = _steps ex_foo_bar ++ s :: new /\ typo s = true.
Proof.
  split; [reflexivity|].
  destruct (proj2 (proj2 (feedback_meaning (U := asciiUnicode) 32 2 ex_foo_bar
              (mkTextInput [102; 111; 111; 32; 98; 97; 114]%Z false false true
                 [mkStep 102 2 true; mkStep 111 2 true; mkStep 111 2 true;
                  mkStep 32 2 false]
                 [] false
                 [mkStep 102 2 true; mkStep 111 2 true; mkStep 111 2 true;
                  mkStep 32 2 false])
              Recovered eq_refl)) eq_refl) as (s & new & Hs & Hty & _).
  exists s, new. split; [exact Hs|exact Hty].
Defined.

(** After a mistyped "x", the expected "a" is accepted as a typo by the
    forgiving machine and rejected by the other one. *)
Lemma expected_character_over_garbage_witness :
  step (U := asciiUnicode) 97 2 ex_abcd_x
  = Ok (Recovered, commit ex_abcd_x [mkStep 97 2 true]) /\
  step (U := asciiUnicode) 97 2 ex_ab_x
  = Ok (Failed, mistyped ex_ab_x 97 2).
Proof.
  split.
  - apply (expected_character_over_garbage (U := asciiUnicode) 97 2 97
             ex_abcd_x).
    + apply reachable_run. apply reach_new.
    + discriminate.
    + reflexivity.
    + reflexivity.
    + discriminate.
    + discriminate.
    + reflexivity.
  - apply (expected_character_over_garbage (U := asciiUnicode) 97 2 97
             ex_ab_x).
    + apply reachable_run. apply reach_new.
    + discriminate.
    + reflexivity.
    + reflexivity.
    + discriminate.
    + discriminate.
    + reflexivity.
Defined.

(** On "a b" with the cursor on "b", one more space changes nothing. *)
Lemma space_at_word_start_ignored_witness :
  step (U := asciiUnicode) 32 3 ex_a_b = Ok (Succeeded, ex_a_b).
Proof.
  apply (space_at_word_start_ignored (U := asciiUnicode) 32 3 98 32 ex_a_b).
  - reflexivity.
  - reflexivity.
  - reflexivity.
  - reflexivity.
  - discriminate.
  - reflexivity.
  - reflexivity.
Defined.

Section StorageWitnesses.
#[local] Existing Instance exampleStorageTypes.

(** The remote store is empty and the local database holds two results:
    [load] sends them, clears the local database and returns them. *)
Lemma named_load_clears_after_send_witness :
  exec memoryEnv
    (storage_load (openResultStorage (private (Some "alice"))) None) ex_memory
  = (inr [1; 2]%Z, mkMemory [] [1; 2]%Z false, ex_memory_calls) /\
  exists results u,
    results <> [] /\
    ex_memory_calls
    = [Asked (RemoteReceive ResultSyncNamedUser 0) (inr []);
       Asked LocalLoad (inr results);
       Told (RemoteSend ResultSyncNamedUser results 0) (inr u);
       Told LocalClear (inr tt)] /\
    @inr Exn _ [1; 2]%Z = inr results.
Proof.
  assert (Hrun : exec memoryEnv
            (storage_load (openResultStorage (private (Some "alice"))) None)
            ex_memory
          = (inr [1; 2]%Z, mkMemory [] [1; 2]%Z false, ex_memory_calls)).
  { reflexivity. }
  split; [exact Hrun|].
  apply (named_load_clears_after_send (T := exampleStorageTypes) memoryEnv
           "alice" None ex_memory _ _ _ (inr tt) Hrun).
  unfold ex_memory_calls. do 3 (apply elem_of_cons; right).
  apply elem_of_cons. left. reflexivity.
Defined.

(** The same run returns the local results, moved to the remote store. *)
Lemma named_load_result_witness :
  ([1; 2]%Z <> [] /\
   ex_memory_calls = [Asked (RemoteReceive ResultSyncNamedUser 0) (inr [1; 2]%Z)]) \/
  ([1; 2]%Z <> [] /\ exists u u',
     ex_memory_calls
     = [Asked (RemoteReceive ResultSyncNamedUser 0) (inr []);
        Asked LocalLoad (inr [1; 2]%Z);
        Told (RemoteSend ResultSyncNamedUser [1; 2]%Z 0) (inr u);
        Told LocalClear (inr u')]) \/
  ([1; 2]%Z = [] /\
   ex_memory_calls
   = [Asked (RemoteReceive ResultSyncNamedUser 0) (inr []);
      Asked LocalLoad (inr [])]).
Proof.
  apply (named_load_result (T := exampleStorageTypes) memoryEnv "alice" None
           ex_memory [1; 2]%Z (mkMemory [] [1; 2]%Z false) ex_memory_calls).
  reflexivity.
Defined.

End StorageWitnesses.
